(** * SentinelLink backend: the incident lifecycle engine

    A shallow embedding of the incident service
    ([services/incident.service.ts]), the duplicate detector
    ([utils/duplicateDetector.ts]), the distance utility
    ([utils/distance.ts]), the media upload wrapper
    ([config/cloudinary.ts]), the error middleware
    ([middleware/error.middleware.ts]) and the parts of the incident
    controller and validation schema that the properties below talk about.

    Conventions of the embedding.
    - A JavaScript [number] holding a coordinate or a distance is a real
      number ([R]); rounding of IEEE doubles is not modelled. Counters and
      millisecond timestamps are integers ([Z]).
    - The database, the socket server, the media store, the clock and the
      uuid generator form one explicit [World] that every operation threads.
    - An [async] function is a tree of atomic steps ([Async]); each [await]
      is a point at which other requests may run. *)

From Stdlib Require Import List String Ascii ZArith Bool Lia DecimalString.
From Stdlib Require Import Reals Lra.
From Stdlib Require Import Sorting.Sorted Sorting.Permutation.
Import ListNotations.

Local Open Scope string_scope.
Local Open Scope Z_scope.

(* ------------------------------------------------------------------ *)
(** ** Strings *)

Module Js.

(** [String.prototype.toUpperCase], on ASCII letters. *)
Definition upper_ascii (c : ascii) : ascii :=
  let n := nat_of_ascii c in
  if andb (Nat.leb 97 n) (Nat.leb n 122) then ascii_of_nat (n - 32) else c.

Fixpoint toUpperCase (s : string) : string :=
  match s with
  | EmptyString => EmptyString
  | String c r => String (upper_ascii c) (toUpperCase r)
  end.

(** Truthiness of a string: only the empty string is falsy. *)
Definition truthy (s : string) : bool :=
  match s with EmptyString => false | _ => true end.

(** Truthiness of an optional string ([undefined] is falsy). *)
Definition truthy_opt (s : option string) : bool :=
  match s with Some s => truthy s | None => false end.

(** [Array.prototype.join]. *)
Fixpoint join (sep : string) (l : list string) : string :=
  match l with
  | [] => ""
  | [x] => x
  | x :: r => x ++ sep ++ join sep r
  end.

(** Comparison of two reals as a boolean, for [<=] on numbers. *)
Definition Rleb (x y : R) : bool := if Rle_dec x y then true else false.

(** Numbers are modelled as reals: no rounding. A quotient may also be
    infinite or NaN, which no real stands for; [Number] adds these values
    where the source divides. *)
Inductive Number := Finite (x : R) | Infinity | NegInfinity | NaN.

(** [x / y] on finite numbers; a zero divisor counts as +0. *)
Definition div (x y : R) : Number :=
  if Req_dec_T y 0 then
    if Rlt_dec 0 x then Infinity
    else if Rlt_dec x 0 then NegInfinity
    else NaN
  else Finite (x / y).

(** [x + d] and [x - d] for a finite [x]. *)
Definition plus (x : R) (d : Number) : Number :=
  match d with
  | Finite y => Finite (x + y)
  | Infinity => Infinity
  | NegInfinity => NegInfinity
  | NaN => NaN
  end.

Definition minus (x : R) (d : Number) : Number :=
  match d with
  | Finite y => Finite (x - y)
  | Infinity => NegInfinity
  | NegInfinity => Infinity
  | NaN => NaN
  end.

(** [a <= b]; false as soon as one side is NaN. *)
Definition leb (a b : Number) : bool :=
  match a, b with
  | NaN, _ | _, NaN => false
  | NegInfinity, _ | _, Infinity => true
  | Finite x, Finite y => Rleb x y
  | Infinity, _ | _, NegInfinity => false
  end.

End Js.

(* ------------------------------------------------------------------ *)
(** ** The data model (validations/incident.schema.ts, Prisma client types) *)

Inductive IncidentStatus := REPORTED | VERIFIED | IN_PROGRESS | RESOLVED | FLAGGED.
Inductive Severity := LOW | MEDIUM | HIGH.

Definition IncidentStatus_eqb (a b : IncidentStatus) : bool :=
  match a, b with
  | REPORTED, REPORTED | VERIFIED, VERIFIED | IN_PROGRESS, IN_PROGRESS
  | RESOLVED, RESOLVED | FLAGGED, FLAGGED => true
  | _, _ => false
  end.

Definition Severity_eqb (a b : Severity) : bool :=
  match a, b with
  | LOW, LOW | MEDIUM, MEDIUM | HIGH, HIGH => true
  | _, _ => false
  end.

Definition status_name (s : IncidentStatus) : string :=
  match s with
  | REPORTED => "REPORTED" | VERIFIED => "VERIFIED"
  | IN_PROGRESS => "IN_PROGRESS" | RESOLVED => "RESOLVED"
  | FLAGGED => "FLAGGED"
  end.

(** [incidentTypes] of the schema. *)
Definition incidentTypes : list string :=
  ["FIRE"; "FLOOD"; "EARTHQUAKE"; "ACCIDENT"; "MEDICAL"; "CRIME";
   "INFRASTRUCTURE"; "ENVIRONMENTAL"; "OTHER"].

Record Incident := {
  id : string;
  incidentType : string;
  description : string;
  latitude : R;
  longitude : R;
  severity : Severity;
  status : IncidentStatus;
  upvoteCount : Z;
  mediaUrl : option string;
  createdAt : Z;
  updatedAt : Z
}.

Record Vote := {
  vote_userId : string;
  vote_incidentId : string;
  vote_createdAt : Z
}.

Record AdminNote := {
  note_incidentId : string;
  note_userId : string;
  note_text : string;
  note_createdAt : Z
}.

(** [env] of config/env.ts, the three incident options and [NODE_ENV]. *)
Inductive NodeEnv := development | production | test.

Record Env := {
  NODE_ENV : NodeEnv;
  VERIFICATION_THRESHOLD : Z;
  DUPLICATE_DISTANCE_METERS : R;
  DUPLICATE_TIME_MINUTES : Z
}.

(** The defaults of [envSchema]. *)
Definition default_env : Env := {|
  NODE_ENV := development;
  VERIFICATION_THRESHOLD := 5;
  DUPLICATE_DISTANCE_METERS := 200;
  DUPLICATE_TIME_MINUTES := 10
|}.

(* ------------------------------------------------------------------ *)
(** ** Errors and outcomes *)

(** The exceptions that travel through the service and that
    [errorHandler] tells apart. *)
Inductive Error :=
| ZodError (fields : list (string * string))
| AppError (message : string) (statusCode : Z)
| PrismaClientKnownRequestError (code : string) (target : option (list string))
    (message : string)
| JsonWebTokenError
| TokenExpiredError
| PlainError (message : string).

(** A settled promise. *)
Inductive Outcome (A : Type) :=
| Resolved (a : A)
| Rejected (e : Error).
Arguments Resolved {A} a.
Arguments Rejected {A} e.

(* ------------------------------------------------------------------ *)
(** ** The world outside the service *)

Definition Buffer := list Byte.byte.

(** What the Cloudinary upload callback is called with. *)
Inductive UploadCallback :=
| CbError (message : string)
| CbResult (secure_url public_id : string)
| CbNothing.

(** A payload sent through the socket server. *)
Record Emission := {
  em_room : option string;
  em_event : string;
  em_data : Incident;
  em_timestamp : Z
}.

(** Effects on the outside, in the order in which they happened. *)
Inductive Effect :=
| MediaStored (folder : string) (buf : Buffer) (secure_url : string)
| IncidentInserted (i : Incident)
| IncidentUpdated (i : Incident)
| IncidentDeleted (incidentId : string)
| VoteInserted (v : Vote)
| NoteInserted (n : AdminNote)
| Emitted (e : Emission).

Record World := {
  incidents : list Incident;
  votes : list Vote;
  adminNotes : list AdminNote;
  users : list string;
  now : Z;
  uuids : nat -> string;
  uuidCount : nat;
  cloudinary : Buffer -> UploadCallback;
  socketServiceInstance : bool;
  trace : list Effect
}.

Definition set_incidents (l : list Incident) (w : World) : World :=
  {| incidents := l; votes := votes w; adminNotes := adminNotes w;
     users := users w; now := now w; uuids := uuids w;
     uuidCount := uuidCount w; cloudinary := cloudinary w;
     socketServiceInstance := socketServiceInstance w; trace := trace w |}.

Definition set_votes (l : list Vote) (w : World) : World :=
  {| incidents := incidents w; votes := l; adminNotes := adminNotes w;
     users := users w; now := now w; uuids := uuids w;
     uuidCount := uuidCount w; cloudinary := cloudinary w;
     socketServiceInstance := socketServiceInstance w; trace := trace w |}.

Definition set_adminNotes (l : list AdminNote) (w : World) : World :=
  {| incidents := incidents w; votes := votes w; adminNotes := l;
     users := users w; now := now w; uuids := uuids w;
     uuidCount := uuidCount w; cloudinary := cloudinary w;
     socketServiceInstance := socketServiceInstance w; trace := trace w |}.

Definition set_now (t : Z) (w : World) : World :=
  {| incidents := incidents w; votes := votes w; adminNotes := adminNotes w;
     users := users w; now := t; uuids := uuids w;
     uuidCount := uuidCount w; cloudinary := cloudinary w;
     socketServiceInstance := socketServiceInstance w; trace := trace w |}.

Definition set_uuidCount (n : nat) (w : World) : World :=
  {| incidents := incidents w; votes := votes w; adminNotes := adminNotes w;
     users := users w; now := now w; uuids := uuids w;
     uuidCount := n; cloudinary := cloudinary w;
     socketServiceInstance := socketServiceInstance w; trace := trace w |}.

Definition log (e : Effect) (w : World) : World :=
  {| incidents := incidents w; votes := votes w; adminNotes := adminNotes w;
     users := users w; now := now w; uuids := uuids w;
     uuidCount := uuidCount w; cloudinary := cloudinary w;
     socketServiceInstance := socketServiceInstance w;
     trace := trace w ++ [e] |}.

(** The emissions among the effects, oldest first. *)
Fixpoint emissions (t : list Effect) : list Emission :=
  match t with
  | [] => []
  | Emitted e :: r => e :: emissions r
  | _ :: r => emissions r
  end.

(* ------------------------------------------------------------------ *)
(** ** Asynchronous programs *)

(** An [async] function body: a tree of atomic steps. [Step] runs
    synchronously after what precedes it; [Await] first yields to the event
    loop, so that other requests may change the world before the awaited
    operation takes effect. *)
Inductive Async (A : Type) : Type :=
| Pure (a : A)
| Throw (e : Error)
| Step (X : Type) (op : World -> X * World) (k : X -> Async A)
| Await (X : Type) (op : World -> X * World) (k : X -> Async A).
Arguments Pure {A} a.
Arguments Throw {A} e.
Arguments Step {A X} op k.
Arguments Await {A X} op k.

Fixpoint bind {A B : Type} (p : Async A) (f : A -> Async B) : Async B :=
  match p with
  | Pure a => f a
  | Throw e => Throw e
  | Step op k => Step op (fun x => bind (k x) f)
  | Await op k => Await op (fun x => bind (k x) f)
  end.

(** [try { p } catch (e) { h e }]. *)
Fixpoint try_catch {A : Type} (p : Async A) (h : Error -> Async A) : Async A :=
  match p with
  | Pure a => Pure a
  | Throw e => h e
  | Step op k => Step op (fun x => try_catch (k x) h)
  | Await op k => Await op (fun x => try_catch (k x) h)
  end.

Definition settle {A : Type} (r : Outcome A) : Async A :=
  match r with Resolved a => Pure a | Rejected e => Throw e end.

(** [await op], where the promise [op] may reject. *)
Definition await {A : Type} (op : World -> Outcome A * World) : Async A :=
  Await op settle.

(** A synchronous call that cannot throw. *)
Definition call {A : Type} (op : World -> A * World) : Async A :=
  Step op Pure.

Declare Scope async_scope.
Delimit Scope async_scope with async.
Notation "'let*' x ':=' c1 'in' c2" := (bind c1 (fun x => c2))
  (at level 10, x pattern, c1 at level 100, c2 at level 200) : async_scope.
Notation "c1 ';;' c2" := (bind c1 (fun _ => c2))
  (at level 100, c2 at level 200, right associativity) : async_scope.

(** Running a request alone: nothing else happens at its await points. *)
Fixpoint run {A : Type} (p : Async A) (w : World) : Outcome A * World :=
  match p with
  | Pure a => (Resolved a, w)
  | Throw e => (Rejected e, w)
  | Step op k => let (x, w') := op w in run (k x) w'
  | Await op k => let (x, w') := op w in run (k x) w'
  end.

(** Running a request among others: the n-th element of [others] is what
    the other requests do to the world while this one waits at its n-th
    await. Past the end of the list nothing interferes. *)
Fixpoint run_among {A : Type} (others : list (World -> World))
    (p : Async A) (w : World) : Outcome A * World :=
  match p with
  | Pure a => (Resolved a, w)
  | Throw e => (Rejected e, w)
  | Step op k => let (x, w') := op w in run_among others (k x) w'
  | Await op k =>
      match others with
      | [] => let (x, w') := op w in run_among [] (k x) w'
      | f :: rest => let (x, w') := op (f w) in run_among rest (k x) w'
      end
  end.

(* ------------------------------------------------------------------ *)
(** ** The persistence layer (the Prisma client over PostgreSQL)

    Modelled from the spec: [prisma/schema.prisma] is not among the sources.
    The model takes from the spec and from the calls the services make: the
    uniqueness constraint on a vote's (userId, incidentId); that votes and
    notes reference an incident and a user; that deleting an incident
    cascades to its votes and notes; that a new incident starts with
    upvoteCount 0 and both timestamps at the time of insertion. A violated
    constraint rejects with Prisma's error for it (P2002 unique, P2003
    foreign key, P2025 record not found). *)

Module Prisma.

Definition P2002 (target : list string) : Error :=
  PrismaClientKnownRequestError "P2002" (Some target)
    "Unique constraint failed".
Definition P2003 (field : string) : Error :=
  PrismaClientKnownRequestError "P2003" (Some [field])
    "Foreign key constraint failed".
Definition P2025 : Error :=
  PrismaClientKnownRequestError "P2025" None
    "Record to update or delete does not exist".

(** The [where] argument of the incident queries of the services. *)
Record IncidentWhere := {
  where_status : option IncidentStatus;
  where_status_notIn : list IncidentStatus;
  where_incidentType : option (string * bool); (* equals, insensitive? *)
  where_severity : option Severity;
  where_createdAt_gte : option Z;
  where_latitude : option (Js.Number * Js.Number);   (* gte, lte *)
  where_longitude : option (Js.Number * Js.Number)   (* gte, lte *)
}.

Definition where_all : IncidentWhere := {|
  where_status := None; where_status_notIn := [];
  where_incidentType := None; where_severity := None;
  where_createdAt_gte := None;
  where_latitude := None; where_longitude := None
|}.

Definition opt_holds {A : Type} (c : option A) (p : A -> bool) : bool :=
  match c with None => true | Some a => p a end.

Definition type_equals (i : Incident) (c : string * bool) : bool :=
  let (s, insensitive) := c in
  if insensitive
  then String.eqb (Js.toUpperCase (incidentType i)) (Js.toUpperCase s)
  else String.eqb (incidentType i) s.

Definition in_range (x : R) (c : Js.Number * Js.Number) : bool :=
  let (lo, hi) := c in
  andb (Js.leb lo (Js.Finite x)) (Js.leb (Js.Finite x) hi).

Definition matches (c : IncidentWhere) (i : Incident) : bool :=
  opt_holds (where_status c) (IncidentStatus_eqb (status i))
  && negb (existsb (IncidentStatus_eqb (status i)) (where_status_notIn c))
  && opt_holds (where_incidentType c) (type_equals i)
  && opt_holds (where_severity c) (Severity_eqb (severity i))
  && opt_holds (where_createdAt_gte c) (fun t => t <=? createdAt i)
  && opt_holds (where_latitude c) (in_range (latitude i))
  && opt_holds (where_longitude c) (in_range (longitude i)).

Inductive SortField := createdAt_ | updatedAt_ | severity_ | upvoteCount_.
Inductive SortOrder := asc | desc.

Definition severity_rank (s : Severity) : Z :=
  match s with LOW => 0 | MEDIUM => 1 | HIGH => 2 end.

Definition sort_key (f : SortField) (i : Incident) : Z :=
  match f with
  | createdAt_ => createdAt i
  | updatedAt_ => updatedAt i
  | severity_ => severity_rank (severity i)
  | upvoteCount_ => upvoteCount i
  end.

(** [a] may stand before [b] under [ORDER BY f o]. *)
Definition before (f : SortField) (o : SortOrder) (a b : Incident) : bool :=
  match o with
  | asc => sort_key f a <=? sort_key f b
  | desc => sort_key f b <=? sort_key f a
  end.

Fixpoint insert (le : Incident -> Incident -> bool) (x : Incident)
    (l : list Incident) : list Incident :=
  match l with
  | [] => [x]
  | y :: r => if le x y then x :: y :: r else y :: insert le x r
  end.

Definition orderBy (f : SortField) (o : SortOrder) (l : list Incident)
  : list Incident :=
  fold_right (insert (before f o)) [] l.

Definition lookup (incidentId : string) (l : list Incident) : option Incident :=
  find (fun i => String.eqb (id i) incidentId) l.

(** [prisma.incident.findMany({ where, orderBy, skip, take })]. *)
Definition incident_findMany (c : IncidentWhere) (f : SortField)
    (o : SortOrder) (skip take : nat) (w : World)
  : Outcome (list Incident) * World :=
  (Resolved (firstn take (skipn skip
               (orderBy f o (filter (matches c) (incidents w))))), w).

(** [prisma.incident.count({ where })]. *)
Definition incident_count (c : IncidentWhere) (w : World)
  : Outcome Z * World :=
  (Resolved (Z.of_nat (List.length (filter (matches c) (incidents w)))), w).

(** [prisma.incident.findUnique({ where: { id } })]. *)
Definition incident_findUnique (incidentId : string) (w : World)
  : Outcome (option Incident) * World :=
  (Resolved (lookup incidentId (incidents w)), w).

(** The [data] of [prisma.incident.create]. *)
Record IncidentCreate := {
  new_id : string;
  new_incidentType : string;
  new_description : string;
  new_latitude : R;
  new_longitude : R;
  new_severity : Severity;
  new_status : IncidentStatus;
  new_mediaUrl : option string
}.

Definition new_row (d : IncidentCreate) (t : Z) : Incident := {|
  id := new_id d;
  incidentType := new_incidentType d;
  description := new_description d;
  latitude := new_latitude d;
  longitude := new_longitude d;
  severity := new_severity d;
  status := new_status d;
  upvoteCount := 0;
  mediaUrl := new_mediaUrl d;
  createdAt := t;
  updatedAt := t
|}.

(** [prisma.incident.create({ data })]. *)
Definition incident_create (d : IncidentCreate) (w : World)
  : Outcome Incident * World :=
  match lookup (new_id d) (incidents w) with
  | Some _ => (Rejected (P2002 ["id"]), w)
  | None =>
      let row := new_row d (now w) in
      (Resolved row,
       log (IncidentInserted row) (set_incidents (incidents w ++ [row]) w))
  end.

(** The [data] of [prisma.incident.update]: the fields the services set. *)
Record IncidentUpdate := {
  upd_status : option IncidentStatus;
  upd_severity : option Severity;
  upd_updatedAt : option Z;
  upd_upvoteCount_increment : option Z
}.

Definition no_change : IncidentUpdate := {|
  upd_status := None; upd_severity := None;
  upd_updatedAt := None; upd_upvoteCount_increment := None
|}.

Definition apply_update (d : IncidentUpdate) (i : Incident) : Incident := {|
  id := id i;
  incidentType := incidentType i;
  description := description i;
  latitude := latitude i;
  longitude := longitude i;
  severity := match upd_severity d with Some s => s | None => severity i end;
  status := match upd_status d with Some s => s | None => status i end;
  upvoteCount :=
    match upd_upvoteCount_increment d with
    | Some n => upvoteCount i + n
    | None => upvoteCount i
    end;
  mediaUrl := mediaUrl i;
  createdAt := createdAt i;
  updatedAt := match upd_updatedAt d with Some t => t | None => updatedAt i end
|}.

Fixpoint replace (row : Incident) (l : list Incident) : list Incident :=
  match l with
  | [] => []
  | y :: r =>
      if String.eqb (id y) (id row) then row :: r else y :: replace row r
  end.

(** [prisma.incident.update({ where: { id }, data })]. *)
Definition incident_update (incidentId : string) (d : IncidentUpdate)
    (w : World) : Outcome Incident * World :=
  match lookup incidentId (incidents w) with
  | None => (Rejected P2025, w)
  | Some old =>
      let row := apply_update d old in
      (Resolved row,
       log (IncidentUpdated row) (set_incidents (replace row (incidents w)) w))
  end.

(** [prisma.incident.delete({ where: { id } })], cascading. *)
Definition incident_delete (incidentId : string) (w : World)
  : Outcome Incident * World :=
  match lookup incidentId (incidents w) with
  | None => (Rejected P2025, w)
  | Some old =>
      let keep_i i := negb (String.eqb (id i) incidentId) in
      let keep_v v := negb (String.eqb (vote_incidentId v) incidentId) in
      let keep_n n := negb (String.eqb (note_incidentId n) incidentId) in
      (Resolved old,
       log (IncidentDeleted incidentId)
         (set_adminNotes (filter keep_n (adminNotes w))
            (set_votes (filter keep_v (votes w))
               (set_incidents (filter keep_i (incidents w)) w))))
  end.

Definition same_vote (userId incidentId : string) (v : Vote) : bool :=
  String.eqb (vote_userId v) userId
  && String.eqb (vote_incidentId v) incidentId.

(** [prisma.vote.findUnique({ where: { userId_incidentId } })]. *)
Definition vote_findUnique (userId incidentId : string) (w : World)
  : Outcome (option Vote) * World :=
  (Resolved (find (same_vote userId incidentId) (votes w)), w).

Definition known_user (userId : string) (w : World) : bool :=
  existsb (String.eqb userId) (users w).

(** [prisma.vote.create({ data: { userId, incidentId } })]. *)
Definition vote_create (userId incidentId : string) (w : World)
  : Outcome Vote * World :=
  if existsb (same_vote userId incidentId) (votes w)
  then (Rejected (P2002 ["userId"; "incidentId"]), w)
  else if negb (known_user userId w)
  then (Rejected (P2003 "userId"), w)
  else match lookup incidentId (incidents w) with
       | None => (Rejected (P2003 "incidentId"), w)
       | Some _ =>
           let v := {| vote_userId := userId;
                       vote_incidentId := incidentId;
                       vote_createdAt := now w |} in
           (Resolved v, log (VoteInserted v) (set_votes (votes w ++ [v]) w))
       end.

(** [prisma.adminNote.create({ data: { incidentId, userId, note } })]. *)
Definition adminNote_create (incidentId userId text : string) (w : World)
  : Outcome AdminNote * World :=
  if negb (known_user userId w)
  then (Rejected (P2003 "userId"), w)
  else match lookup incidentId (incidents w) with
       | None => (Rejected (P2003 "incidentId"), w)
       | Some _ =>
           let n := {| note_incidentId := incidentId;
                       note_userId := userId;
                       note_text := text;
                       note_createdAt := now w |} in
           (Resolved n,
            log (NoteInserted n) (set_adminNotes (adminNotes w ++ [n]) w))
       end.

(** [prisma.$transaction([a, b])]: both or nothing. *)
Definition transaction2 {A B : Type}
    (a : World -> Outcome A * World) (b : World -> Outcome B * World)
    (w : World) : Outcome (A * B) * World :=
  match a w with
  | (Rejected e, _) => (Rejected e, w)
  | (Resolved x, w1) =>
      match b w1 with
      | (Rejected e, _) => (Rejected e, w)
      | (Resolved y, w2) => (Resolved (x, y), w2)
      end
  end.

End Prisma.

(* ------------------------------------------------------------------ *)
(** ** utils/distance.ts *)

Local Open Scope R_scope.

Definition EARTH_RADIUS_METERS : R := 6371000.

Definition toRadians (degrees : R) : R := degrees * (PI / 180).

(** [Math.atan2 y x]. *)
Definition atan2 (y x : R) : R :=
  if Rlt_dec 0 x then atan (y / x)
  else if Rlt_dec x 0 then
    if Rle_dec 0 y then atan (y / x) + PI else atan (y / x) - PI
  else if Rlt_dec 0 y then PI / 2
  else if Rlt_dec y 0 then - (PI / 2)
  else 0.

Definition calculateDistance (lat1 lon1 lat2 lon2 : R) : R :=
  let dLat := toRadians (lat2 - lat1) in
  let dLon := toRadians (lon2 - lon1) in
  let a :=
    sin (dLat / 2) * sin (dLat / 2) +
    cos (toRadians lat1) * cos (toRadians lat2) *
    sin (dLon / 2) * sin (dLon / 2) in
  let c := 2 * atan2 (sqrt a) (sqrt (1 - a)) in
  EARTH_RADIUS_METERS * c.

Definition isWithinDistance (lat1 lon1 lat2 lon2 maxDistanceMeters : R) : bool :=
  Js.Rleb (calculateDistance lat1 lon1 lat2 lon2) maxDistanceMeters.

Local Close Scope R_scope.

Local Open Scope async_scope.

(** [Date.now()] and [new Date()]. *)
Definition Date_now : Async Z := call (fun w => (now w, w)).

(** [uuidv4()]: the next identifier of the generator. *)
Definition uuidv4 : Async string :=
  call (fun w => (uuids w (uuidCount w), set_uuidCount (S (uuidCount w)) w)).

(* ------------------------------------------------------------------ *)
(** ** config/cloudinary.ts *)

Record UploadResult := { secure_url : string; public_id : string }.

(** The media store answers the upload through its callback; the wrapper
    turns the answer into a settled promise. Bytes are stored only when the
    store reports a result. *)
Definition uploadToCloudinary (buffer : Buffer) (folder : string)
  : Async UploadResult :=
  await (fun w =>
    match cloudinary w buffer with
    | CbError m =>
        (Rejected (PlainError ("Cloudinary upload failed: " ++ m)), w)
    | CbResult u p =>
        (Resolved {| secure_url := u; public_id := p |},
         log (MediaStored ("anginat/" ++ folder) buffer u) w)
    | CbNothing =>
        (Rejected (PlainError "Cloudinary upload returned no result"), w)
    end).

(* ------------------------------------------------------------------ *)
(** ** services/socket.service.ts *)

Definition emit (room : option string) (event : string) (i : Incident)
    (w : World) : unit * World :=
  (tt, log (Emitted {| em_room := room; em_event := event;
                       em_data := i; em_timestamp := now w |}) w).

Definition emitNewIncident (i : Incident) : Async unit :=
  call (emit None "incident:new" i).

Definition emitIncidentUpdate (i : Incident) : Async unit :=
  call (emit None "incident:update" i) ;;
  call (emit (Some ("incident:" ++ id i)) "incident:updated" i).

(** [getSocketService()]: whether the singleton has been initialised. *)
Definition getSocketService : Async bool :=
  call (fun w => (socketServiceInstance w, w)).

(* ------------------------------------------------------------------ *)
(** ** validations/incident.schema.ts *)

(** The validated input of a creation ([CreateIncidentInput]). *)
Record CreateIncidentInput := {
  in_incidentType : string;
  in_description : string;
  in_latitude : R;
  in_longitude : R;
  in_severity : Severity
}.

(** A creation request body before validation; coordinates are taken as
    numbers already. *)
Record CreateIncidentBody := {
  body_incidentType : string;
  body_description : string;
  body_latitude : R;
  body_longitude : R;
  body_severity : option Severity
}.

Definition issue (field message : string) (ok : bool) : list (string * string) :=
  if ok then [] else [(field, message)].

(** [createIncidentSchema.parse]. *)
Definition createIncidentSchema_parse (b : CreateIncidentBody)
  : Outcome CreateIncidentInput :=
  let t := body_incidentType b in
  let d := body_description b in
  let issues :=
    (issue "incidentType" "Incident type is required"
       (Nat.leb 1 (String.length t))
     ++ issue "incidentType" "Incident type is too long"
       (Nat.leb (String.length t) 50)
     ++ issue "incidentType"
       ("Incident type must be one of: " ++ Js.join ", " incidentTypes)%string
       (existsb (String.eqb (Js.toUpperCase t)) incidentTypes)
     ++ issue "description" "Description must be at least 10 characters"
       (Nat.leb 10 (String.length d))
     ++ issue "description" "Description is too long"
       (Nat.leb (String.length d) 2000)
     ++ issue "latitude" "Latitude must be a valid number between -90 and 90"
       (Js.Rleb (-90) (body_latitude b) && Js.Rleb (body_latitude b) 90)
     ++ issue "longitude" "Longitude must be a valid number between -180 and 180"
       (Js.Rleb (-180) (body_longitude b) && Js.Rleb (body_longitude b) 180))%list
  in
  match issues with
  | [] =>
      Resolved {|
        in_incidentType := t;
        in_description := d;
        in_latitude := body_latitude b;
        in_longitude := body_longitude b;
        in_severity :=
          match body_severity b with Some s => s | None => MEDIUM end
      |}
  | _ => Rejected (ZodError issues)
  end.

(** The validated query of a listing ([IncidentQueryInput]). *)
Record IncidentQueryInput := {
  page : Z;
  limit : Z;
  q_status : option IncidentStatus;
  q_incidentType : option string;
  q_severity : option Severity;
  sortBy : Prisma.SortField;
  sortOrder : Prisma.SortOrder;
  minLat : option R;
  maxLat : option R;
  minLng : option R;
  maxLng : option R
}.

(* ------------------------------------------------------------------ *)
(** ** utils/duplicateDetector.ts *)

(** The text of [reason] is the template
    "Similar incident reported within {meters}m and {minutes} minutes";
    its two holes are kept as they are. *)
Inductive Reason := SimilarWithin (meters : R) (minutes : Z).

Record DuplicateCheckResult := {
  isDuplicate : bool;
  duplicateOf : option string;
  reason : option Reason
}.

Section Detector.

Variable env : Env.

Definition timeWindowStart (t : Z) : Z :=
  t - DUPLICATE_TIME_MINUTES env * 60 * 1000.

Definition latDelta : R := (DUPLICATE_DISTANCE_METERS env / 111000)%R.

(** Where the cosine is 0 the quotient is infinite (NaN for a zero
    distance) and the box below spans every longitude. In floating point
    the cosine of a valid latitude is never exactly 0: at the poles it is
    about 6e-17 and the delta about 3e13 for 200 metres, which spans
    every valid longitude as well. *)
Definition lonDelta (latitude : R) : Js.Number :=
  Js.div latDelta (cos ((latitude * PI) / 180)).

(** The [where] clause of the candidate query. *)
Definition candidates_where (incidentType : string) (latitude longitude : R)
    (t : Z) : Prisma.IncidentWhere := {|
  Prisma.where_status := None;
  Prisma.where_status_notIn := [RESOLVED; FLAGGED];
  Prisma.where_incidentType := Some (incidentType, true);
  Prisma.where_severity := None;
  Prisma.where_createdAt_gte := Some (timeWindowStart t);
  Prisma.where_latitude :=
    Some (Js.Finite (latitude - latDelta), Js.Finite (latitude + latDelta));
  Prisma.where_longitude :=
    Some (Js.minus longitude (lonDelta latitude),
          Js.plus longitude (lonDelta latitude))
|}.

(** The [for ... of] loop of the precise check. *)
Fixpoint first_within (lat lon : R) (l : list Incident)
  : DuplicateCheckResult :=
  match l with
  | [] => {| isDuplicate := false; duplicateOf := None; reason := None |}
  | incident :: rest =>
      if isWithinDistance lat lon (latitude incident) (longitude incident)
           (DUPLICATE_DISTANCE_METERS env)
      then {| isDuplicate := true;
              duplicateOf := Some (id incident);
              reason := Some (SimilarWithin (DUPLICATE_DISTANCE_METERS env)
                                (DUPLICATE_TIME_MINUTES env)) |}
      else first_within lat lon rest
  end.

Definition checkForDuplicate (incidentType : string) (latitude longitude : R)
  : Async DuplicateCheckResult :=
  let* t := Date_now in
  let* recentIncidents :=
    await (Prisma.incident_findMany
             (candidates_where incidentType latitude longitude t)
             Prisma.createdAt_ Prisma.desc 0 20) in
  Pure (first_within latitude longitude recentIncidents).

End Detector.

(* ------------------------------------------------------------------ *)
(** ** services/incident.service.ts *)

Record IncidentPage := {
  pg_incidents : list Incident;
  pg_total : Z;
  pg_page : Z;
  pg_totalPages : Z
}.

(** The result of an upvote; [up_incident] is [None] where the code would
    hand out [null] behind its non-null assertion. *)
Record UpvoteResult := {
  up_incident : option Incident;
  alreadyVoted : bool
}.

(** [Math.ceil(total / limit)] on integers, [limit] positive. *)
Definition ceil_div (total limit : Z) : Z := - ((- total) / limit).

Section IncidentService.

Variable env : Env.

Definition createIncident (data : CreateIncidentInput)
    (mediaBuffer : option Buffer) : Async Incident :=
  let* id := uuidv4 in
  let* mediaUrl :=
    match mediaBuffer with
    | Some buffer =>
        let* uploadResult := uploadToCloudinary buffer "incidents" in
        Pure (Some (secure_url uploadResult))
    | None => Pure None
    end in
  let* duplicateCheck :=
    checkForDuplicate env (in_incidentType data)
      (in_latitude data) (in_longitude data) in
  let* incident :=
    await (Prisma.incident_create {|
      Prisma.new_id := id;
      Prisma.new_incidentType := Js.toUpperCase (in_incidentType data);
      Prisma.new_description :=
        if isDuplicate duplicateCheck
        then "[POTENTIAL DUPLICATE] " ++ in_description data
        else in_description data;
      Prisma.new_latitude := in_latitude data;
      Prisma.new_longitude := in_longitude data;
      Prisma.new_severity := in_severity data;
      Prisma.new_status :=
        if isDuplicate duplicateCheck then FLAGGED else REPORTED;
      Prisma.new_mediaUrl := mediaUrl
    |}) in
  let* socketService := getSocketService in
  (if socketService then emitNewIncident incident else Pure tt) ;;
  Pure incident.

(** The [where] clause that [getIncidents] builds. *)
Definition query_where (query : IncidentQueryInput) : Prisma.IncidentWhere := {|
  Prisma.where_status := q_status query;
  Prisma.where_status_notIn := [];
  Prisma.where_incidentType :=
    match q_incidentType query with
    | Some t => if Js.truthy t then Some (Js.toUpperCase t, false) else None
    | None => None
    end;
  Prisma.where_severity := q_severity query;
  Prisma.where_createdAt_gte := None;
  Prisma.where_latitude :=
    match minLat query, maxLat query with
    | Some lo, Some hi => Some (Js.Finite lo, Js.Finite hi)
    | _, _ => None
    end;
  Prisma.where_longitude :=
    match minLng query, maxLng query with
    | Some lo, Some hi => Some (Js.Finite lo, Js.Finite hi)
    | _, _ => None
    end
|}.

Definition getIncidents (query : IncidentQueryInput) : Async IncidentPage :=
  let skip := (page query - 1) * limit query in
  let where_ := query_where query in
  let* incidents :=
    await (Prisma.incident_findMany where_ (sortBy query) (sortOrder query)
             (Z.to_nat skip) (Z.to_nat (limit query))) in
  let* total := await (Prisma.incident_count where_) in
  Pure {| pg_incidents := incidents;
          pg_total := total;
          pg_page := page query;
          pg_totalPages := ceil_div total (limit query) |}.

Definition getIncidentById (incidentId : string) : Async (option Incident) :=
  await (Prisma.incident_findUnique incidentId).

Definition updateIncidentStatus (incidentId : string)
    (status : IncidentStatus) (adminId : string) (note : option string)
  : Async Incident :=
  let* t := Date_now in
  let* incident :=
    await (Prisma.incident_update incidentId {|
      Prisma.upd_status := Some status;
      Prisma.upd_severity := None;
      Prisma.upd_updatedAt := Some t;
      Prisma.upd_upvoteCount_increment := None
    |}) in
  match note with
  | Some text =>
      if Js.truthy text
      then
        await (Prisma.adminNote_create incidentId adminId
                 ("Status changed to " ++ status_name status ++ ": " ++ text)) ;;
        Pure tt
      else Pure tt
  | None => Pure tt
  end ;;
  let* socketService := getSocketService in
  (if socketService then emitIncidentUpdate incident else Pure tt) ;;
  Pure incident.

Definition addAdminNote (incidentId adminId note : string)
  : Async Incident :=
  await (Prisma.adminNote_create incidentId adminId note) ;;
  let* incident := getIncidentById incidentId in
  match incident with
  | None => Throw (PlainError "Incident not found after adding note")
  | Some i => Pure i
  end.

Definition updateSeverity (incidentId : string) (severity : Severity)
  : Async Incident :=
  let* t := Date_now in
  let* incident :=
    await (Prisma.incident_update incidentId {|
      Prisma.upd_status := None;
      Prisma.upd_severity := Some severity;
      Prisma.upd_updatedAt := Some t;
      Prisma.upd_upvoteCount_increment := None
    |}) in
  let* socketService := getSocketService in
  (if socketService then emitIncidentUpdate incident else Pure tt) ;;
  Pure incident.

Definition deleteIncident (incidentId : string) : Async unit :=
  let* incident := await (Prisma.incident_findUnique incidentId) in
  match incident with
  | None => Throw (PlainError "Incident not found")
  | Some _ => await (Prisma.incident_delete incidentId) ;; Pure tt
  end.

Definition increment_upvotes : Prisma.IncidentUpdate := {|
  Prisma.upd_status := None;
  Prisma.upd_severity := None;
  Prisma.upd_updatedAt := None;
  Prisma.upd_upvoteCount_increment := Some 1
|}.

Definition set_verified : Prisma.IncidentUpdate := {|
  Prisma.upd_status := Some VERIFIED;
  Prisma.upd_severity := None;
  Prisma.upd_updatedAt := None;
  Prisma.upd_upvoteCount_increment := None
|}.

Definition upvoteIncident (incidentId userId : string)
  : Async UpvoteResult :=
  if String.eqb userId "anonymous" then
    let* incident :=
      await (Prisma.incident_update incidentId increment_upvotes) in
    Pure {| up_incident := Some incident; alreadyVoted := false |}
  else
    let* existingVote := await (Prisma.vote_findUnique userId incidentId) in
    match existingVote with
    | Some _ =>
        let* incident := await (Prisma.incident_findUnique incidentId) in
        Pure {| up_incident := incident; alreadyVoted := true |}
    | None =>
        let* r :=
          await (Prisma.transaction2
                   (Prisma.vote_create userId incidentId)
                   (Prisma.incident_update incidentId increment_upvotes)) in
        let incident := snd r in
        if IncidentStatus_eqb (status incident) REPORTED
           && (VERIFICATION_THRESHOLD env <=? upvoteCount incident)
        then
          let* verifiedIncident :=
            await (Prisma.incident_update incidentId set_verified) in
          let* socketService := getSocketService in
          (if socketService then emitIncidentUpdate verifiedIncident
           else Pure tt) ;;
          Pure {| up_incident := Some verifiedIncident;
                  alreadyVoted := false |}
        else
          Pure {| up_incident := Some incident; alreadyVoted := false |}
    end.

(* ---------------------------------------------------------------- *)
(** ** middleware/error.middleware.ts *)

Record Response := {
  res_status : Z;
  res_success : bool;
  res_data : option Incident;
  res_error : option string;
  res_message : option string
}.

Definition failure (code : Z) (error : string) (message : option string)
  : Response :=
  {| res_status := code; res_success := false; res_data := None;
     res_error := Some error; res_message := message |}.

Definition error_message (err : Error) : string :=
  match err with
  | ZodError _ => "Validation failed"
  | AppError m _ => m
  | PrismaClientKnownRequestError _ _ m => m
  | JsonWebTokenError => "jwt malformed"
  | TokenExpiredError => "jwt expired"
  | PlainError m => m
  end.

Definition default_response (err : Error) : Response :=
  let message :=
    match NODE_ENV env with
    | production => "An unexpected error occurred"
    | _ => if Js.truthy (error_message err) then error_message err
           else "Internal server error"
    end in
  failure 500 message (Some message).

Definition errorHandler (err : Error) : Response :=
  match err with
  | ZodError _ => failure 400 "Validation failed" (Some "Validation failed")
  | AppError m code => failure code m (Some m)
  | PrismaClientKnownRequestError code target _ =>
      if String.eqb code "P2002" then
        let joined :=
          match target with Some l => Js.join ", " l | None => "" end in
        let target := if Js.truthy joined then joined else "field" in
        failure 409 ("A record with this " ++ target ++ " already exists") None
      else if String.eqb code "P2025" then
        failure 404 "Record not found" None
      else default_response err
  | JsonWebTokenError => failure 401 "Invalid token" (Some "Invalid token")
  | TokenExpiredError =>
      failure 401 "Token has expired" (Some "Token has expired")
  | PlainError _ => default_response err
  end.

(* ---------------------------------------------------------------- *)
(** ** controllers/incident.controller.ts *)

Definition ok (code : Z) (data : option Incident) (message : string)
  : Response :=
  {| res_status := code; res_success := true; res_data := data;
     res_error := None; res_message := Some message |}.

(** [POST /api/incidents/:id/upvote]; [user] is [req.user?.id]. The
    [catch] hands the error to [errorHandler]. *)
Definition controller_upvoteIncident (incidentId : string)
    (user : option string) : Async Response :=
  try_catch
    (if negb (Js.truthy incidentId)
     then Throw (AppError "Incident ID is required" 400)
     else
       let userId :=
         match user with
         | Some u => if Js.truthy u then u else "anonymous"
         | None => "anonymous"
         end in
       let* r := upvoteIncident incidentId userId in
       if alreadyVoted r
       then Pure (ok 200 (up_incident r)
                    "You have already upvoted this incident")
       else
         match up_incident r with
         | None => Throw (PlainError "Cannot read properties of null")
         | Some incident =>
             Pure (ok 200 (Some incident)
                     (if IncidentStatus_eqb (status incident) VERIFIED
                      then "Upvote recorded. Incident is now verified!"
                      else "Upvote recorded successfully"))
         end)
    (fun error => Pure (errorHandler error)).

(** [POST /api/incidents]: validation, then the service. *)
Definition controller_createIncident (body : CreateIncidentBody)
    (file : option Buffer) : Async Response :=
  try_catch
    (let* validatedData := settle (createIncidentSchema_parse body) in
     let* incident := createIncident validatedData file in
     Pure (ok 201 (Some incident)
             (if IncidentStatus_eqb (status incident) FLAGGED
              then "Incident reported and flagged as potential duplicate"
              else "Incident reported successfully")))
    (fun error => Pure (errorHandler error)).

End IncidentService.

(* ------------------------------------------------------------------ *)
(** ** services/incident.service.ts: statistics *)

Record IncidentStats := {
  stats_total : Z;
  stats_pending : Z;
  stats_active : Z;
  stats_resolved : Z
}.

(** [{ where: { status } }]. *)
Definition where_status_is (s : IncidentStatus) : Prisma.IncidentWhere := {|
  Prisma.where_status := Some s;
  Prisma.where_status_notIn := [];
  Prisma.where_incidentType := None;
  Prisma.where_severity := None;
  Prisma.where_createdAt_gte := None;
  Prisma.where_latitude := None;
  Prisma.where_longitude := None
|}.

Definition getStats : Async IncidentStats :=
  let* total := await (Prisma.incident_count Prisma.where_all) in
  let* pending := await (Prisma.incident_count (where_status_is REPORTED)) in
  let* active := await (Prisma.incident_count (where_status_is IN_PROGRESS)) in
  let* resolved := await (Prisma.incident_count (where_status_is RESOLVED)) in
  Pure {| stats_total := total; stats_pending := pending;
          stats_active := active; stats_resolved := resolved |}.

(* ------------------------------------------------------------------ *)
(** ** validations/incident.schema.ts: the status update *)

Definition incidentStatuses : list string :=
  ["REPORTED"; "VERIFIED"; "IN_PROGRESS"; "RESOLVED"; "FLAGGED"].

Definition severityLevels : list string := ["LOW"; "MEDIUM"; "HIGH"].

(** The member of an enumeration that a string names, if any. *)
Definition status_of_name (s : string) : option IncidentStatus :=
  if String.eqb s "REPORTED" then Some REPORTED
  else if String.eqb s "VERIFIED" then Some VERIFIED
  else if String.eqb s "IN_PROGRESS" then Some IN_PROGRESS
  else if String.eqb s "RESOLVED" then Some RESOLVED
  else if String.eqb s "FLAGGED" then Some FLAGGED
  else None.

Definition severity_of_name (s : string) : option Severity :=
  if String.eqb s "LOW" then Some LOW
  else if String.eqb s "MEDIUM" then Some MEDIUM
  else if String.eqb s "HIGH" then Some HIGH
  else None.

Definition severity_name (s : Severity) : string :=
  match s with LOW => "LOW" | MEDIUM => "MEDIUM" | HIGH => "HIGH" end.

(** The body of a status update before validation; both fields are taken
    as strings, if present. *)
Record UpdateStatusBody := {
  usb_status : option string;
  usb_note : option string
}.

(** [updateStatusSchema.parse]. *)
Definition updateStatusSchema_parse (b : UpdateStatusBody)
  : Outcome (IncidentStatus * option string) :=
  let status :=
    match usb_status b with Some s => status_of_name s | None => None end in
  let issues :=
    (match status with
     | Some _ => []
     | None => [("status",
                 ("Status must be one of: " ++ Js.join ", " incidentStatuses)%string)]
     end
     ++ match usb_note b with
        | Some n => issue "note" "Note is too long"
                      (Nat.leb (String.length n) 1000)
        | None => []
        end)%list in
  match status, issues with
  | Some st, [] => Resolved (st, usb_note b)
  | _, _ => Rejected (ZodError issues)
  end.

(* ------------------------------------------------------------------ *)
(** ** controllers/incident.controller.ts: the other handlers *)

Section IncidentController.

Variable env : Env.

Definition ok_data (i : Incident) : Response :=
  {| res_status := 200; res_success := true; res_data := Some i;
     res_error := None; res_message := None |}.

(** [GET /api/incidents/:id]. *)
Definition controller_getIncidentById (incidentId : string) : Async Response :=
  try_catch
    (if negb (Js.truthy incidentId)
     then Throw (AppError "Incident ID is required" 400)
     else
       let* incident := getIncidentById incidentId in
       match incident with
       | None => Throw (AppError "Incident not found" 404)
       | Some i => Pure (ok_data i)
       end)
    (fun error => Pure (errorHandler env error)).

(** [PATCH /api/incidents/:id/status]; [user] is the id of [req.user]. *)
Definition controller_updateStatus (incidentId : string)
    (user : option string) (body : UpdateStatusBody) : Async Response :=
  try_catch
    (if negb (Js.truthy incidentId)
     then Throw (AppError "Incident ID is required" 400)
     else
       match user with
       | None => Throw (AppError "Authentication required" 401)
       | Some userId =>
           let* validatedData := settle (updateStatusSchema_parse body) in
           let* incident :=
             updateIncidentStatus incidentId (fst validatedData) userId
               (snd validatedData) in
           Pure (ok 200 (Some incident)
                   ("Incident status updated to "
                    ++ status_name (fst validatedData)))
       end)
    (fun error => Pure (errorHandler env error)).

(** [POST /api/incidents/:id/notes]. *)
Definition controller_addNote (incidentId : string) (user : option string)
    (note : option string) : Async Response :=
  try_catch
    (if negb (Js.truthy incidentId) || negb (Js.truthy_opt note)
     then Throw (AppError "Incident ID and note are required" 400)
     else
       match user, note with
       | Some userId, Some text =>
           let* incident := addAdminNote incidentId userId text in
           Pure (ok 200 (Some incident) "Note added successfully")
       | _, _ => Throw (AppError "Authentication required" 401)
       end)
    (fun error => Pure (errorHandler env error)).

(** [PATCH /api/incidents/:id/severity]. *)
Definition controller_updateSeverity (incidentId : string)
    (severity : option string) : Async Response :=
  try_catch
    (if negb (Js.truthy incidentId) || negb (Js.truthy_opt severity)
     then Throw (AppError "Incident ID and severity are required" 400)
     else
       match match severity with
             | Some s => severity_of_name s
             | None => None
             end with
       | None => Throw (AppError "Invalid severity level" 400)
       | Some level =>
           let* incident := updateSeverity incidentId level in
           Pure (ok 200 (Some incident)
                   ("Severity updated to " ++ severity_name level))
       end)
    (fun error => Pure (errorHandler env error)).

(** [DELETE /api/incidents/:id]. *)
Definition controller_deleteIncident (incidentId : string)
    (user : option string) : Async Response :=
  try_catch
    (if negb (Js.truthy incidentId)
     then Throw (AppError "Incident ID is required" 400)
     else
       match user with
       | None => Throw (AppError "Authentication required" 401)
       | Some _ =>
           deleteIncident incidentId ;;
           Pure (ok 200 None "Incident deleted successfully")
       end)
    (fun error => Pure (errorHandler env error)).

End IncidentController.

(* ------------------------------------------------------------------ *)
(** ** validations/incident.schema.ts: the paging fields of a query

    [parseInt(val, 10)] is a built-in; it is taken as a parameter, [None]
    standing for NaN. *)

Section PagingFields.

Variable parseInt : string -> option Z.

(** [z.string().optional().transform(val => val ? parseInt(val, 10) : d)]. *)
Definition parsed_or (d : Z) (val : option string) : option Z :=
  match val with
  | Some s => if Js.truthy s then parseInt s else Some d
  | None => Some d
  end.

(** The [page] field: [....pipe(z.number().min(1))]. *)
Definition page_field_parse (val : option string) : Outcome Z :=
  match parsed_or 1 val with
  | None => Rejected (ZodError [("page", "Expected number, received nan")])
  | Some n =>
      match issue "page" "Number must be greater than or equal to 1" (1 <=? n) with
      | [] => Resolved n
      | issues => Rejected (ZodError issues)
      end
  end.

(** The [limit] field: [....pipe(z.number().min(1).max(100))]. *)
Definition limit_field_parse (val : option string) : Outcome Z :=
  match parsed_or 20 val with
  | None => Rejected (ZodError [("limit", "Expected number, received nan")])
  | Some n =>
      match (issue "limit" "Number must be greater than or equal to 1" (1 <=? n)
             ++ issue "limit" "Number must be less than or equal to 100"
                  (n <=? 100))%list with
      | [] => Resolved n
      | issues => Rejected (ZodError issues)
      end
  end.

End PagingFields.

(* ------------------------------------------------------------------ *)
(** ** routes/incident.routes.ts

    The router tries its routes in the order in which they were added and
    hands the request to the first whose method and path match; none of
    the handlers below passes a request on to a later route. A path is
    given by its segments. A literal segment matches without regard to
    case, a parameter matches any non-empty segment. *)

Inductive Method := GET | POST | PATCH | DELETE.

Inductive Segment := Lit (s : string) | Param (name : string).

Inductive Endpoint :=
| Endpoint_createIncident
| Endpoint_getIncidents
| Endpoint_getIncidentById
| Endpoint_updateStatus
| Endpoint_upvoteIncident
| Endpoint_getStats
| Endpoint_broadcast.

Record Route := {
  route_method : Method;
  route_path : list Segment;
  route_endpoint : Endpoint
}.

Definition router : list Route := [
  {| route_method := POST; route_path := [];
     route_endpoint := Endpoint_createIncident |};
  {| route_method := GET; route_path := [];
     route_endpoint := Endpoint_getIncidents |};
  {| route_method := GET; route_path := [Param "id"];
     route_endpoint := Endpoint_getIncidentById |};
  {| route_method := PATCH; route_path := [Param "id"; Lit "status"];
     route_endpoint := Endpoint_updateStatus |};
  {| route_method := POST; route_path := [Param "id"; Lit "upvote"];
     route_endpoint := Endpoint_upvoteIncident |};
  {| route_method := GET; route_path := [Lit "stats"];
     route_endpoint := Endpoint_getStats |};
  {| route_method := POST; route_path := [Lit "broadcast"];
     route_endpoint := Endpoint_broadcast |}
]%list.

Definition Method_eqb (a b : Method) : bool :=
  match a, b with
  | GET, GET | POST, POST | PATCH, PATCH | DELETE, DELETE => true
  | _, _ => false
  end.

(** The parameters that a path pattern extracts from a path, if it matches. *)
Fixpoint match_path (pattern : list Segment) (path : list string)
  : option (list (string * string)) :=
  match pattern, path with
  | nil, nil => Some nil
  | Lit s :: pattern', seg :: path' =>
      if String.eqb (Js.toUpperCase s) (Js.toUpperCase seg)
      then match_path pattern' path'
      else None
  | Param name :: pattern', seg :: path' =>
      if Js.truthy seg
      then match match_path pattern' path' with
           | Some params => Some (cons (name, seg) params)
           | None => None
           end
      else None
  | _, _ => None
  end.

Fixpoint dispatch_in (routes : list Route) (m : Method) (path : list string)
  : option (Endpoint * list (string * string)) :=
  match routes with
  | nil => None
  | r :: rest =>
      if Method_eqb (route_method r) m
      then match match_path (route_path r) path with
           | Some params => Some (route_endpoint r, params)
           | None => dispatch_in rest m path
           end
      else dispatch_in rest m path
  end.

Definition dispatch (m : Method) (path : list string)
  : option (Endpoint * list (string * string)) :=
  dispatch_in router m path.

(* ------------------------------------------------------------------ *)
(** ** Notions used to state the properties, and sample data *)

Local Open Scope list_scope.

Definition sample_incident : Incident := {|
  id := "i1";
  incidentType := "FIRE";
  description := "Fire at dock";
  latitude := 40;
  longitude := -75;
  severity := MEDIUM;
  status := REPORTED;
  upvoteCount := 4;
  mediaUrl := None;
  createdAt := 1000;
  updatedAt := 1000
|}.

Definition sample_uuids (n : nat) : string :=
  "uuid-" ++ NilEmpty.string_of_uint (Nat.to_uint n).

Definition sample_world : World := {|
  incidents := [sample_incident];
  votes := [];
  adminNotes := [];
  users := ["u1"; "admin1"];
  now := 2000;
  uuids := sample_uuids;
  uuidCount := 0;
  cloudinary := fun _ => CbResult "https://media.example/1" "anginat/incidents/1";
  socketServiceInstance := true;
  trace := []
|}.


(** The row after one more upvote. *)
Definition upvoted (i : Incident) : Incident :=
  Prisma.apply_update increment_upvotes i.

(** The world after the counter of [i] has been incremented. *)
Definition after_increment (i : Incident) (w : World) : World :=
  log (IncidentUpdated (upvoted i))
    (set_incidents (Prisma.replace (upvoted i) (incidents w)) w).

Definition upvote_message (i : Incident) : string :=
  if IncidentStatus_eqb (status i) VERIFIED
  then "Upvote recorded. Incident is now verified!"
  else "Upvote recorded successfully".

(** The vote that [userId] casts at the time of [w], and the world with it. *)
Definition new_vote (userId incidentId : string) (w : World) : Vote :=
  {| vote_userId := userId; vote_incidentId := incidentId;
     vote_createdAt := now w |}.

Definition after_vote (userId incidentId : string) (w : World) : World :=
  log (VoteInserted (new_vote userId incidentId w))
    (set_votes (votes w ++ [new_vote userId incidentId w]) w).

(** The row once verified, and the world after that update. *)
Definition verified (i : Incident) : Incident :=
  Prisma.apply_update set_verified i.

Definition after_verified (i : Incident) (w : World) : World :=
  log (IncidentUpdated (verified i))
    (set_incidents (Prisma.replace (verified i) (incidents w)) w).

(** The two emissions of [emitIncidentUpdate]. *)
Definition update_emissions (i : Incident) (t : Z) : list Emission :=
  [ {| em_room := None; em_event := "incident:update";
       em_data := i; em_timestamp := t |};
    {| em_room := Some ("incident:" ++ id i)%string;
       em_event := "incident:updated";
       em_data := i; em_timestamp := t |} ].

Definition after_emissions (l : list Emission) (w : World) : World :=
  fold_left (fun w e => log (Emitted e) w) l w.

(** The row after [updateIncidentStatus] has written it at time [t]. *)
Definition with_status (st : IncidentStatus) (t : Z) (i : Incident) : Incident :=
  Prisma.apply_update
    {| Prisma.upd_status := Some st; Prisma.upd_severity := None;
       Prisma.upd_updatedAt := Some t;
       Prisma.upd_upvoteCount_increment := None |} i.

Definition after_status (st : IncidentStatus) (i : Incident) (w : World)
  : World :=
  log (IncidentUpdated (with_status st (now w) i))
    (set_incidents (Prisma.replace (with_status st (now w) i) (incidents w)) w).

Definition status_note (st : IncidentStatus) (text : string) : string :=
  ("Status changed to " ++ status_name st ++ ": " ++ text)%string.

(** The media store accepts the media of a request, if there is any. *)
Definition upload_answer (w : World) (media : option Buffer)
    (url : option string) : Prop :=
  match media with
  | None => url = None
  | Some buffer => exists u p, cloudinary w buffer = CbResult u p /\ url = Some u
  end.

Definition new_incident_emission (i : Incident) (t : Z) : Emission :=
  {| em_room := None; em_event := "incident:new";
     em_data := i; em_timestamp := t |}.

(** The query with its latitude (longitude) bounds removed. *)
Definition without_lat (q : IncidentQueryInput) : IncidentQueryInput := {|
  page := page q; limit := limit q; q_status := q_status q;
  q_incidentType := q_incidentType q; q_severity := q_severity q;
  sortBy := sortBy q; sortOrder := sortOrder q;
  minLat := None; maxLat := None; minLng := minLng q; maxLng := maxLng q
|}.

Definition without_lng (q : IncidentQueryInput) : IncidentQueryInput := {|
  page := page q; limit := limit q; q_status := q_status q;
  q_incidentType := q_incidentType q; q_severity := q_severity q;
  sortBy := sortBy q; sortOrder := sortOrder q;
  minLat := minLat q; maxLat := maxLat q; minLng := None; maxLng := None
|}.

Definition sample_query : IncidentQueryInput := {|
  page := 1; limit := 20; q_status := None; q_incidentType := None;
  q_severity := None; sortBy := Prisma.createdAt_; sortOrder := Prisma.desc;
  minLat := Some 50%R; maxLat := None; minLng := None; maxLng := None
|}.

(** The great-circle distance from the new point to [i]. *)
Definition distance_to (lat lon : R) (i : Incident) : R :=
  calculateDistance lat lon (latitude i) (longitude i).

(** The great-circle distance as the specification words it: the
    haversine formula, d = 2 r asin (sqrt h) with r = 6371000 metres and
    h = sin^2 (dphi / 2) + cos phi1 cos phi2 sin^2 (dlambda / 2), for
    points given in degrees. *)
Definition haversine_meters (lat1 lon1 lat2 lon2 : R) : R :=
  (let phi1 := lat1 * PI / 180 in
   let phi2 := lat2 * PI / 180 in
   let dphi := (lat2 - lat1) * PI / 180 in
   let dlambda := (lon2 - lon1) * PI / 180 in
   2 * 6371000 *
   asin (sqrt ((sin (dphi / 2))² +
               cos phi1 * cos phi2 * (sin (dlambda / 2))²)))%R.

Definition creation_message (i : Incident) : string :=
  if IncidentStatus_eqb (status i) FLAGGED
  then "Incident reported and flagged as potential duplicate"
  else "Incident reported successfully".

(** The bodies of the two reports of the scenario. *)
Definition scenario_A (text : string) : CreateIncidentBody := {|
  body_incidentType := "FIRE";
  body_description := text;
  body_latitude := 40;
  body_longitude := -75;
  body_severity := None
|}.

Definition scenario_B (text : string) : CreateIncidentBody := {|
  body_incidentType := "FIRE";
  body_description := text;
  body_latitude := 40.0005;
  body_longitude := -75.0005;
  body_severity := None
|}.

(** The world [dt] milliseconds later. *)
Definition later (dt : Z) (w : World) : World := set_now (now w + dt) w.

(** [sample_world] with an empty incident table. *)
Definition empty_world : World := set_incidents [] sample_world.

(** [sample_world] with a media store that reports an error. *)
Definition media_down_world : World := {|
  incidents := incidents sample_world;
  votes := votes sample_world;
  adminNotes := adminNotes sample_world;
  users := users sample_world;
  now := now sample_world;
  uuids := uuids sample_world;
  uuidCount := uuidCount sample_world;
  cloudinary := fun _ => CbError "timeout";
  socketServiceInstance := socketServiceInstance sample_world;
  trace := trace sample_world
|}.

Definition sample_input : CreateIncidentInput := {|
  in_incidentType := "fire";
  in_description := "Smoke over the dock";
  in_latitude := 40;
  in_longitude := -75;
  in_severity := HIGH
|}.

Section Notions.

Variable env : Env.

(** The threshold test of the service, on the row the transaction returns. *)
Definition reaches_threshold (i : Incident) : bool :=
  IncidentStatus_eqb (status i) REPORTED
  && (VERIFICATION_THRESHOLD env <=? upvoteCount i).

(** The rows that the candidate query of the detector returns in [w]. *)
Definition candidates (w : World) (incidentType : string) (lat lon : R)
  : list Incident :=
  firstn 20
    (Prisma.orderBy Prisma.createdAt_ Prisma.desc
       (filter (Prisma.matches (candidates_where env incidentType lat lon (now w)))
          (incidents w))).

(** The verdict of the detector in [w]. *)
Definition duplicate_verdict (w : World) (incidentType : string) (lat lon : R)
  : DuplicateCheckResult :=
  first_within env lat lon (candidates w incidentType lat lon).

(** The row that a creation inserts in [w]. *)
Definition created_row (data : CreateIncidentInput) (url : option string)
    (w : World) : Incident :=
  let dup :=
    isDuplicate (duplicate_verdict w (in_incidentType data)
                   (in_latitude data) (in_longitude data)) in
  {| id := uuids w (uuidCount w);
     incidentType := Js.toUpperCase (in_incidentType data);
     description :=
       if dup then ("[POTENTIAL DUPLICATE] " ++ in_description data)%string
       else in_description data;
     latitude := in_latitude data;
     longitude := in_longitude data;
     severity := in_severity data;
     status := if dup then FLAGGED else REPORTED;
     upvoteCount := 0;
     mediaUrl := url;
     createdAt := now w;
     updatedAt := now w |}.

(** The longitude side of the bounding box as the specification words it:
    within latitude delta / cos(latitude in radians) of the point; where
    the cosine vanishes the delta is infinite, and a positive distance
    admits every longitude. *)
Definition in_longitude_box (lat lon x : R) : Prop :=
  (cos (lat * PI / 180) <> 0 /\
   lon - DUPLICATE_DISTANCE_METERS env / 111000 / cos (lat * PI / 180)
   <= x
   <= lon + DUPLICATE_DISTANCE_METERS env / 111000 / cos (lat * PI / 180))%R
  \/
  (cos (lat * PI / 180) = 0 /\ 0 < DUPLICATE_DISTANCE_METERS env)%R.

(** A candidate as the specification words it: a stored incident of the
    same type up to case, created within the time window, inside the
    bounding box, neither RESOLVED nor FLAGGED. *)
Definition is_candidate (w : World) (ty : string) (lat lon : R)
    (i : Incident) : Prop :=
  In i (incidents w) /\
  Js.toUpperCase (incidentType i) = Js.toUpperCase ty /\
  now w - DUPLICATE_TIME_MINUTES env * 60 * 1000 <= createdAt i /\
  (lat - DUPLICATE_DISTANCE_METERS env / 111000 <= latitude i
   <= lat + DUPLICATE_DISTANCE_METERS env / 111000)%R /\
  in_longitude_box lat lon (longitude i) /\
  status i <> RESOLVED /\ status i <> FLAGGED.

End Notions.

(* ------------------------------------------------------------------ *)
(** ** Further notions *)

(** The query for another page of the same listing. *)
Definition with_page (k : Z) (q : IncidentQueryInput) : IncidentQueryInput := {|
  page := k; limit := limit q; q_status := q_status q;
  q_incidentType := q_incidentType q; q_severity := q_severity q;
  sortBy := sortBy q; sortOrder := sortOrder q;
  minLat := minLat q; maxLat := maxLat q; minLng := minLng q; maxLng := maxLng q
|}.

(** The stored incidents that a listing selects, before ordering and
    paging. *)
Definition selected (q : IncidentQueryInput) (w : World) : list Incident :=
  filter (Prisma.matches (query_where q)) (incidents w).

(** The rows of the page that a listing returns in [w]. *)
Definition page_rows (q : IncidentQueryInput) (w : World) : list Incident :=
  match fst (run (getIncidents q) w) with
  | Resolved r => pg_incidents r
  | Rejected _ => []
  end.

(** A table of [n] incidents, the k-th created at time k. *)
Definition numbered_incident (k : nat) : Incident := {|
  id := sample_uuids k;
  incidentType := "FLOOD";
  description := "Water on the road";
  latitude := 10;
  longitude := 20;
  severity := LOW;
  status := REPORTED;
  upvoteCount := 0;
  mediaUrl := None;
  createdAt := Z.of_nat k;
  updatedAt := Z.of_nat k
|}.

Definition numbered_world (n : nat) : World :=
  set_incidents (map numbered_incident (seq 0 n)) sample_world.

Definition plain_query (p l : Z) : IncidentQueryInput := {|
  page := p; limit := l; q_status := None; q_incidentType := None;
  q_severity := None; sortBy := Prisma.createdAt_; sortOrder := Prisma.desc;
  minLat := None; maxLat := None; minLng := None; maxLng := None
|}.

(** The number of stored incidents in a status. *)
Definition count_status (s : IncidentStatus) (l : list Incident) : Z :=
  Z.of_nat (List.length (filter (fun i => IncidentStatus_eqb (status i) s) l)).

(** The world after the incident [incidentId] has been deleted. *)
Definition after_delete (incidentId : string) (w : World) : World :=
  log (IncidentDeleted incidentId)
    (set_adminNotes
       (filter (fun n => negb (String.eqb (note_incidentId n) incidentId))
          (adminNotes w))
       (set_votes
          (filter (fun v => negb (String.eqb (vote_incidentId v) incidentId))
             (votes w))
          (set_incidents
             (filter (fun i => negb (String.eqb (id i) incidentId))
                (incidents w)) w))).

(** The row after [updateSeverity] has written it at time [t]. *)
Definition with_severity (s : Severity) (t : Z) (i : Incident) : Incident :=
  Prisma.apply_update
    {| Prisma.upd_status := None; Prisma.upd_severity := Some s;
       Prisma.upd_updatedAt := Some t;
       Prisma.upd_upvoteCount_increment := None |} i.

(** The note that an administrator leaves at the time of [w]. *)
Definition new_note (incidentId userId text : string) (w : World) : AdminNote :=
  {| note_incidentId := incidentId; note_userId := userId;
     note_text := text; note_createdAt := now w |}.

(** The note that a status update records: none without a note, none for
    the empty note. *)
Definition recorded_note (incidentId : string) (st : IncidentStatus)
    (adminId : string) (note : option string) (w : World) : list AdminNote :=
  match note with
  | Some text =>
      if Js.truthy text
      then [new_note incidentId adminId (status_note st text) w]
      else []
  | None => []
  end.

(** The emissions of an update of [i] in [w], if the socket service is
    there. *)
Definition emitted_update (i : Incident) (w : World) : list Emission :=
  if socketServiceInstance w then update_emissions i (now w) else [].

(** Two rows that differ at most in status, severity, counter and time of
    the last update. *)
Definition same_report (a b : Incident) : Prop :=
  id a = id b /\ incidentType a = incidentType b /\
  description a = description b /\ latitude a = latitude b /\
  longitude a = longitude b /\ mediaUrl a = mediaUrl b /\
  createdAt a = createdAt b.

(** The world after the notes [l] have been inserted, one after the other. *)
Definition after_notes (l : list AdminNote) (w : World) : World :=
  fold_left
    (fun w n => log (NoteInserted n) (set_adminNotes (adminNotes w ++ [n]) w))
    l w.

(** [n] runs of the same request, one after the other. *)
Fixpoint run_times {A : Type} (n : nat) (p : Async A) (w : World) : World :=
  match n with
  | O => w
  | S m => run_times m p (snd (run p w))
  end.

(** *** Invariants of the store *)

Definition vote_key (v : Vote) : string * string :=
  (vote_userId v, vote_incidentId v).

(** The number of votes on record for an incident. *)
Definition votes_for (incidentId : string) (l : list Vote) : Z :=
  Z.of_nat
    (List.length (filter (fun v => String.eqb (vote_incidentId v) incidentId) l)).

(** A store in order: identifiers of incidents are unique; no user has two
    votes for one incident; votes and notes refer to stored incidents; and
    the counter of a stored incident is at least the number of its votes. *)
Definition consistent (w : World) : Prop :=
  NoDup (map id (incidents w)) /\
  NoDup (map vote_key (votes w)) /\
  (forall v, In v (votes w) ->
     Prisma.lookup (vote_incidentId v) (incidents w) <> None) /\
  (forall n, In n (adminNotes w) ->
     Prisma.lookup (note_incidentId n) (incidents w) <> None) /\
  (forall j i, Prisma.lookup j (incidents w) = Some i ->
     votes_for j (votes w) <= upvoteCount i).

(** From [w] to [w'] no incident is lost, what was reported stays as it
    was, and no counter is lower. *)
Definition grows (w w' : World) : Prop :=
  forall j i, Prisma.lookup j (incidents w) = Some i ->
    exists i', Prisma.lookup j (incidents w') = Some i' /\
               same_report i' i /\ upvoteCount i <= upvoteCount i'.

(** Every atomic step of a request keeps [P]. *)
Fixpoint keeps (P : World -> Prop) {A : Type} (p : Async A) : Prop :=
  match p with
  | Pure _ => True
  | Throw _ => True
  | Step op k => (forall w, P w -> P (snd (op w))) /\ forall x, keeps P (k x)
  | Await op k => (forall w, P w -> P (snd (op w))) /\ forall x, keeps P (k x)
  end.



(** The operations of the incident service, as requests. *)
Inductive ServiceCall :=
| CallCreate (data : CreateIncidentInput) (mediaBuffer : option Buffer)
| CallList (query : IncidentQueryInput)
| CallGet (incidentId : string)
| CallUpdateStatus (incidentId : string) (status : IncidentStatus)
    (adminId : string) (note : option string)
| CallAddNote (incidentId adminId note : string)
| CallUpdateSeverity (incidentId : string) (severity : Severity)
| CallDelete (incidentId : string)
| CallUpvote (incidentId userId : string)
| CallStats.

Definition perform (env : Env) (c : ServiceCall) : Async unit :=
  match c with
  | CallCreate data mediaBuffer => createIncident env data mediaBuffer ;; Pure tt
  | CallList query => getIncidents query ;; Pure tt
  | CallGet incidentId => getIncidentById incidentId ;; Pure tt
  | CallUpdateStatus incidentId status adminId note =>
      updateIncidentStatus incidentId status adminId note ;; Pure tt
  | CallAddNote incidentId adminId note =>
      addAdminNote incidentId adminId note ;; Pure tt
  | CallUpdateSeverity incidentId severity =>
      updateSeverity incidentId severity ;; Pure tt
  | CallDelete incidentId => deleteIncident incidentId
  | CallUpvote incidentId userId => upvoteIncident env incidentId userId ;; Pure tt
  | CallStats => getStats ;; Pure tt
  end.

Definition is_delete (c : ServiceCall) : bool :=
  match c with CallDelete _ => true | _ => false end.

(** The world after a history of requests, each run alone. *)
Definition after_history (env : Env) (calls : list ServiceCall) (w : World)
  : World :=
  fold_left (fun w c => snd (run (perform env c) w)) calls w.

(** The world once the generator has handed out its next identifier. *)
Definition after_uuid (w : World) : World :=
  set_uuidCount (S (uuidCount w)) w.

(** The verdict of the detector for a query issued at time [t] and answered
    from the table [l]. *)
Definition verdict_on (env : Env) (t : Z) (l : list Incident)
    (ty : string) (lat lon : R) : DuplicateCheckResult :=
  first_within env lat lon
    (firstn 20
       (Prisma.orderBy Prisma.createdAt_ Prisma.desc
          (filter (Prisma.matches (candidates_where env ty lat lon t)) l))).

(** An administrator's status update, as it happens to the world while
    another request waits. *)
Definition rival_status (incidentId : string) (st : IncidentStatus)
    (adminId : string) (w : World) : World :=
  snd (run (updateIncidentStatus incidentId st adminId None) w).

(** Another creation, as it happens to the world while a request waits. *)
Definition rival_creation (env : Env) (data : CreateIncidentInput) (w : World)
  : World :=
  snd (run (createIncident env data None) w).

(** [sample_world] once its incident is being handled. *)
Definition handled_incident : Incident :=
  with_status IN_PROGRESS 1500 sample_incident.

Definition handled_world : World :=
  set_incidents [handled_incident] sample_world.

(** A report at the north pole, and a world that stores it. *)
Definition polar_incident : Incident := {|
  id := "p1";
  incidentType := "FIRE";
  description := "Fire at the station";
  latitude := 90;
  longitude := -75;
  severity := MEDIUM;
  status := REPORTED;
  upvoteCount := 0;
  mediaUrl := None;
  createdAt := 1900;
  updatedAt := 1900
|}.

Definition polar_world : World := set_incidents [polar_incident] sample_world.

(** A reading of the numerals used in the sample queries. *)
Definition sample_parseInt (s : string) : option Z :=
  if String.eqb s "2" then Some 2
  else if String.eqb s "50" then Some 50
  else None.

(* ------------------------------------------------------------------ *)
(** * Properties *)

(** ** Comparisons *)

Lemma Rleb_true (x y : R) : Js.Rleb x y = true <-> (x <= y)%R.
Proof. unfold Js.Rleb; destruct (Rle_dec x y); split; auto; discriminate. Qed.

Lemma Rleb_false (x y : R) : Js.Rleb x y = false <-> (y < x)%R.
Proof.
  unfold Js.Rleb; destruct (Rle_dec x y); split; intros; try discriminate;
    try lra; auto.
Qed.

Lemma IncidentStatus_eqb_eq a b : IncidentStatus_eqb a b = true <-> a = b.
Proof. destruct a, b; simpl; split; intros; congruence. Qed.

(** ** The persistence layer *)

Lemma lookup_id incidentId l i :
  Prisma.lookup incidentId l = Some i -> id i = incidentId.
Proof.
  unfold Prisma.lookup; intros H.
  apply find_some in H; destruct H as [_ H].
  now apply String.eqb_eq.
Qed.

Lemma lookup_In incidentId l i :
  Prisma.lookup incidentId l = Some i -> In i l.
Proof. unfold Prisma.lookup; intros H; now apply find_some in H. Qed.

Lemma apply_update_id d i : id (Prisma.apply_update d i) = id i.
Proof. reflexivity. Qed.

Lemma lookup_replace incidentId l old row :
  Prisma.lookup incidentId l = Some old ->
  id row = incidentId ->
  Prisma.lookup incidentId (Prisma.replace row l) = Some row.
Proof.
  intros H Hrow; induction l as [|y r IH]; simpl in *; [discriminate|].
  rewrite Hrow.
  destruct (String.eqb (id y) incidentId) eqn:E; simpl.
  - rewrite <- Hrow at 1. now rewrite String.eqb_refl.
  - rewrite E. now apply IH.
Qed.

Lemma lookup_app_new incidentId l row :
  Prisma.lookup incidentId l = None ->
  id row = incidentId ->
  Prisma.lookup incidentId (l ++ [row]) = Some row.
Proof.
  intros H Hrow; induction l as [|y r IH]; simpl in *.
  - now rewrite Hrow, String.eqb_refl.
  - destruct (String.eqb (id y) incidentId); [discriminate|now apply IH].
Qed.

Lemma emissions_app t1 t2 : emissions (t1 ++ t2) = emissions t1 ++ emissions t2.
Proof.
  induction t1 as [|e r IH]; simpl; [reflexivity|].
  destruct e; simpl; now rewrite ?IH.
Qed.

(** What an update of an existing row does, in one equation. *)
Lemma incident_update_found incidentId d w old :
  Prisma.lookup incidentId (incidents w) = Some old ->
  Prisma.incident_update incidentId d w =
    (Resolved (Prisma.apply_update d old),
     log (IncidentUpdated (Prisma.apply_update d old))
       (set_incidents
          (Prisma.replace (Prisma.apply_update d old) (incidents w)) w)).
Proof. intros H; unfold Prisma.incident_update; now rewrite H. Qed.

Lemma find_existsb {A : Type} (p : A -> bool) (l : list A) :
  existsb p l = match find p l with Some _ => true | None => false end.
Proof.
  induction l as [|a r IH]; simpl; [reflexivity|].
  destruct (p a); simpl; auto.
Qed.

Lemma find_app_new {A : Type} (p : A -> bool) (l : list A) (a : A) :
  find p l = None -> p a = true -> find p (l ++ [a]) = Some a.
Proof.
  intros H Ha; induction l as [|y r IH]; simpl in *.
  - now rewrite Ha.
  - destruct (p y); [discriminate|now apply IH].
Qed.

(* ------------------------------------------------------------------ *)
(** ** Upvotes *)

Section UpvoteProperties.

Variable env : Env.

Lemma anonymous_upvote_run incidentId w i :
  Prisma.lookup incidentId (incidents w) = Some i ->
  run (upvoteIncident env incidentId "anonymous") w =
    (Resolved {| up_incident := Some (upvoted i); alreadyVoted := false |},
     after_increment i w).
Proof.
  intros H; unfold upvoteIncident; simpl.
  now rewrite (incident_update_found _ _ _ _ H).
Qed.

Lemma after_increment_lookup incidentId w i :
  Prisma.lookup incidentId (incidents w) = Some i ->
  Prisma.lookup incidentId (incidents (after_increment i w)) = Some (upvoted i).
Proof.
  intros H; simpl. apply lookup_replace with (old := i); auto.
  unfold upvoted; rewrite apply_update_id. now apply lookup_id with (l := incidents w).
Qed.

Lemma controller_anonymous_run incidentId w i :
  Js.truthy incidentId = true ->
  Prisma.lookup incidentId (incidents w) = Some i ->
  run (controller_upvoteIncident env incidentId None) w =
    (Resolved (ok 200 (Some (upvoted i)) (upvote_message (upvoted i))),
     after_increment i w).
Proof.
  intros Hid H.
  unfold controller_upvoteIncident; rewrite Hid; simpl negb; cbv iota.
  cbn [try_catch bind upvoteIncident String.eqb Ascii.eqb Bool.eqb await
       settle run].
  rewrite (incident_update_found _ _ _ _ H).
  reflexivity.
Qed.

(** C8. An upvote that arrives without an authenticated user reaches the
    service as "anonymous"; on an existing incident it answers 200,
    creates no vote (the vote table is as before and the only write is
    the update of the incident) and adds one to the counter whatever
    happened before; a second anonymous call adds one more. *)
Theorem anonymous_upvotes_always_count incidentId w i :
  Js.truthy incidentId = true ->
  Prisma.lookup incidentId (incidents w) = Some i ->
  exists r1 w1 r2 w2,
  run (controller_upvoteIncident env incidentId None) w = (Resolved r1, w1) /\
  run (controller_upvoteIncident env incidentId None) w1 = (Resolved r2, w2) /\
  res_status r1 = 200 /\ res_success r1 = true /\
  res_data r1 = Some (upvoted i) /\
  votes w1 = votes w /\
  trace w1 = trace w ++ [IncidentUpdated (upvoted i)] /\
  Prisma.lookup incidentId (incidents w1) = Some (upvoted i) /\
  upvoteCount (upvoted i) = upvoteCount i + 1 /\
  res_status r2 = 200 /\ res_success r2 = true /\
  res_data r2 = Some (upvoted (upvoted i)) /\
  votes w2 = votes w /\
  trace w2 = trace w ++ [IncidentUpdated (upvoted i);
                         IncidentUpdated (upvoted (upvoted i))] /\
  Prisma.lookup incidentId (incidents w2) = Some (upvoted (upvoted i)) /\
  upvoteCount (upvoted (upvoted i)) = upvoteCount i + 2.
Proof.
  intros Hid H.
  pose proof (after_increment_lookup _ _ _ H) as H1.
  pose proof (after_increment_lookup _ _ _ H1) as H2.
  do 4 eexists.
  split; [exact (controller_anonymous_run _ _ _ Hid H)|].
  split; [exact (controller_anonymous_run _ _ _ Hid H1)|].
  cbn [ok res_status res_success res_data].
  repeat split; auto.
  - simpl. now rewrite <- app_assoc.
  - simpl. lia.
Qed.

Lemma vote_create_ok userId incidentId w i :
  find (Prisma.same_vote userId incidentId) (votes w) = None ->
  Prisma.known_user userId w = true ->
  Prisma.lookup incidentId (incidents w) = Some i ->
  Prisma.vote_create userId incidentId w =
    (Resolved (new_vote userId incidentId w), after_vote userId incidentId w).
Proof.
  intros Hv Hu Hi; unfold Prisma.vote_create.
  now rewrite find_existsb, Hv, Hu, Hi.
Qed.


Lemma transaction_ok userId incidentId w i :
  find (Prisma.same_vote userId incidentId) (votes w) = None ->
  Prisma.known_user userId w = true ->
  Prisma.lookup incidentId (incidents w) = Some i ->
  Prisma.transaction2 (Prisma.vote_create userId incidentId)
    (Prisma.incident_update incidentId increment_upvotes) w =
    (Resolved (new_vote userId incidentId w, upvoted i),
     after_increment i (after_vote userId incidentId w)).
Proof.
  intros Hv Hu Hi; unfold Prisma.transaction2.
  rewrite (vote_create_ok _ _ _ _ Hv Hu Hi).
  now rewrite (incident_update_found incidentId _ (after_vote userId incidentId w) i Hi).
Qed.

(** A first upvote of an authenticated user, run alone. *)
Lemma authenticated_upvote_run incidentId userId w i :
  String.eqb userId "anonymous" = false ->
  find (Prisma.same_vote userId incidentId) (votes w) = None ->
  Prisma.known_user userId w = true ->
  Prisma.lookup incidentId (incidents w) = Some i ->
  run (upvoteIncident env incidentId userId) w =
    let w2 := after_increment i (after_vote userId incidentId w) in
    if reaches_threshold env (upvoted i)
    then (Resolved {| up_incident := Some (verified (upvoted i));
                      alreadyVoted := false |},
          if socketServiceInstance w
          then after_emissions (update_emissions (verified (upvoted i)) (now w))
                 (after_verified (upvoted i) w2)
          else after_verified (upvoted i) w2)
    else (Resolved {| up_incident := Some (upvoted i); alreadyVoted := false |},
          w2).
Proof.
  intros Ha Hv Hu Hi.
  unfold upvoteIncident; rewrite Ha.
  cbn [bind await run Prisma.vote_findUnique settle]; rewrite Hv.
  cbn [bind await run settle].
  rewrite (transaction_ok _ _ _ _ Hv Hu Hi).
  cbn [settle bind snd]; fold (reaches_threshold env (upvoted i)).
  destruct (reaches_threshold env (upvoted i)); [|reflexivity].
  assert (H2 : Prisma.lookup incidentId
                 (incidents (after_increment i (after_vote userId incidentId w)))
               = Some (upvoted i)).
  { apply (after_increment_lookup incidentId (after_vote userId incidentId w) i Hi). }
  cbn [bind await run settle].
  rewrite (incident_update_found _ _ _ _ H2).
  cbn [settle bind run getSocketService call].
  cbn [socketServiceInstance log set_incidents after_increment after_vote set_votes].
  destruct (socketServiceInstance w); reflexivity.
Qed.

(** An upvote of a user whose vote is on record, run alone. *)
Lemma repeated_upvote_run incidentId userId w v :
  String.eqb userId "anonymous" = false ->
  find (Prisma.same_vote userId incidentId) (votes w) = Some v ->
  run (upvoteIncident env incidentId userId) w =
    (Resolved {| up_incident := Prisma.lookup incidentId (incidents w);
                 alreadyVoted := true |}, w).
Proof.
  intros Ha Hv; unfold upvoteIncident; rewrite Ha.
  cbn [bind await run Prisma.vote_findUnique settle]; rewrite Hv.
  reflexivity.
Qed.

Lemma emissions_after_emissions l w :
  emissions (trace (after_emissions l w)) = emissions (trace w) ++ l.
Proof.
  revert w; induction l as [|e r IH]; intros w; simpl.
  - now rewrite app_nil_r.
  - rewrite IH; simpl. rewrite emissions_app; simpl.
    now rewrite <- app_assoc.
Qed.

Lemma incidents_after_emissions l w :
  incidents (after_emissions l w) = incidents w.
Proof. revert w; induction l as [|e r IH]; intros w; simpl; [|rewrite IH]; auto. Qed.

Lemma votes_after_emissions l w :
  votes (after_emissions l w) = votes w.
Proof. revert w; induction l as [|e r IH]; intros w; simpl; [|rewrite IH]; auto. Qed.

Lemma verified_lookup incidentId w i :
  Prisma.lookup incidentId (incidents w) = Some i ->
  Prisma.lookup incidentId (incidents (after_verified i w)) = Some (verified i).
Proof.
  intros H; simpl; apply lookup_replace with (old := i); auto.
  unfold verified; rewrite apply_update_id.
  now apply lookup_id with (l := incidents w).
Qed.

(** C2. A first upvote by an authenticated, known user on an incident in
    status REPORTED, with the socket service initialised: when the count
    after the increment has reached the threshold the stored incident is
    VERIFIED and the update has been emitted; when it has not, the incident
    stays REPORTED and nothing is emitted. With threshold 5 a count of 4
    leads to VERIFIED and a count of 3 does not. *)
Theorem upvote_verifies_at_threshold incidentId userId w i :
  String.eqb userId "anonymous" = false ->
  find (Prisma.same_vote userId incidentId) (votes w) = None ->
  Prisma.known_user userId w = true ->
  Prisma.lookup incidentId (incidents w) = Some i ->
  status i = REPORTED ->
  socketServiceInstance w = true ->
  exists r w',
    run (upvoteIncident env incidentId userId) w = (Resolved r, w') /\
    alreadyVoted r = false /\
    (VERIFICATION_THRESHOLD env <= upvoteCount i + 1 ->
       up_incident r = Some (verified (upvoted i)) /\
       Prisma.lookup incidentId (incidents w') = Some (verified (upvoted i)) /\
       status (verified (upvoted i)) = VERIFIED /\
       emissions (trace w') =
         emissions (trace w) ++ update_emissions (verified (upvoted i)) (now w)) /\
    (upvoteCount i + 1 < VERIFICATION_THRESHOLD env ->
       up_incident r = Some (upvoted i) /\
       Prisma.lookup incidentId (incidents w') = Some (upvoted i) /\
       status (upvoted i) = REPORTED /\
       emissions (trace w') = emissions (trace w)) /\
    (VERIFICATION_THRESHOLD env = 5 -> upvoteCount i = 4 ->
       exists v, Prisma.lookup incidentId (incidents w') = Some v /\
                 status v = VERIFIED) /\
    (VERIFICATION_THRESHOLD env = 5 -> upvoteCount i = 3 ->
       exists v, Prisma.lookup incidentId (incidents w') = Some v /\
                 status v = REPORTED).
Proof.
  intros Ha Hv Hu Hi Hs Hsock.
  pose proof (after_increment_lookup incidentId
                (after_vote userId incidentId w) i Hi) as H2.
  pose proof (verified_lookup _ _ _ H2) as H3.
  rewrite (authenticated_upvote_run _ _ _ _ Ha Hv Hu Hi), Hsock.
  assert (Hr : reaches_threshold env (upvoted i)
               = (VERIFICATION_THRESHOLD env <=? upvoteCount i + 1)).
  { unfold reaches_threshold; simpl; now rewrite Hs. }
  rewrite Hr.
  destruct (Z.leb_spec (VERIFICATION_THRESHOLD env) (upvoteCount i + 1)) as [Hle|Hlt].
  - do 2 eexists; split; [reflexivity|]; split; [reflexivity|].
    assert (Hlk : Prisma.lookup incidentId
              (incidents (after_emissions
                 (update_emissions (verified (upvoted i)) (now w))
                 (after_verified (upvoted i)
                    (after_increment i (after_vote userId incidentId w)))))
            = Some (verified (upvoted i))).
    { now rewrite incidents_after_emissions. }
    split; [intros _|split; [intros; lia|split; intros Ht Hc]].
    + split; [reflexivity|]. split; [exact Hlk|]. split; [reflexivity|].
      rewrite emissions_after_emissions. f_equal.
      simpl. rewrite !emissions_app. simpl. now rewrite !app_nil_r.
    + exists (verified (upvoted i)); split; [exact Hlk|reflexivity].
    + lia.
  - do 2 eexists; split; [reflexivity|]; split; [reflexivity|].
    split; [intros; lia|split; [intros _|split; intros Ht Hc]].
    + split; [reflexivity|]. split; [exact H2|]. split; [simpl; exact Hs|].
      simpl. rewrite !emissions_app. simpl. now rewrite !app_nil_r.
    + lia.
    + exists (upvoted i); split; [exact H2|simpl; exact Hs].
Qed.

(** C3. When an authenticated user upvotes an incident and the call
    succeeds, the same call again writes nothing (the world is the same
    after it), reports alreadyVoted = true and returns the incident as it is
    stored. If the user had not voted before the first call, the counter
    after both calls is the counter before plus one. *)
Theorem upvote_twice_counts_once incidentId userId w r1 w1 :
  String.eqb userId "anonymous" = false ->
  run (upvoteIncident env incidentId userId) w = (Resolved r1, w1) ->
  run (upvoteIncident env incidentId userId) w1 =
    (Resolved {| up_incident := Prisma.lookup incidentId (incidents w1);
                 alreadyVoted := true |}, w1) /\
  (find (Prisma.same_vote userId incidentId) (votes w) = None ->
   exists i i1,
     Prisma.lookup incidentId (incidents w) = Some i /\
     Prisma.lookup incidentId (incidents w1) = Some i1 /\
     up_incident r1 = Some i1 /\ alreadyVoted r1 = false /\
     upvoteCount i1 = upvoteCount i + 1).
Proof.
  intros Ha Hrun.
  destruct (find (Prisma.same_vote userId incidentId) (votes w)) as [v|] eqn:Hv.
  - rewrite (repeated_upvote_run _ _ _ _ Ha Hv) in Hrun.
    inversion Hrun; subst w1; clear Hrun.
    split; [now apply repeated_upvote_run with (v := v)|discriminate].
  - destruct (Prisma.known_user userId w) eqn:Hu;
      [destruct (Prisma.lookup incidentId (incidents w)) as [i|] eqn:Hi|].
    + pose proof (after_increment_lookup incidentId
                    (after_vote userId incidentId w) i Hi) as H2.
      pose proof (verified_lookup _ _ _ H2) as H3.
      rewrite (authenticated_upvote_run _ _ _ _ Ha Hv Hu Hi) in Hrun.
      assert (Hnew : Prisma.same_vote userId incidentId
                       (new_vote userId incidentId w) = true).
      { unfold Prisma.same_vote; simpl; now rewrite !String.eqb_refl. }
      pose proof (find_app_new _ _ _ Hv Hnew) as Hf.
      cbv zeta in Hrun.
      destruct (reaches_threshold env (upvoted i)).
      * inversion Hrun; subst r1 w1; clear Hrun.
        split.
        { apply repeated_upvote_run with (v := new_vote userId incidentId w); auto.
          destruct (socketServiceInstance w); exact Hf. }
        intros _; exists i, (verified (upvoted i)).
        split; [reflexivity|]. split.
        { destruct (socketServiceInstance w); exact H3. }
        split; [reflexivity|]. split; [reflexivity|]. reflexivity.
      * inversion Hrun; subst r1 w1; clear Hrun.
        split.
        { apply repeated_upvote_run with (v := new_vote userId incidentId w); auto. }
        intros _; exists i, (upvoted i).
        split; [reflexivity|]. split; [exact H2|].
        split; [reflexivity|]. split; [reflexivity|]. reflexivity.
    + exfalso. revert Hrun. unfold upvoteIncident; rewrite Ha.
      cbn [bind await run Prisma.vote_findUnique settle]; rewrite Hv.
      cbn [bind await run settle].
      unfold Prisma.transaction2, Prisma.vote_create.
      rewrite find_existsb, Hv, Hu, Hi; simpl. discriminate.
    + exfalso. revert Hrun. unfold upvoteIncident; rewrite Ha.
      cbn [bind await run Prisma.vote_findUnique settle]; rewrite Hv.
      cbn [bind await run settle].
      unfold Prisma.transaction2, Prisma.vote_create.
      rewrite find_existsb, Hv, Hu; simpl. discriminate.
Qed.







End UpvoteProperties.


(* ------------------------------------------------------------------ *)
(** ** Sequencing *)

Lemma run_bind {A B : Type} (p : Async A) (f : A -> Async B) (w : World) :
  run (bind p f) w =
    match run p w with
    | (Resolved a, w') => run (f a) w'
    | (Rejected e, w') => (Rejected e, w')
    end.
Proof.
  revert w; induction p as [a|e|X op k IH|X op k IH]; intros w; simpl;
    try reflexivity; destruct (op w) as [x w']; apply IH.
Qed.

(* ------------------------------------------------------------------ *)
(** ** Status updates *)

Lemma adminNote_create_rejected incidentId userId text w e :
  fst (Prisma.adminNote_create incidentId userId text w) = Rejected e ->
  Prisma.adminNote_create incidentId userId text w = (Rejected e, w).
Proof.
  unfold Prisma.adminNote_create.
  destruct (negb (Prisma.known_user userId w)); simpl.
  - now intros [= ->].
  - destruct (Prisma.lookup incidentId (incidents w)); simpl;
      [discriminate|now intros [= ->]].
Qed.

(** C10. A status update with a non-empty note on an existing incident,
    whose note insert is rejected: the call is rejected with the error of
    the insert, and the world it leaves holds the incident with the new
    status and timestamp, no new note and no emission; the update of the
    incident is the only effect on record. *)
Theorem status_update_survives_note_failure incidentId st adminId text w i e :
  Prisma.lookup incidentId (incidents w) = Some i ->
  Js.truthy text = true ->
  fst (Prisma.adminNote_create incidentId adminId (status_note st text)
         (after_status st i w)) = Rejected e ->
  exists w',
    run (updateIncidentStatus incidentId st adminId (Some text)) w =
      (Rejected e, w') /\
    Prisma.lookup incidentId (incidents w') = Some (with_status st (now w) i) /\
    status (with_status st (now w) i) = st /\
    updatedAt (with_status st (now w) i) = now w /\
    adminNotes w' = adminNotes w /\
    emissions (trace w') = emissions (trace w) /\
    trace w' = trace w ++ [IncidentUpdated (with_status st (now w) i)].
Proof.
  intros Hi Ht Hrej.
  apply adminNote_create_rejected in Hrej.
  exists (after_status st i w).
  split.
  - unfold updateIncidentStatus, Date_now, call.
    cbn [bind await run settle].
    rewrite (incident_update_found _ _ _ _ Hi).
    fold (with_status st (now w) i). fold (after_status st i w).
    cbn [bind await run settle]. rewrite Ht.
    cbn [bind await run settle].
    fold (status_note st text). rewrite Hrej. reflexivity.
  - split.
    { simpl. apply lookup_replace with (old := i); auto.
      change (id i = incidentId).
      now apply lookup_id with (l := incidents w). }
    repeat split; try reflexivity.
    simpl. rewrite emissions_app. simpl. now rewrite app_nil_r.
Qed.

(* ------------------------------------------------------------------ *)
(** ** Creation *)

Section CreationProperties.

Variable env : Env.

Lemma checkForDuplicate_run w incidentType lat lon :
  run (checkForDuplicate env incidentType lat lon) w =
    (Resolved (duplicate_verdict env w incidentType lat lon), w).
Proof. reflexivity. Qed.

(** A creation whose upload (if any) succeeds and whose identifier is new. *)
Lemma createIncident_run data media url w :
  upload_answer w media url ->
  Prisma.lookup (uuids w (uuidCount w)) (incidents w) = None ->
  exists w',
    run (createIncident env data media) w =
      (Resolved (created_row env data url w), w') /\
    incidents w' = incidents w ++ [created_row env data url w] /\
    votes w' = votes w /\ adminNotes w' = adminNotes w /\ now w' = now w /\
    uuids w' = uuids w /\ uuidCount w' = S (uuidCount w) /\
    socketServiceInstance w' = socketServiceInstance w /\
    trace w' =
      trace w
      ++ match media, url with
         | Some buffer, Some u => [MediaStored "anginat/incidents" buffer u]
         | _, _ => []
         end
      ++ [IncidentInserted (created_row env data url w)]
      ++ (if socketServiceInstance w
          then [Emitted (new_incident_emission (created_row env data url w) (now w))]
          else []).
Proof.
  intros Hup Hfresh.
  unfold createIncident, uuidv4, call.
  cbn [bind run].
  destruct media as [buffer|]; simpl in Hup.
  - destruct Hup as (u & p & Hc & ->).
    unfold uploadToCloudinary.
    cbn [bind await run settle cloudinary set_uuidCount]. rewrite Hc.
    cbn [bind await run settle secure_url].
    rewrite run_bind, checkForDuplicate_run.
    cbn [bind await run settle].
    unfold Prisma.incident_create.
    cbn [Prisma.new_id incidents log set_uuidCount]. rewrite Hfresh.
    cbn [bind await run settle getSocketService call
         socketServiceInstance log set_incidents set_uuidCount].
    destruct (socketServiceInstance w) eqn:Hs; eexists;
      (split; [reflexivity|]);
      cbn; rewrite ?Hs, <- ?app_assoc; repeat split; reflexivity.
  - subst url.
    cbn [bind await run settle].
    rewrite run_bind, checkForDuplicate_run.
    cbn [bind await run settle].
    unfold Prisma.incident_create.
    cbn [Prisma.new_id incidents log set_uuidCount]. rewrite Hfresh.
    cbn [bind await run settle getSocketService call
         socketServiceInstance log set_incidents set_uuidCount].
    destruct (socketServiceInstance w) eqn:Hs; eexists;
      (split; [reflexivity|]);
      cbn; rewrite ?Hs, <- ?app_assoc; repeat split; reflexivity.
Qed.

(** C4. A creation whose upload (if any) succeeds and whose identifier is
    new always resolves and appends its row to the incidents: flagged by the
    detector, the row has status FLAGGED and the description behind the
    duplicate marker; not flagged, it has status REPORTED and the
    description as given. *)
Theorem duplicates_are_flagged_not_blocked data media url w :
  upload_answer w media url ->
  Prisma.lookup (uuids w (uuidCount w)) (incidents w) = None ->
  exists i w',
    run (createIncident env data media) w = (Resolved i, w') /\
    incidents w' = incidents w ++ [i] /\
    Prisma.lookup (id i) (incidents w') = Some i /\
    (isDuplicate (duplicate_verdict env w (in_incidentType data)
                    (in_latitude data) (in_longitude data)) = true ->
     status i = FLAGGED /\
     description i = ("[POTENTIAL DUPLICATE] " ++ in_description data)%string) /\
    (isDuplicate (duplicate_verdict env w (in_incidentType data)
                    (in_latitude data) (in_longitude data)) = false ->
     status i = REPORTED /\ description i = in_description data).
Proof.
  intros Hup Hfresh.
  destruct (createIncident_run data media url w Hup Hfresh)
    as (w' & Hrun & Hinc & _).
  exists (created_row env data url w), w'.
  split; [exact Hrun|]. split; [exact Hinc|]. split.
  - rewrite Hinc. now apply lookup_app_new.
  - unfold created_row; simpl.
    split; intros ->; split; reflexivity.
Qed.

(** C9. A creation with media: when the upload is rejected the creation is
    rejected with the same error, and incidents, votes, notes and the
    record of effects are as before; when the media store answers with a
    result (and the identifier is new) the creation resolves, the row
    carries the URL the store returned, and on the record of effects the
    stored media stands before the inserted incident. *)
Theorem media_is_stored_before_the_incident data buffer w :
  (forall e,
     fst (run (uploadToCloudinary buffer "incidents") w) = Rejected e ->
     exists w',
       run (createIncident env data (Some buffer)) w = (Rejected e, w') /\
       incidents w' = incidents w /\ votes w' = votes w /\
       adminNotes w' = adminNotes w /\ trace w' = trace w) /\
  (forall u p,
     cloudinary w buffer = CbResult u p ->
     Prisma.lookup (uuids w (uuidCount w)) (incidents w) = None ->
     exists i w' rest,
       run (createIncident env data (Some buffer)) w = (Resolved i, w') /\
       mediaUrl i = Some u /\
       In i (incidents w') /\
       trace w' =
         trace w ++ MediaStored "anginat/incidents" buffer u
                 :: IncidentInserted i :: rest).
Proof.
  split.
  - intros e He.
    exists (set_uuidCount (S (uuidCount w)) w).
    split; [|repeat split; reflexivity].
    revert He. unfold createIncident, uuidv4, call, uploadToCloudinary.
    cbn [bind await run settle cloudinary set_uuidCount fst].
    destruct (cloudinary w buffer) as [m|u p|]; simpl;
      intros [= <-]; reflexivity.
  - intros u p Hc Hfresh.
    assert (Hup : upload_answer w (Some buffer) (Some u)).
    { simpl; eauto. }
    destruct (createIncident_run data (Some buffer) (Some u) w Hup Hfresh)
      as (w' & Hrun & Hinc & _ & _ & _ & _ & _ & _ & Htr).
    exists (created_row env data (Some u) w), w'. eexists.
    split; [exact Hrun|]. split; [reflexivity|]. split.
    + rewrite Hinc; apply in_or_app; right; now left.
    + rewrite Htr. simpl. reflexivity.
Qed.

End CreationProperties.

(* ------------------------------------------------------------------ *)
(** ** Ordering of query results *)

Section Ordering.

Variable le : Incident -> Incident -> bool.
Hypothesis le_total : forall a b, le a b = true \/ le b a = true.
Hypothesis le_trans : forall a b c, le a b = true -> le b c = true -> le a c = true.

Lemma insert_perm x l : Permutation (Prisma.insert le x l) (x :: l).
Proof.
  induction l as [|y r IH]; simpl; [apply Permutation_refl|].
  destruct (le x y); [apply Permutation_refl|].
  apply Permutation_trans with (y :: x :: r); [now constructor|apply perm_swap].
Qed.

Lemma insert_sorted x l :
  StronglySorted (fun a b => le a b = true) l ->
  StronglySorted (fun a b => le a b = true) (Prisma.insert le x l).
Proof.
  induction 1 as [|y r Hs IH Hy]; simpl.
  - repeat constructor.
  - destruct (le x y) eqn:E.
    + constructor; [now constructor|].
      constructor; [exact E|].
      eapply Forall_impl; [|exact Hy]. intros z Hz; now apply le_trans with y.
    + constructor; [exact IH|].
      apply Forall_forall; intros z Hz.
      apply (Permutation_in _ (insert_perm x r)) in Hz.
      destruct Hz as [<-|Hz].
      * destruct (le_total x y); congruence.
      * rewrite Forall_forall in Hy; now apply Hy.
Qed.

Lemma fold_insert_perm l : Permutation (fold_right (Prisma.insert le) [] l) l.
Proof.
  induction l as [|x r IH]; simpl; [constructor|].
  eapply Permutation_trans; [apply insert_perm|now constructor].
Qed.

Lemma fold_insert_sorted l :
  StronglySorted (fun a b => le a b = true) (fold_right (Prisma.insert le) [] l).
Proof.
  induction l as [|x r IH]; simpl; [constructor|now apply insert_sorted].
Qed.

End Ordering.

Lemma before_total f o a b :
  Prisma.before f o a b = true \/ Prisma.before f o b a = true.
Proof. unfold Prisma.before; destruct o; rewrite !Z.leb_le; lia. Qed.

Lemma before_trans f o a b c :
  Prisma.before f o a b = true -> Prisma.before f o b c = true ->
  Prisma.before f o a c = true.
Proof. unfold Prisma.before; destruct o; rewrite !Z.leb_le; lia. Qed.

Lemma orderBy_perm f o l : Permutation (Prisma.orderBy f o l) l.
Proof. apply fold_insert_perm. Qed.

Lemma orderBy_sorted f o l :
  StronglySorted (fun a b => Prisma.before f o a b = true) (Prisma.orderBy f o l).
Proof.
  apply fold_insert_sorted; [apply before_total|apply before_trans].
Qed.

Lemma In_firstn {A : Type} (n : nat) (l : list A) (x : A) :
  In x (firstn n l) -> In x l.
Proof.
  intros H; rewrite <- (firstn_skipn n l); apply in_or_app; now left.
Qed.

Lemma In_skipn {A : Type} (n : nat) (l : list A) (x : A) :
  In x (skipn n l) -> In x l.
Proof.
  intros H; rewrite <- (firstn_skipn n l); apply in_or_app; now right.
Qed.

(** A row of a page is a row of the table that matches the query. *)
Lemma In_page c f o skip take w i :
  In i (firstn take (skipn skip
          (Prisma.orderBy f o (filter (Prisma.matches c) (incidents w))))) ->
  In i (incidents w) /\ Prisma.matches c i = true.
Proof.
  intros H; apply In_firstn, In_skipn in H.
  apply (Permutation_in _ (orderBy_perm f o _)) in H.
  now apply filter_In in H.
Qed.

Lemma matches_latitude c i lo hi :
  Prisma.matches c i = true ->
  Prisma.where_latitude c = Some (Js.Finite lo, Js.Finite hi) ->
  (lo <= latitude i <= hi)%R.
Proof.
  unfold Prisma.matches; intros H E; rewrite E in H; simpl in H.
  rewrite !andb_true_iff in H.
  destruct H as [[_ [H1 H2]] _].
  now rewrite !Rleb_true in *.
Qed.

Lemma matches_longitude c i lo hi :
  Prisma.matches c i = true ->
  Prisma.where_longitude c = Some (Js.Finite lo, Js.Finite hi) ->
  (lo <= longitude i <= hi)%R.
Proof.
  unfold Prisma.matches; intros H E; rewrite E in H; simpl in H.
  rewrite !andb_true_iff in H.
  destruct H as [_ [H1 H2]].
  now rewrite !Rleb_true in *.
Qed.

(* ------------------------------------------------------------------ *)
(** ** Listing *)

(** C7, as the code has it. A listing resolves without changing the world;
    the latitude bounds restrict the returned incidents when both are
    supplied, and so do the longitude bounds; when a side of an axis is
    missing, the listing is the one of the query without bounds on that
    axis. *)
Theorem bounding_box_needs_both_sides q w :
  exists r,
    run (getIncidents q) w = (Resolved r, w) /\
    (forall i, In i (pg_incidents r) ->
       In i (incidents w) /\
       (forall lo hi, minLat q = Some lo -> maxLat q = Some hi ->
                      (lo <= latitude i <= hi)%R) /\
       (forall lo hi, minLng q = Some lo -> maxLng q = Some hi ->
                      (lo <= longitude i <= hi)%R)) /\
    (minLat q = None \/ maxLat q = None ->
     run (getIncidents q) w = run (getIncidents (without_lat q)) w) /\
    (minLng q = None \/ maxLng q = None ->
     run (getIncidents q) w = run (getIncidents (without_lng q)) w).
Proof.
  eexists; split; [reflexivity|]; split; [|split].
  - intros i Hi; cbn [pg_incidents] in Hi.
    apply In_page in Hi; destruct Hi as [Hin Hm].
    split; [exact Hin|]; split; intros lo hi Hlo Hhi.
    + apply (matches_latitude _ _ _ _ Hm); simpl; now rewrite Hlo, Hhi.
    + apply (matches_longitude _ _ _ _ Hm); simpl; now rewrite Hlo, Hhi.
  - intros H.
    assert (E : query_where q = query_where (without_lat q)).
    { unfold query_where; simpl.
      destruct H as [-> | ->]; [|destruct (minLat q)]; reflexivity. }
    unfold getIncidents; now rewrite <- E.
  - intros H.
    assert (E : query_where q = query_where (without_lng q)).
    { unfold query_where; simpl.
      destruct H as [-> | ->]; [|destruct (minLng q)]; reflexivity. }
    unfold getIncidents; now rewrite <- E.
Qed.

(** C7, as the spec has it, fails: with minLat = 50 and no maxLat the
    listing of [sample_world] returns the incident at latitude 40. *)
Lemma lone_bound_is_ignored :
  ~ (forall q w r w' i lo,
       run (getIncidents q) w = (Resolved r, w') ->
       In i (pg_incidents r) ->
       minLat q = Some lo ->
       (lo <= latitude i)%R).
Proof.
  intros claim.
  assert (H : (50 <= latitude sample_incident)%R).
  { apply (claim sample_query sample_world
             {| pg_incidents := [sample_incident]; pg_total := 1;
                pg_page := 1; pg_totalPages := 1 |}
             sample_world sample_incident 50%R);
      [reflexivity|now left|reflexivity]. }
  simpl in H; lra.
Qed.

(* ------------------------------------------------------------------ *)
(** ** Duplicate detection *)

Lemma StronglySorted_weaken {A : Type} (R R' : A -> A -> Prop) (l : list A) :
  (forall a b, R a b -> R' a b) -> StronglySorted R l -> StronglySorted R' l.
Proof.
  intros HR; induction 1 as [|a r Hs IH Hf]; constructor; auto.
  eapply Forall_impl; [|exact Hf]; auto.
Qed.

Lemma StronglySorted_app_l {A : Type} (R : A -> A -> Prop) (l1 l2 : list A) :
  StronglySorted R (l1 ++ l2) -> StronglySorted R l1.
Proof.
  induction l1 as [|a r IH]; simpl; intros H; [constructor|].
  inversion H as [|? ? Hs Hf]; subst.
  constructor; [now apply IH|].
  rewrite Forall_app in Hf; tauto.
Qed.

Lemma StronglySorted_app_cross {A : Type} (R : A -> A -> Prop) (l1 l2 : list A) :
  StronglySorted R (l1 ++ l2) ->
  forall a b, In a l1 -> In b l2 -> R a b.
Proof.
  induction l1 as [|x r IH]; simpl; intros H a b Ha Hb; [contradiction|].
  inversion H as [|? ? Hs Hf]; subst.
  destruct Ha as [<-|Ha].
  - rewrite Forall_app in Hf; destruct Hf as [_ Hf].
    rewrite Forall_forall in Hf; now apply Hf.
  - now apply IH.
Qed.

(* ------------------------------------------------------------------ *)
(** ** The haversine formula *)

Local Open Scope R_scope.

Lemma sin_sqr_half x : sin (x / 2) * sin (x / 2) = (1 - cos x) / 2.
Proof.
  replace x with (2 * (x / 2)) at 3 by field.
  rewrite cos_2a_sin. field.
Qed.

(** The haversine term is the haversine of an angle: it lies in [0, 1]. *)
Lemma haversine_term_range p1 p2 l :
  0 <= sin ((p2 - p1) / 2) * sin ((p2 - p1) / 2) +
       cos p1 * cos p2 * sin (l / 2) * sin (l / 2) <= 1.
Proof.
  rewrite (Rmult_assoc (cos p1 * cos p2)).
  rewrite !sin_sqr_half, cos_minus.
  pose proof (sin2_cos2 p1) as H1. pose proof (sin2_cos2 p2) as H2.
  unfold Rsqr in H1, H2.
  pose proof (COS_bound l) as [Hl Hu].
  set (s1 := sin p1) in *; set (c1 := cos p1) in *.
  set (s2 := sin p2) in *; set (c2 := cos p2) in *.
  set (t := cos l) in *.
  assert (Hsq : forall x y, 0 <= x * x + y * y).
  { intros x y. apply Rplus_le_le_0_compat; apply Rle_0_sqr. }
  assert (A1 : 0 <= (1 + t) * ((s1 - s2) * (s1 - s2) + (c1 - c2) * (c1 - c2))).
  { apply Rmult_le_pos; [lra|apply Hsq]. }
  assert (A2 : 0 <= (1 - t) * ((s1 - s2) * (s1 - s2) + (c1 + c2) * (c1 + c2))).
  { apply Rmult_le_pos; [lra|apply Hsq]. }
  assert (B1 : 0 <= (1 + t) * ((s1 + s2) * (s1 + s2) + (c1 + c2) * (c1 + c2))).
  { apply Rmult_le_pos; [lra|apply Hsq]. }
  assert (B2 : 0 <= (1 - t) * ((s1 + s2) * (s1 + s2) + (c1 - c2) * (c1 - c2))).
  { apply Rmult_le_pos; [lra|apply Hsq]. }
  clear Hsq.
  split; nra.
Qed.

(** On a haversine term the two-argument arctangent of the code is the
    arcsine of the formula. *)
Lemma atan2_is_asin a :
  0 <= a <= 1 -> atan2 (sqrt a) (sqrt (1 - a)) = asin (sqrt a).
Proof.
  intros [H0 H1]. unfold atan2.
  destruct (Req_dec_T a 1) as [->|Hne].
  - replace (1 - 1) with 0 by ring. rewrite sqrt_0, sqrt_1, asin_1.
    destruct (Rlt_dec 0 0) as [H|_]; [lra|].
    destruct (Rlt_dec 0 1) as [_|H]; [reflexivity|lra].
  - assert (Hlt : a < 1) by lra.
    assert (Hs : 0 < sqrt (1 - a)) by (apply sqrt_lt_R0; lra).
    destruct (Rlt_dec 0 (sqrt (1 - a))) as [_|H]; [|contradiction].
    assert (Hsa : sqrt a < 1).
    { rewrite <- sqrt_1. apply sqrt_lt_1; lra. }
    pose proof (sqrt_pos a) as Hp.
    rewrite asin_atan by lra.
    now rewrite Rsqr_sqrt.
Qed.

(** The distance of the code is the great-circle distance of the
    specification. *)
Lemma calculateDistance_is_haversine lat1 lon1 lat2 lon2 :
  calculateDistance lat1 lon1 lat2 lon2 = haversine_meters lat1 lon1 lat2 lon2.
Proof.
  unfold calculateDistance, haversine_meters, toRadians, EARTH_RADIUS_METERS,
    Rsqr; cbv zeta.
  replace ((lat2 - lat1) * (PI / 180)) with (lat2 * (PI / 180) - lat1 * (PI / 180))
    by ring.
  rewrite atan2_is_asin by apply haversine_term_range.
  replace ((lat2 - lat1) * PI / 180) with (lat2 * (PI / 180) - lat1 * (PI / 180))
    by field.
  replace (lat1 * PI / 180) with (lat1 * (PI / 180)) by field.
  replace (lat2 * PI / 180) with (lat2 * (PI / 180)) by field.
  replace ((lon2 - lon1) * PI / 180) with ((lon2 - lon1) * (PI / 180)) by field.
  rewrite (Rmult_assoc (cos (lat1 * (PI / 180)) * cos (lat2 * (PI / 180)))).
  ring.
Qed.

Local Close Scope R_scope.

Section DetectorProperties.

Variable env : Env.

Lemma lonDelta_finite lat :
  cos (lat * PI / 180) <> 0%R ->
  lonDelta env lat =
    Js.Finite (DUPLICATE_DISTANCE_METERS env / 111000 / cos (lat * PI / 180)).
Proof.
  intros Hc. unfold lonDelta, latDelta, Js.div.
  destruct (Req_dec_T _ 0) as [E|_]; [contradiction|reflexivity].
Qed.

Lemma lonDelta_pole lat :
  cos (lat * PI / 180) = 0%R ->
  (0 < DUPLICATE_DISTANCE_METERS env)%R ->
  lonDelta env lat = Js.Infinity.
Proof.
  intros Hc HD. unfold lonDelta, latDelta, Js.div.
  destruct (Req_dec_T _ 0) as [_|N]; [|contradiction].
  destruct (Rlt_dec _ _) as [_|N]; [reflexivity|].
  exfalso; apply N. lra.
Qed.

(** The longitude range of the query is the box of the specification. *)
Lemma longitude_range_is_box lat lon x :
  Prisma.in_range x
    (Js.minus lon (lonDelta env lat), Js.plus lon (lonDelta env lat)) = true <->
  in_longitude_box env lat lon x.
Proof.
  unfold in_longitude_box, Prisma.in_range.
  destruct (Req_dec_T (cos (lat * PI / 180)) 0) as [Hc|Hc].
  - unfold lonDelta, latDelta, Js.div.
    destruct (Req_dec_T _ 0) as [_|N]; [|contradiction].
    destruct (Rlt_dec 0 (DUPLICATE_DISTANCE_METERS env / 111000)) as [Hp|Hp].
    + cbn [Js.minus Js.plus Js.leb andb].
      split; [|reflexivity]. intros _. right. split; [exact Hc|lra].
    + assert (Hn : ~ (0 < DUPLICATE_DISTANCE_METERS env)%R) by lra.
      split.
      * destruct (Rlt_dec (DUPLICATE_DISTANCE_METERS env / 111000) 0);
          cbn [Js.minus Js.plus Js.leb andb]; discriminate.
      * intros [[N _]|[_ HD]]; contradiction.
  - rewrite (lonDelta_finite lat Hc).
    cbn [Js.minus Js.plus Js.leb]. rewrite andb_true_iff, !Rleb_true.
    split.
    + intros H. left. split; [exact Hc|exact H].
    + intros [[_ H]|[E _]]; [exact H|contradiction].
Qed.

Lemma matches_candidate w ty lat lon i :
  In i (incidents w) ->
  Prisma.matches (candidates_where env ty lat lon (now w)) i = true <->
  is_candidate env w ty lat lon i.
Proof.
  intros Hin. unfold Prisma.matches, is_candidate, candidates_where.
  cbn [Prisma.where_status Prisma.where_status_notIn Prisma.where_incidentType
       Prisma.where_severity Prisma.where_createdAt_gte Prisma.where_latitude
       Prisma.where_longitude Prisma.opt_holds Prisma.type_equals existsb].
  rewrite <- longitude_range_is_box.
  unfold timeWindowStart, latDelta, Prisma.in_range at 1.
  cbn [Js.leb andb].
  rewrite !andb_true_iff, !orb_false_r, negb_true_iff, orb_false_iff.
  rewrite String.eqb_eq, Z.leb_le, !Rleb_true.
  split.
  - intros [[[[[[H1 H2] H3] _] H4] H5] H6].
    split; [exact Hin|]. split; [exact H3|]. split; [exact H4|].
    split; [exact H5|]. split; [exact H6|].
    split; intros E; rewrite E in *; discriminate.
  - intros (_ & H1 & H2 & H3 & H4 & H5 & H6).
    repeat split; auto; try tauto.
    + destruct (status i); simpl; congruence.
    + destruct (status i); simpl; congruence.
Qed.

Lemma first_within_hit lat lon pre i post :
  (forall p, In p pre ->
     (DUPLICATE_DISTANCE_METERS env < distance_to lat lon p)%R) ->
  (distance_to lat lon i <= DUPLICATE_DISTANCE_METERS env)%R ->
  first_within env lat lon (pre ++ i :: post) =
    {| isDuplicate := true; duplicateOf := Some (id i);
       reason := Some (SimilarWithin (DUPLICATE_DISTANCE_METERS env)
                         (DUPLICATE_TIME_MINUTES env)) |}.
Proof.
  unfold distance_to; intros Hpre Hi; induction pre as [|p r IH]; simpl.
  - unfold isWithinDistance.
    now rewrite (proj2 (Rleb_true _ _) Hi).
  - unfold isWithinDistance at 1.
    rewrite (proj2 (Rleb_false _ _) (Hpre p (or_introl eq_refl))).
    apply IH; intros q Hq; apply Hpre; now right.
Qed.

Lemma first_within_miss lat lon l :
  (forall p, In p l ->
     (DUPLICATE_DISTANCE_METERS env < distance_to lat lon p)%R) ->
  first_within env lat lon l =
    {| isDuplicate := false; duplicateOf := None; reason := None |}.
Proof.
  unfold distance_to; intros H; induction l as [|p r IH]; simpl; [reflexivity|].
  unfold isWithinDistance at 1.
  rewrite (proj2 (Rleb_false _ _) (H p (or_introl eq_refl))).
  apply IH; intros q Hq; apply H; now right.
Qed.

(** C5. For a valid latitude and a positive configured distance the
    detector resolves without changing the world. Its candidates are at
    most 20, each a candidate in the specification's sense (same type up
    to case, inside the window that starts the configured minutes before
    now, inside the box of latitude delta distance/111000 and longitude
    delta that over the cosine of the latitude, which at the poles is
    every longitude, not RESOLVED or FLAGGED), in descending order of
    creation, and no candidate left out is more recent than one kept. The
    verdict names the first candidate in that order whose distance is
    within the configured distance, and is "no duplicate" when none is;
    the distance is the great-circle distance of the haversine formula on
    a sphere of radius 6371000 metres. The defaults are 10 minutes and
    200 metres. *)
Theorem detector_returns_first_close_candidate w ty lat lon :
  (-90 <= lat <= 90)%R ->
  (0 < DUPLICATE_DISTANCE_METERS env)%R ->
  exists cands verdict,
    run (checkForDuplicate env ty lat lon) w = (Resolved verdict, w) /\
    (List.length cands <= 20)%nat /\
    (forall i, In i cands -> is_candidate env w ty lat lon i) /\
    StronglySorted (fun a b => createdAt b <= createdAt a) cands /\
    (forall j, is_candidate env w ty lat lon j -> ~ In j cands ->
       List.length cands = 20%nat /\
       forall i, In i cands -> createdAt j <= createdAt i) /\
    (forall pre i post,
       cands = pre ++ i :: post ->
       (forall p, In p pre ->
          (DUPLICATE_DISTANCE_METERS env < distance_to lat lon p)%R) ->
       (distance_to lat lon i <= DUPLICATE_DISTANCE_METERS env)%R ->
       verdict =
         {| isDuplicate := true; duplicateOf := Some (id i);
            reason := Some (SimilarWithin (DUPLICATE_DISTANCE_METERS env)
                              (DUPLICATE_TIME_MINUTES env)) |}) /\
    ((forall p, In p cands ->
        (DUPLICATE_DISTANCE_METERS env < distance_to lat lon p)%R) ->
     verdict = {| isDuplicate := false; duplicateOf := None; reason := None |}) /\
    (forall i,
       distance_to lat lon i =
         haversine_meters lat lon (latitude i) (longitude i)) /\
    DUPLICATE_TIME_MINUTES default_env = 10 /\
    DUPLICATE_DISTANCE_METERS default_env = 200%R.
Proof.
  intros _ _.
  exists (candidates env w ty lat lon), (duplicate_verdict env w ty lat lon).
  set (c := candidates_where env ty lat lon (now w)).
  set (sorted := Prisma.orderBy Prisma.createdAt_ Prisma.desc
                   (filter (Prisma.matches c) (incidents w))).
  assert (Hs : StronglySorted (fun a b => createdAt b <= createdAt a) sorted).
  { eapply StronglySorted_weaken; [|apply orderBy_sorted].
    intros a b; simpl; apply Z.leb_le. }
  assert (Hc : candidates env w ty lat lon = firstn 20 sorted) by reflexivity.
  assert (Hmem : forall i, In i sorted <->
                   In i (incidents w) /\ Prisma.matches c i = true).
  { intros i; rewrite <- filter_In; split; apply Permutation_in;
      [|apply Permutation_sym]; apply orderBy_perm. }
  split; [apply checkForDuplicate_run|].
  split; [rewrite Hc; apply firstn_le_length|].
  split.
  { intros i Hi; rewrite Hc in Hi; apply In_firstn, Hmem in Hi.
    destruct Hi as [Hin Hm]; now apply matches_candidate. }
  split.
  { rewrite Hc; apply StronglySorted_app_l with (l2 := skipn 20 sorted).
    now rewrite firstn_skipn. }
  split.
  { intros j Hj Hn; rewrite Hc in *.
    assert (Hjs : In j sorted).
    { apply Hmem; split; [apply Hj|]. apply matches_candidate; [apply Hj|exact Hj]. }
    rewrite <- (firstn_skipn 20 sorted) in Hjs.
    apply in_app_or in Hjs; destruct Hjs as [Hjs|Hjs]; [contradiction|].
    split.
    - rewrite length_firstn. apply Nat.min_l.
      destruct (Nat.le_gt_cases 20 (List.length sorted)) as [|Hlt]; [assumption|].
      rewrite skipn_all2 in Hjs by lia. contradiction.
    - intros i Hi.
      apply (StronglySorted_app_cross
               (fun a b : Incident => createdAt b <= createdAt a)
               (firstn 20 sorted) (skipn 20 sorted)); auto.
      now rewrite firstn_skipn. }
  split.
  { intros pre i post E Hpre Hi; unfold duplicate_verdict; rewrite E.
    now apply first_within_hit. }
  split; [intros H; now apply first_within_miss|].
  split; [intros i; apply calculateDistance_is_haversine|].
  split; reflexivity.
Qed.

End DetectorProperties.

(* ------------------------------------------------------------------ *)
(** ** Distances *)

Local Open Scope R_scope.

Lemma atan_le_x x : 0 <= x -> atan x <= x.
Proof.
  intros [Hx| <-]; [|rewrite atan_0; lra].
  destruct (MVT_cor2 atan (fun c => / (1 + c ^ 2)) 0 x Hx) as (c & Hc & _).
  { intros c _; apply derivable_pt_lim_atan. }
  rewrite atan_0 in Hc.
  assert (H1 : 0 < / (1 + c ^ 2) <= 1).
  { assert (0 <= c ^ 2) by (apply pow2_ge_0).
    split; [apply Rinv_0_lt_compat; lra|].
    rewrite <- Rinv_1 at 2. apply Rinv_le_contravar; lra. }
  nra.
Qed.

Lemma sin_sqr_le x : sin x * sin x <= x * x.
Proof.
  assert (H : forall y, 0 < y -> sin y * sin y <= y * y).
  { intros y Hy.
    destruct (MVT_cor2 sin cos 0 y Hy) as (c & Hc & _).
    { intros c _; apply derivable_pt_lim_sin. }
    rewrite sin_0 in Hc.
    pose proof (COS_bound c) as Hb.
    replace (sin y) with (cos c * y) by lra.
    assert (cos c * cos c <= 1) by nra.
    assert (0 <= y * y) by nra.
    nra. }
  destruct (Rtotal_order x 0) as [Hx|[->|Hx]].
  - specialize (H (- x)). rewrite sin_neg in H.
    assert (H0 : 0 < - x) by lra. specialize (H H0). nra.
  - rewrite sin_0; lra.
  - now apply H.
Qed.

(** The square of half an angle of at most 1/2000 degree, in radians. *)
Lemma half_angle_small d :
  Rabs d <= 1 / 2000 ->
  (d * (PI / 180) / 2) * (d * (PI / 180) / 2) <= 32 / 1000000000000.
Proof.
  pose proof PI_RGT_0 as Hpi0. pose proof PI_4 as Hpi4.
  intros Hd. unfold Rabs in Hd; destruct (Rcase_abs d).
  all: assert (Hd2 : d * d <= 1 / 4000000) by nra.
  all: assert (Hp2 : PI * PI <= 16) by nra.
  all: assert (0 <= d * d) by nra.
  all: replace (d * (PI / 180) / 2 * (d * (PI / 180) / 2))
         with ((d * d) * (PI * PI) / 129600) by field.
  all: assert ((d * d) * (PI * PI) <= 1 / 4000000 * 16) by nra.
  all: lra.
Qed.

(** Two points whose coordinates differ by at most 1/2000 of a degree are
    less than 200 m apart. *)
Lemma close_points_distance lat1 lon1 lat2 lon2 :
  Rabs (lat2 - lat1) <= 1 / 2000 -> Rabs (lon2 - lon1) <= 1 / 2000 ->
  calculateDistance lat1 lon1 lat2 lon2 <= 200.
Proof.
  intros Hlat Hlon. unfold calculateDistance, toRadians, EARTH_RADIUS_METERS.
  set (u := (lat2 - lat1) * (PI / 180) / 2).
  set (v := (lon2 - lon1) * (PI / 180) / 2).
  set (C := cos (lat1 * (PI / 180)) * cos (lat2 * (PI / 180))).
  set (a := sin u * sin u + C * sin v * sin v).
  assert (Hu : sin u * sin u <= 32 / 1000000000000).
  { eapply Rle_trans; [apply sin_sqr_le|now apply half_angle_small]. }
  assert (Hv : sin v * sin v <= 32 / 1000000000000).
  { eapply Rle_trans; [apply sin_sqr_le|now apply half_angle_small]. }
  assert (HC : -1 <= C <= 1).
  { pose proof (COS_bound (lat1 * (PI / 180))).
    pose proof (COS_bound (lat2 * (PI / 180))). unfold C; nra. }
  assert (Hv0 : 0 <= sin v * sin v) by nra.
  assert (Hu0 : 0 <= sin u * sin u) by nra.
  assert (Ha : a <= 64 / 1000000000000).
  { unfold a. rewrite Rmult_assoc. nra. }
  assert (Ha' : 81 / 100 <= 1 - a) by lra.
  assert (Hs : sqrt a <= 8 / 1000000).
  { rewrite <- (sqrt_square (8 / 1000000)) by lra.
    apply sqrt_le_1_alt. lra. }
  assert (Hq : 9 / 10 <= sqrt (1 - a)).
  { rewrite <- (sqrt_square (9 / 10)) by lra.
    apply sqrt_le_1_alt. lra. }
  pose proof (sqrt_pos a) as Hs0.
  unfold atan2. destruct (Rlt_dec 0 (sqrt (1 - a))) as [Hpos|]; [|lra].
  assert (Hx : 0 <= sqrt a / sqrt (1 - a) <= 1 / 100000).
  { split.
    - apply Rmult_le_pos; [exact Hs0|]. left; now apply Rinv_0_lt_compat.
    - assert (/ sqrt (1 - a) <= / (9 / 10)).
      { apply Rinv_le_contravar; lra. }
      assert (0 < / sqrt (1 - a)) by now apply Rinv_0_lt_compat.
      unfold Rdiv at 1.
      replace (/ (9 / 10)) with (10 / 9) in * by field. nra. }
  pose proof (atan_le_x _ (proj1 Hx)). lra.
Qed.

(** At a latitude between the poles the longitude delta is at least the
    latitude delta. *)
Lemma lonDelta_ge_latDelta env lat :
  0 <= DUPLICATE_DISTANCE_METERS env -> -90 < lat < 90 ->
  0 < cos (lat * PI / 180) /\
  latDelta env <= latDelta env / cos (lat * PI / 180).
Proof.
  intros HD Hlat.
  pose proof PI_RGT_0 as Hpi.
  assert (Hc : 0 < cos (lat * PI / 180)).
  { apply cos_gt_0; nra. }
  split; [exact Hc|].
  pose proof (COS_bound (lat * PI / 180)) as [_ Hc1].
  assert (HL : 0 <= latDelta env) by (unfold latDelta; lra).
  assert (Hi : 1 <= / cos (lat * PI / 180)).
  { rewrite <- Rinv_1 at 1. apply Rinv_le_contravar; lra. }
  unfold Rdiv at 1. nra.
Qed.

(** Between the poles a longitude within the latitude delta of the point
    is inside the box. *)
Lemma in_longitude_box_near env lat lon x :
  0 <= DUPLICATE_DISTANCE_METERS env -> -90 < lat < 90 ->
  lon - latDelta env <= x <= lon + latDelta env ->
  in_longitude_box env lat lon x.
Proof.
  intros HD Hlat Hx.
  destruct (lonDelta_ge_latDelta env lat HD Hlat) as [Hc Hle].
  unfold latDelta in *. left. split; lra.
Qed.

Local Close Scope R_scope.

(* ------------------------------------------------------------------ *)
(** ** The two-report scenario *)

Lemma run_try_catch {A : Type} (p : Async A) (h : Error -> Async A) (w : World) :
  run (try_catch p h) w =
    match run p w with
    | (Resolved a, w') => (Resolved a, w')
    | (Rejected e, w') => run (h e) w'
    end.
Proof.
  revert w; induction p as [a|e|X op k IH|X op k IH]; intros w; simpl;
    try reflexivity; try (destruct (run (h e) w); reflexivity);
    destruct (op w) as [x w']; apply IH.
Qed.

(** A body that passes every check of the schema. *)
Lemma createIncidentSchema_parse_valid b :
  (1 <= String.length (body_incidentType b) <= 50)%nat ->
  existsb (String.eqb (Js.toUpperCase (body_incidentType b))) incidentTypes = true ->
  (10 <= String.length (body_description b) <= 2000)%nat ->
  (-90 <= body_latitude b <= 90)%R ->
  (-180 <= body_longitude b <= 180)%R ->
  createIncidentSchema_parse b =
    Resolved {| in_incidentType := body_incidentType b;
                in_description := body_description b;
                in_latitude := body_latitude b;
                in_longitude := body_longitude b;
                in_severity :=
                  match body_severity b with Some s => s | None => MEDIUM end |}.
Proof.
  intros [Ht1 Ht2] Hty [Hd1 Hd2] [Hla1 Hla2] [Hlo1 Hlo2].
  unfold createIncidentSchema_parse.
  apply Nat.leb_le in Ht1, Ht2, Hd1, Hd2.
  apply Rleb_true in Hla1, Hla2, Hlo1, Hlo2.
  now rewrite Ht1, Ht2, Hty, Hd1, Hd2, Hla1, Hla2, Hlo1, Hlo2.
Qed.

Lemma controller_createIncident_run env body file data i w w' :
  createIncidentSchema_parse body = Resolved data ->
  run (createIncident env data file) w = (Resolved i, w') ->
  run (controller_createIncident env body file) w =
    (Resolved (ok 201 (Some i) (creation_message i)), w').
Proof.
  intros Hp Hrun; unfold controller_createIncident.
  rewrite run_try_catch, Hp; cbn [settle bind].
  now rewrite run_bind, Hrun.
Qed.

(** C6. From an empty incident table: report A at (40.0, -75.0), type FIRE,
    with a description of 12 characters and no severity, is answered 201
    and stored with status REPORTED and severity MEDIUM. Up to a minute
    later the detector, asked about (40.0005, -75.0005) and type FIRE,
    answers isDuplicate with duplicateOf = the id of A, and report B there
    is answered 201 and stored with status FLAGGED behind the duplicate
    marker; both incidents are in the table. *)
Theorem scenario_second_report_is_flagged w0 textA textB dt :
  incidents w0 = [] ->
  String.length textA = 12%nat ->
  (10 <= String.length textB <= 2000)%nat ->
  0 <= dt <= 60000 ->
  uuids w0 (S (uuidCount w0)) <> uuids w0 (uuidCount w0) ->
  exists a b w1 w2,
    run (controller_createIncident default_env (scenario_A textA) None) w0 =
      (Resolved (ok 201 (Some a) "Incident reported successfully"), w1) /\
    status a = REPORTED /\ severity a = MEDIUM /\
    run (checkForDuplicate default_env "FIRE" 40.0005 (-75.0005)) (later dt w1) =
      (Resolved {| isDuplicate := true; duplicateOf := Some (id a);
                   reason := Some (SimilarWithin 200 10) |}, later dt w1) /\
    run (controller_createIncident default_env (scenario_B textB) None)
        (later dt w1) =
      (Resolved (ok 201 (Some b)
                   "Incident reported and flagged as potential duplicate"), w2) /\
    status b = FLAGGED /\
    description b = ("[POTENTIAL DUPLICATE] " ++ textB)%string /\
    incidents w2 = [a; b].
Proof.
  intros Hempty HlenA HlenB Hdt Huuid.
  (* report A *)
  assert (HpA : createIncidentSchema_parse (scenario_A textA) =
                Resolved {| in_incidentType := "FIRE"; in_description := textA;
                            in_latitude := 40; in_longitude := -75;
                            in_severity := MEDIUM |}).
  { apply createIncidentSchema_parse_valid; simpl; try lia; try lra; reflexivity. }
  assert (HpB : createIncidentSchema_parse (scenario_B textB) =
                Resolved {| in_incidentType := "FIRE"; in_description := textB;
                            in_latitude := 40.0005; in_longitude := -75.0005;
                            in_severity := MEDIUM |}).
  { apply createIncidentSchema_parse_valid; simpl; try lia; try lra; reflexivity. }
  set (dataA := {| in_incidentType := "FIRE"; in_description := textA;
                   in_latitude := 40%R; in_longitude := (-75)%R;
                   in_severity := MEDIUM |}) in *.
  set (dataB := {| in_incidentType := "FIRE"; in_description := textB;
                   in_latitude := 40.0005%R; in_longitude := (-75.0005)%R;
                   in_severity := MEDIUM |}) in *.
  assert (HfreshA : Prisma.lookup (uuids w0 (uuidCount w0)) (incidents w0) = None).
  { now rewrite Hempty. }
  destruct (createIncident_run default_env dataA None None w0 eq_refl HfreshA)
    as (w1 & HrunA & HincA & _ & _ & HnowA & HuuA & HcntA & _).
  set (a := created_row default_env dataA None w0) in *.
  assert (Hsa : status a = REPORTED).
  { unfold a, created_row, duplicate_verdict, candidates; now rewrite Hempty. }
  assert (Hida : id a = uuids w0 (uuidCount w0)) by reflexivity.
  assert (Hca : createdAt a = now w0) by reflexivity.
  rewrite Hempty in HincA; simpl in HincA.
  (* the detector, asked about B *)
  assert (Hcand : is_candidate default_env (later dt w1) "FIRE"
                    40.0005%R (-75.0005)%R a).
  { unfold is_candidate; cbn [incidents later set_now now].
    rewrite HincA, HnowA, Hca.
    split; [now left|]. split; [reflexivity|].
    split; [simpl; lia|].
    replace (latitude a) with 40%R by reflexivity.
    replace (longitude a) with (-75)%R by reflexivity.
    split; [simpl DUPLICATE_DISTANCE_METERS; lra|].
    split;
      [apply in_longitude_box_near; unfold latDelta;
       simpl DUPLICATE_DISTANCE_METERS; lra|].
    rewrite Hsa; split; discriminate. }
  assert (Hverdict : duplicate_verdict default_env (later dt w1) "FIRE"
                       40.0005%R (-75.0005)%R =
                     {| isDuplicate := true; duplicateOf := Some (id a);
                        reason := Some (SimilarWithin 200 10) |}).
  { unfold duplicate_verdict, candidates.
    cbn [incidents later set_now]. rewrite HincA.
    cbn [filter].
    change (now (set_now (now w1 + dt) w1)) with (now (later dt w1)).
    rewrite (proj2 (matches_candidate default_env (later dt w1) "FIRE"
                      40.0005%R (-75.0005)%R a
                      ltac:(cbn [incidents later set_now]; rewrite HincA; now left))
                   Hcand).
    cbn [Prisma.orderBy fold_right Prisma.insert firstn].
    apply (first_within_hit default_env 40.0005%R (-75.0005)%R [] a []).
    - intros p [].
    - unfold distance_to. apply close_points_distance.
      + replace (latitude a) with 40%R by reflexivity.
        unfold Rabs; destruct (Rcase_abs (40 - 40.0005)); lra.
      + replace (longitude a) with (-75)%R by reflexivity.
        unfold Rabs; destruct (Rcase_abs (-75 - -75.0005)); lra. }
  (* report B *)
  assert (HfreshB : Prisma.lookup (uuids (later dt w1) (uuidCount (later dt w1)))
                      (incidents (later dt w1)) = None).
  { cbn [incidents later set_now uuids uuidCount].
    rewrite HincA, HuuA, HcntA; unfold Prisma.lookup; simpl.
    rewrite ?Hida. apply String.eqb_neq in Huuid.
    rewrite String.eqb_sym in Huuid. now rewrite Huuid. }
  destruct (createIncident_run default_env dataB None None (later dt w1)
              eq_refl HfreshB)
    as (w2 & HrunB & HincB & _).
  set (b := created_row default_env dataB None (later dt w1)) in *.
  assert (Hsb : status b = FLAGGED /\
                description b = ("[POTENTIAL DUPLICATE] " ++ textB)%string).
  { unfold b, created_row. cbn [in_incidentType in_latitude in_longitude dataB].
    rewrite Hverdict. split; reflexivity. }
  exists a, b, w1, w2.
  split.
  { rewrite (controller_createIncident_run default_env _ None dataA a w0 w1 HpA HrunA).
    unfold creation_message; now rewrite Hsa. }
  split; [exact Hsa|]. split; [reflexivity|].
  split; [now rewrite checkForDuplicate_run, Hverdict|].
  split.
  { rewrite (controller_createIncident_run default_env _ None dataB b
               (later dt w1) w2 HpB HrunB).
    unfold creation_message; now rewrite (proj1 Hsb). }
  split; [apply Hsb|]. split; [apply Hsb|].
  rewrite HincB. cbn [incidents later set_now]. now rewrite HincA.
Qed.

(* ------------------------------------------------------------------ *)
(** * Further properties *)

(** ** The distance utility *)

Local Open Scope R_scope.

Lemma sin_sqr_neg x : sin (- x) * sin (- x) = sin x * sin x.
Proof. rewrite sin_neg; ring. Qed.

(** The haversine term [a] of the formula, as [calculateDistance] builds it. *)
Lemma haversine_term_sym lat1 lon1 lat2 lon2 :
  sin (toRadians (lat1 - lat2) / 2) * sin (toRadians (lat1 - lat2) / 2) +
  cos (toRadians lat2) * cos (toRadians lat1) *
  sin (toRadians (lon1 - lon2) / 2) * sin (toRadians (lon1 - lon2) / 2) =
  sin (toRadians (lat2 - lat1) / 2) * sin (toRadians (lat2 - lat1) / 2) +
  cos (toRadians lat1) * cos (toRadians lat2) *
  sin (toRadians (lon2 - lon1) / 2) * sin (toRadians (lon2 - lon1) / 2).
Proof.
  replace (toRadians (lat1 - lat2) / 2) with (- (toRadians (lat2 - lat1) / 2))
    by (unfold toRadians; field).
  replace (toRadians (lon1 - lon2) / 2) with (- (toRadians (lon2 - lon1) / 2))
    by (unfold toRadians; field).
  rewrite sin_sqr_neg.
  rewrite (Rmult_assoc _ (sin (- _)) (sin (- _))), sin_sqr_neg. ring.
Qed.

Lemma calculateDistance_swap lat1 lon1 lat2 lon2 :
  calculateDistance lat1 lon1 lat2 lon2 = calculateDistance lat2 lon2 lat1 lon1.
Proof.
  unfold calculateDistance; cbv zeta.
  now rewrite (haversine_term_sym lat1 lon1 lat2 lon2).
Qed.

Lemma calculateDistance_same lat lon : calculateDistance lat lon lat lon = 0.
Proof.
  unfold calculateDistance, toRadians; cbv zeta.
  replace ((lat - lat) * (PI / 180) / 2) with 0 by field.
  replace ((lon - lon) * (PI / 180) / 2) with 0 by field.
  rewrite sin_0.
  replace (0 * 0 + cos (lat * (PI / 180)) * cos (lat * (PI / 180)) * 0 * 0)
    with 0 by ring.
  rewrite Rminus_0_r, sqrt_0, sqrt_1.
  unfold atan2. destruct (Rlt_dec 0 1) as [_|H]; [|lra].
  replace (0 / 1) with 0 by field. rewrite atan_0. ring.
Qed.

(** At the pole every longitude is the same point. *)
Lemma calculateDistance_at_pole lon1 lon2 :
  calculateDistance 90 lon1 90 lon2 = 0.
Proof.
  unfold calculateDistance, toRadians; cbv zeta.
  replace ((90 - 90) * (PI / 180) / 2) with 0 by field.
  replace (90 * (PI / 180)) with (PI / 2) by field.
  rewrite sin_0, cos_PI2.
  match goal with |- context [sqrt ?a] =>
    replace a with 0 by ring
  end.
  rewrite Rminus_0_r, sqrt_0, sqrt_1.
  unfold atan2. destruct (Rlt_dec 0 1) as [_|H]; [|lra].
  replace (0 / 1) with 0 by field. rewrite atan_0. ring.
Qed.

(** X1. The distance does not depend on the order of its two points, and
    neither does the test against a threshold. *)
Theorem distance_is_symmetric lat1 lon1 lat2 lon2 maxDistanceMeters :
  calculateDistance lat1 lon1 lat2 lon2 = calculateDistance lat2 lon2 lat1 lon1 /\
  isWithinDistance lat1 lon1 lat2 lon2 maxDistanceMeters =
    isWithinDistance lat2 lon2 lat1 lon1 maxDistanceMeters.
Proof.
  split; [apply calculateDistance_swap|].
  unfold isWithinDistance. now rewrite calculateDistance_swap.
Qed.

(** X2. A point is at distance 0 from itself, so it is within every
    non-negative threshold of itself. *)
Theorem distance_to_itself_is_zero lat lon maxDistanceMeters :
  calculateDistance lat lon lat lon = 0 /\
  (0 <= maxDistanceMeters ->
   isWithinDistance lat lon lat lon maxDistanceMeters = true).
Proof.
  split; [apply calculateDistance_same|].
  intros H. unfold isWithinDistance. rewrite calculateDistance_same.
  now apply Rleb_true.
Qed.

Local Close Scope R_scope.

(* ------------------------------------------------------------------ *)
(** ** The verdict of the duplicate detector *)

Section VerdictProperties.

Variable env : Env.

Lemma first_within_true lat lon l :
  isDuplicate (first_within env lat lon l) = true ->
  exists i, In i l /\
    duplicateOf (first_within env lat lon l) = Some (id i) /\
    (distance_to lat lon i <= DUPLICATE_DISTANCE_METERS env)%R.
Proof.
  induction l as [|p r IH]; cbn [first_within]; [discriminate|].
  destruct (isWithinDistance _ _ _ _ _) eqn:E; cbn [isDuplicate duplicateOf].
  - intros _; exists p; repeat split; [now left|].
    unfold isWithinDistance in E. now apply Rleb_true in E.
  - intros H; destruct (IH H) as (i & Hi & Hd & Hle).
    exists i; repeat split; auto. now right.
Qed.

Lemma first_within_false lat lon l :
  isDuplicate (first_within env lat lon l) = false ->
  first_within env lat lon l =
    {| isDuplicate := false; duplicateOf := None; reason := None |} /\
  forall i, In i l ->
    (DUPLICATE_DISTANCE_METERS env < distance_to lat lon i)%R.
Proof.
  induction l as [|p r IH]; cbn [first_within];
    [intros _; split; [reflexivity|intros ? []]|].
  destruct (isWithinDistance _ _ _ _ _) eqn:E; cbn [isDuplicate];
    [discriminate|].
  intros H; destruct (IH H) as (Hv & Hall).
  split; [exact Hv|]. intros i [<-|Hi]; [|auto].
  unfold isWithinDistance in E. now apply Rleb_false in E.
Qed.

Lemma candidates_sound w ty lat lon i :
  In i (candidates env w ty lat lon) -> is_candidate env w ty lat lon i.
Proof.
  unfold candidates; intros H. apply In_page with (skip := 0%nat) in H.
  destruct H as [Hin Hm]. now apply matches_candidate.
Qed.

(** When no more than 20 rows match the query, every one of them is among
    the candidates. *)
Lemma candidates_complete w ty lat lon i :
  (List.length (filter (Prisma.matches
                          (candidates_where env ty lat lon (now w)))
                  (incidents w)) <= 20)%nat ->
  is_candidate env w ty lat lon i ->
  In i (candidates env w ty lat lon).
Proof.
  intros Hlen Hc. unfold candidates.
  set (l := filter _ (incidents w)) in *.
  rewrite firstn_all2.
  - apply (Permutation_in _ (Permutation_sym (orderBy_perm _ _ l))).
    apply filter_In; split; [apply Hc|]. apply matches_candidate; [apply Hc|exact Hc].
  - now rewrite (Permutation_length (orderBy_perm _ _ l)).
Qed.

(** X4. What a verdict means, for a valid latitude and a positive
    configured distance. The detector answers without changing the world.
    If it reports a duplicate, the incident it names is stored, has the
    same type up to case, was created inside the time window, lies in the
    bounding box (at the poles: at any longitude), is neither RESOLVED nor
    FLAGGED, and is within the configured distance. If it reports none, it
    names no incident and every candidate it looked at is farther away
    than the configured distance. *)
Theorem verdict_is_sound w ty lat lon :
  (-90 <= lat <= 90)%R ->
  (0 < DUPLICATE_DISTANCE_METERS env)%R ->
  exists v,
    run (checkForDuplicate env ty lat lon) w = (Resolved v, w) /\
    (isDuplicate v = true ->
     exists i, is_candidate env w ty lat lon i /\
               duplicateOf v = Some (id i) /\
               (distance_to lat lon i <= DUPLICATE_DISTANCE_METERS env)%R) /\
    (isDuplicate v = false ->
     duplicateOf v = None /\ reason v = None /\
     forall i, In i (candidates env w ty lat lon) ->
       (DUPLICATE_DISTANCE_METERS env < distance_to lat lon i)%R).
Proof.
  intros _ _.
  exists (duplicate_verdict env w ty lat lon).
  split; [apply checkForDuplicate_run|]. split.
  - intros H; apply first_within_true in H.
    destruct H as (i & Hi & Hd & Hle).
    exists i; split; [now apply candidates_sound|]. split; assumption.
  - intros H; apply first_within_false in H. destruct H as [Hv Hall].
    unfold duplicate_verdict; rewrite Hv; simpl; auto.
Qed.

(** X5. When at most 20 stored incidents match the candidate query, the
    detector misses nothing: if any stored incident of the same type up to
    case, inside the window and the box, not RESOLVED or FLAGGED, is within
    the configured distance, the verdict is a duplicate. *)
Theorem verdict_is_complete_up_to_20 w ty lat lon i :
  (List.length (filter (Prisma.matches
                          (candidates_where env ty lat lon (now w)))
                  (incidents w)) <= 20)%nat ->
  is_candidate env w ty lat lon i ->
  (distance_to lat lon i <= DUPLICATE_DISTANCE_METERS env)%R ->
  exists v,
    run (checkForDuplicate env ty lat lon) w = (Resolved v, w) /\
    isDuplicate v = true.
Proof.
  intros Hlen Hc Hd.
  exists (duplicate_verdict env w ty lat lon).
  split; [apply checkForDuplicate_run|].
  destruct (isDuplicate (duplicate_verdict env w ty lat lon)) eqn:E; [reflexivity|].
  apply first_within_false in E. destruct E as [_ Hall].
  specialize (Hall i (candidates_complete w ty lat lon i Hlen Hc)). lra.
Qed.

End VerdictProperties.

(* ------------------------------------------------------------------ *)
(** ** Paging and ordering of a listing *)

Lemma getIncidents_run q w :
  run (getIncidents q) w =
    (Resolved {|
       pg_incidents :=
         firstn (Z.to_nat (limit q))
           (skipn (Z.to_nat ((page q - 1) * limit q))
              (Prisma.orderBy (sortBy q) (sortOrder q) (selected q w)));
       pg_total := Z.of_nat (List.length (selected q w));
       pg_page := page q;
       pg_totalPages := ceil_div (Z.of_nat (List.length (selected q w))) (limit q)
     |}, w).
Proof. reflexivity. Qed.

Lemma ceil_div_spec t l :
  0 < l -> (ceil_div t l - 1) * l < t <= ceil_div t l * l.
Proof.
  intros Hl. unfold ceil_div.
  pose proof (Z.div_mod (- t) l ltac:(lia)) as Hd.
  pose proof (Z.mod_pos_bound (- t) l Hl) as Hm.
  nia.
Qed.

Lemma StronglySorted_app_r {A : Type} (R : A -> A -> Prop) (l1 l2 : list A) :
  StronglySorted R (l1 ++ l2) -> StronglySorted R l2.
Proof.
  induction l1 as [|a r IH]; simpl; intros H; [exact H|].
  inversion H; subst; now apply IH.
Qed.

Lemma StronglySorted_page {A : Type} (R : A -> A -> Prop) (n k : nat) (l : list A) :
  StronglySorted R l -> StronglySorted R (firstn n (skipn k l)).
Proof.
  intros H.
  apply StronglySorted_app_l with (l2 := skipn n (skipn k l)).
  rewrite firstn_skipn.
  apply StronglySorted_app_r with (l1 := firstn k l).
  now rewrite firstn_skipn.
Qed.

(** X6. The arithmetic of a page, for page >= 1 and limit >= 1: the total
    is the number of stored incidents that the filters select; the page
    holds min(limit, total - (page-1)*limit) rows, none when the page lies
    past the end; and totalPages is the least number of pages of that
    size that hold the total. A listing changes nothing. *)
Theorem page_arithmetic q w :
  1 <= page q -> 1 <= limit q ->
  exists r,
    run (getIncidents q) w = (Resolved r, w) /\
    pg_total r = Z.of_nat (List.length (selected q w)) /\
    Z.of_nat (List.length (pg_incidents r)) =
      Z.min (limit q) (Z.max 0 (pg_total r - (page q - 1) * limit q)) /\
    (pg_totalPages r - 1) * limit q < pg_total r <= pg_totalPages r * limit q /\
    (pg_totalPages r < page q -> pg_incidents r = []).
Proof.
  intros Hp Hl. rewrite getIncidents_run. eexists; split; [reflexivity|].
  cbn [pg_total pg_incidents pg_totalPages].
  set (s := Prisma.orderBy (sortBy q) (sortOrder q) (selected q w)).
  assert (Hlen : List.length s = List.length (selected q w)).
  { apply Permutation_length, orderBy_perm. }
  rewrite <- Hlen.
  pose proof (ceil_div_spec (Z.of_nat (List.length s)) (limit q) ltac:(lia)) as Hc.
  split; [reflexivity|]. split; [|split; [exact Hc|]].
  - rewrite length_firstn, length_skipn. nia.
  - intros Hpast. rewrite skipn_all2; [now rewrite firstn_nil|]. nia.
Qed.

(** X7. What a listing returns is ordered by the requested key in the
    requested direction, and every returned incident is stored and passes
    the filters that were given: the status, the severity, and the type,
    which is compared in upper case with the stored type as it is. *)
Theorem listing_is_ordered_and_filtered q w :
  exists r,
    run (getIncidents q) w = (Resolved r, w) /\
    StronglySorted
      (fun a b =>
         match sortOrder q with
         | Prisma.asc => Prisma.sort_key (sortBy q) a <= Prisma.sort_key (sortBy q) b
         | Prisma.desc => Prisma.sort_key (sortBy q) b <= Prisma.sort_key (sortBy q) a
         end)
      (pg_incidents r) /\
    forall i, In i (pg_incidents r) ->
      In i (incidents w) /\
      (forall s, q_status q = Some s -> status i = s) /\
      (forall s, q_severity q = Some s -> severity i = s) /\
      (forall t, q_incidentType q = Some t -> Js.truthy t = true ->
                 incidentType i = Js.toUpperCase t).
Proof.
  rewrite getIncidents_run. eexists; split; [reflexivity|].
  cbn [pg_incidents]. split.
  - apply StronglySorted_page.
    eapply StronglySorted_weaken; [|apply orderBy_sorted].
    intros a b; unfold Prisma.before.
    destruct (sortOrder q); apply Z.leb_le.
  - intros i Hi. apply In_page in Hi. destruct Hi as [Hin Hm].
    split; [exact Hin|].
    unfold Prisma.matches, query_where in Hm; cbn in Hm.
    rewrite !andb_true_iff in Hm.
    destruct Hm as [[[[[[Hs _] Ht] Hv] _] _] _].
    split; [|split].
    + intros s E; rewrite E in Hs; simpl in Hs.
      now apply IncidentStatus_eqb_eq.
    + intros s E; rewrite E in Hv; simpl in Hv.
      destruct (severity i), s; simpl in Hv; congruence.
    + intros t E Ht'; rewrite E, Ht' in Ht; simpl in Ht.
      now apply String.eqb_eq.
Qed.

Lemma firstn_plus {A : Type} (a b : nat) (l : list A) :
  firstn (a + b) l = firstn a l ++ firstn b (skipn a l).
Proof.
  revert l; induction a as [|a IH]; intros l; simpl; [reflexivity|].
  destruct l as [|x r]; simpl; [now rewrite firstn_nil|now rewrite IH].
Qed.

Lemma concat_pages {A : Type} (L n : nat) (l : list A) :
  List.concat (map (fun k => firstn L (skipn ((k - 1) * L) l)) (seq 1 n)) =
  firstn (n * L) l.
Proof.
  induction n as [|n IH]; [reflexivity|].
  rewrite seq_S, map_app, concat_app, IH; simpl.
  rewrite app_nil_r, Nat.sub_0_r.
  rewrite (Nat.add_comm L (n * L)). now rewrite firstn_plus.
Qed.

Lemma page_rows_eq q w :
  page_rows q w =
    firstn (Z.to_nat (limit q))
      (skipn (Z.to_nat ((page q - 1) * limit q))
         (Prisma.orderBy (sortBy q) (sortOrder q) (selected q w))).
Proof. reflexivity. Qed.

(** Rows with pairwise distinct sort keys are told apart by their keys. *)
Lemma distinct_keys_tell_rows_apart (key : Incident -> Z) rows a b :
  NoDup (map key rows) -> In a rows -> In b rows -> key a = key b -> a = b.
Proof.
  induction rows as [|row rest IH]; cbn [map]; intros Hnd Ha Hb E;
    [contradiction|].
  apply NoDup_cons_iff in Hnd as [Hfresh Hrest].
  destruct Ha as [<-|Ha], Hb as [<-|Hb]; auto.
  - exfalso; apply Hfresh. rewrite E. now apply in_map.
  - exfalso; apply Hfresh. rewrite <- E. now apply in_map.
Qed.

(** With pairwise distinct sort keys there is one arrangement of the rows
    in the requested order. *)
Lemma ordered_arrangement_is_unique f o rows1 :
  forall rows2,
    NoDup (map (Prisma.sort_key f) rows1) ->
    Permutation rows1 rows2 ->
    StronglySorted (fun a b => Prisma.before f o a b = true) rows1 ->
    StronglySorted (fun a b => Prisma.before f o a b = true) rows2 ->
    rows1 = rows2.
Proof.
  induction rows1 as [|a rest1 IH]; intros rows2 Hnd Hp H1 H2.
  - apply Permutation_nil in Hp. now symmetry.
  - destruct rows2 as [|b rest2];
      [apply Permutation_sym, Permutation_nil in Hp; discriminate|].
    assert (E : a = b).
    { assert (Ha : In a (b :: rest2))
        by (apply (Permutation_in _ Hp); now left).
      assert (Hb : In b (a :: rest1))
        by (apply (Permutation_in _ (Permutation_sym Hp)); now left).
      destruct Ha as [Ha|Ha]; [now symmetry|].
      destruct Hb as [Hb|Hb]; [exact Hb|].
      inversion H1 as [|? ? _ Hfa]; inversion H2 as [|? ? _ Hfb]; subst.
      rewrite Forall_forall in Hfa, Hfb.
      specialize (Hfa b Hb). specialize (Hfb a Ha).
      apply (distinct_keys_tell_rows_apart (Prisma.sort_key f) (a :: rest1));
        [exact Hnd|now left|now right|].
      unfold Prisma.before in Hfa, Hfb.
      destruct o; rewrite Z.leb_le in Hfa, Hfb; lia. }
    subst b. f_equal.
    cbn [map] in Hnd. apply NoDup_cons_iff in Hnd as [_ Hnd].
    inversion H1; inversion H2; subst.
    apply IH; auto. now apply Permutation_cons_inv in Hp.
Qed.

(** X8. Paging loses and repeats nothing where the order is determined:
    for limit >= 1 and selected incidents with pairwise distinct sort keys,
    the pages 1 to totalPages of a listing, one after the other, are the
    selected incidents, each once, in the one arrangement that the
    requested order allows. *)
Theorem pages_cover_the_listing q w r :
  1 <= limit q ->
  NoDup (map (Prisma.sort_key (sortBy q)) (selected q w)) ->
  fst (run (getIncidents q) w) = Resolved r ->
  Permutation
    (List.concat (map (fun k => page_rows (with_page (Z.of_nat k) q) w)
                 (seq 1 (Z.to_nat (pg_totalPages r)))))
    (selected q w) /\
  forall rows,
    Permutation rows (selected q w) ->
    StronglySorted
      (fun a b => Prisma.before (sortBy q) (sortOrder q) a b = true) rows ->
    List.concat (map (fun k => page_rows (with_page (Z.of_nat k) q) w)
                (seq 1 (Z.to_nat (pg_totalPages r)))) = rows.
Proof.
  intros Hl Hkeys Hr. rewrite getIncidents_run in Hr; simpl in Hr.
  injection Hr as <-. cbn [pg_totalPages].
  set (s := Prisma.orderBy (sortBy q) (sortOrder q) (selected q w)).
  assert (Hlen : List.length s = List.length (selected q w)).
  { apply Permutation_length, orderBy_perm. }
  rewrite <- Hlen.
  set (n := Z.to_nat (ceil_div (Z.of_nat (List.length s)) (limit q))).
  assert (E : List.concat (map (fun k => page_rows (with_page (Z.of_nat k) q) w)
                        (seq 1 n)) = s).
  { rewrite (map_ext_in _
               (fun k => firstn (Z.to_nat (limit q))
                           (skipn ((k - 1) * Z.to_nat (limit q)) s))).
    - rewrite concat_pages. apply firstn_all2.
      pose proof (ceil_div_spec (Z.of_nat (List.length s)) (limit q) ltac:(lia)).
      unfold n. nia.
    - intros k Hk. apply in_seq in Hk.
      rewrite page_rows_eq. cbn [with_page limit page sortBy sortOrder].
      change (selected (with_page (Z.of_nat k) q) w) with (selected q w).
      fold s. do 2 f_equal.
      rewrite Z2Nat.inj_mul by lia. f_equal. lia. }
  rewrite E. split; [apply orderBy_perm|].
  intros rows Hp Hs.
  apply (ordered_arrangement_is_unique (sortBy q) (sortOrder q)).
  - eapply Permutation_NoDup; [|exact Hkeys].
    apply Permutation_map, Permutation_sym, orderBy_perm.
  - eapply Permutation_trans; [apply orderBy_perm|].
    now apply Permutation_sym.
  - apply orderBy_sorted.
  - exact Hs.
Qed.

(* ------------------------------------------------------------------ *)
(** ** Reading, statistics and deletion *)

Lemma lookup_filter_other incidentId j l :
  j <> incidentId ->
  Prisma.lookup j (filter (fun i => negb (String.eqb (id i) incidentId)) l) =
  Prisma.lookup j l.
Proof.
  intros Hj; induction l as [|y r IH]; simpl; [reflexivity|].
  destruct (String.eqb (id y) incidentId) eqn:E; simpl.
  - apply String.eqb_eq in E.
    destruct (String.eqb (id y) j) eqn:E2; [|exact IH].
    apply String.eqb_eq in E2. congruence.
  - destruct (String.eqb (id y) j); [reflexivity|exact IH].
Qed.

Lemma lookup_filter_self incidentId l :
  Prisma.lookup incidentId
    (filter (fun i => negb (String.eqb (id i) incidentId)) l) = None.
Proof.
  induction l as [|y r IH]; simpl; [reflexivity|].
  destruct (String.eqb (id y) incidentId) eqn:E; simpl; [exact IH|].
  now rewrite E.
Qed.

Lemma deleteIncident_found incidentId w i :
  Prisma.lookup incidentId (incidents w) = Some i ->
  run (deleteIncident incidentId) w = (Resolved tt, after_delete incidentId w).
Proof.
  intros H; unfold deleteIncident.
  cbn [bind await run settle Prisma.incident_findUnique]. rewrite H.
  cbn [bind await run settle]. unfold Prisma.incident_delete. now rewrite H.
Qed.

Lemma deleteIncident_missing incidentId w :
  Prisma.lookup incidentId (incidents w) = None ->
  run (deleteIncident incidentId) w =
    (Rejected (PlainError "Incident not found"), w).
Proof.
  intros H; unfold deleteIncident.
  cbn [bind await run settle Prisma.incident_findUnique]. now rewrite H.
Qed.

(** X9. Deleting a stored incident resolves and cascades: afterwards the
    incident cannot be found, no vote and no note refers to it, every other
    incident is found as before, the votes and notes of other incidents
    are kept in their order, and nothing is emitted. *)
Theorem delete_cascades_to_votes_and_notes incidentId w i :
  Prisma.lookup incidentId (incidents w) = Some i ->
  exists w',
    run (deleteIncident incidentId) w = (Resolved tt, w') /\
    run (getIncidentById incidentId) w' = (Resolved None, w') /\
    (forall v, In v (votes w') <->
               In v (votes w) /\ vote_incidentId v <> incidentId) /\
    (forall n, In n (adminNotes w') <->
               In n (adminNotes w) /\ note_incidentId n <> incidentId) /\
    (forall j, j <> incidentId ->
               Prisma.lookup j (incidents w') = Prisma.lookup j (incidents w)) /\
    emissions (trace w') = emissions (trace w).
Proof.
  intros H. exists (after_delete incidentId w).
  split; [now apply deleteIncident_found with (i := i)|].
  split.
  { unfold getIncidentById; cbn [await run settle Prisma.incident_findUnique].
    cbn [after_delete incidents log set_adminNotes set_votes set_incidents].
    now rewrite lookup_filter_self. }
  split.
  { intros v; cbn [after_delete votes log set_adminNotes set_votes].
    rewrite filter_In, negb_true_iff, String.eqb_neq. tauto. }
  split.
  { intros n; cbn [after_delete adminNotes log set_adminNotes].
    rewrite filter_In, negb_true_iff, String.eqb_neq. tauto. }
  split.
  { intros j Hj.
    cbn [after_delete incidents log set_adminNotes set_votes set_incidents].
    now apply lookup_filter_other. }
  cbn [after_delete trace log]. rewrite emissions_app; simpl.
  now rewrite app_nil_r.
Qed.

Section DeletionResponses.

Variable env : Env.

(** X10. Deleting an incident that is not stored: the service rejects with
    the plain error "Incident not found" and changes nothing; the
    controller, for an authenticated caller, answers through the default
    branch of the error handler, so with status 500 and not 404, with that
    message outside production and the generic message in production.
    Without an authenticated caller the answer is 401 and the store is
    not touched, whether the incident exists or not. *)
Theorem delete_of_missing_incident_is_500 incidentId userId w :
  Js.truthy incidentId = true ->
  (Prisma.lookup incidentId (incidents w) = None ->
   run (deleteIncident incidentId) w =
     (Rejected (PlainError "Incident not found"), w) /\
   run (controller_deleteIncident env incidentId (Some userId)) w =
     (Resolved
        (match NODE_ENV env with
         | production =>
             failure 500 "An unexpected error occurred"
               (Some "An unexpected error occurred")
         | _ => failure 500 "Incident not found" (Some "Incident not found")
         end), w)) /\
  run (controller_deleteIncident env incidentId None) w =
    (Resolved (failure 401 "Authentication required"
                 (Some "Authentication required")), w).
Proof.
  intros Hid; split.
  - intros H; split; [now apply deleteIncident_missing|].
    unfold controller_deleteIncident; rewrite Hid; simpl negb; cbv iota.
    rewrite run_try_catch, run_bind, (deleteIncident_missing _ _ H).
    cbn [run errorHandler]. unfold default_response.
    destruct (NODE_ENV env); reflexivity.
  - unfold controller_deleteIncident; rewrite Hid; reflexivity.
Qed.

End DeletionResponses.

Lemma matches_status_is s i :
  Prisma.matches (where_status_is s) i = IncidentStatus_eqb (status i) s.
Proof. unfold Prisma.matches; simpl. now rewrite !andb_true_r. Qed.

Lemma count_status_partition l :
  Z.of_nat (List.length l) =
    count_status REPORTED l + count_status VERIFIED l +
    count_status IN_PROGRESS l + count_status RESOLVED l +
    count_status FLAGGED l.
Proof.
  unfold count_status; induction l as [|i r IH]; [reflexivity|].
  cbn [filter List.length]. destruct (status i); cbn [IncidentStatus_eqb List.length]; lia.
Qed.

(** X11. The statistics change nothing; total counts every stored incident,
    pending the REPORTED ones, active the IN_PROGRESS ones and resolved the
    RESOLVED ones. The three never add up to more than the total: what is
    missing from the sum is the number of VERIFIED and FLAGGED incidents. *)
Theorem stats_leave_out_verified_and_flagged w :
  exists s,
    run getStats w = (Resolved s, w) /\
    stats_total s = Z.of_nat (List.length (incidents w)) /\
    stats_pending s = count_status REPORTED (incidents w) /\
    stats_active s = count_status IN_PROGRESS (incidents w) /\
    stats_resolved s = count_status RESOLVED (incidents w) /\
    stats_total s - (stats_pending s + stats_active s + stats_resolved s) =
      count_status VERIFIED (incidents w) + count_status FLAGGED (incidents w).
Proof.
  eexists; split; [reflexivity|].
  cbn [stats_total stats_pending stats_active stats_resolved].
  assert (Hall : filter (Prisma.matches Prisma.where_all) (incidents w)
                 = incidents w).
  { apply forallb_filter_id, forallb_forall; reflexivity. }
  assert (Hs : forall s,
             Z.of_nat (List.length
                 (filter (Prisma.matches (where_status_is s)) (incidents w)))
             = count_status s (incidents w)).
  { intros s; unfold count_status. do 2 f_equal.
    apply filter_ext; intros i; apply matches_status_is. }
  rewrite Hall, !Hs.
  repeat (split; [reflexivity|]).
  rewrite (count_status_partition (incidents w)). lia.
Qed.

(* ------------------------------------------------------------------ *)
(** ** Administrative updates *)

Lemma emissions_log_update w i :
  emissions (trace (log (IncidentUpdated i) w)) = emissions (trace w).
Proof. simpl. rewrite emissions_app; simpl. now rewrite app_nil_r. Qed.

Lemma notify_update_run i w :
  run (bind getSocketService
         (fun socketService =>
            bind (if socketService then emitIncidentUpdate i else Pure tt)
              (fun _ => Pure i))) w =
    (Resolved i, after_emissions (emitted_update i w) w).
Proof.
  unfold emitted_update, getSocketService, call; cbn [bind run].
  destruct (socketServiceInstance w); reflexivity.
Qed.

Lemma after_status_tables st i w :
  votes (after_status st i w) = votes w /\
  adminNotes (after_status st i w) = adminNotes w /\
  users (after_status st i w) = users w /\
  now (after_status st i w) = now w /\
  socketServiceInstance (after_status st i w) = socketServiceInstance w.
Proof. repeat split. Qed.

Lemma adminNotes_after_emissions l w :
  adminNotes (after_emissions l w) = adminNotes w.
Proof. revert w; induction l as [|e r IH]; intros w; simpl; [|rewrite IH]; auto. Qed.

Lemma now_after_emissions l w : now (after_emissions l w) = now w.
Proof. revert w; induction l as [|e r IH]; intros w; simpl; [|rewrite IH]; auto. Qed.

Lemma await_incident_update_run incidentId d w old :
  Prisma.lookup incidentId (incidents w) = Some old ->
  run (await (Prisma.incident_update incidentId d)) w =
    (Resolved (Prisma.apply_update d old),
     log (IncidentUpdated (Prisma.apply_update d old))
       (set_incidents
          (Prisma.replace (Prisma.apply_update d old) (incidents w)) w)).
Proof.
  intros H; unfold await; cbn [run].
  now rewrite (incident_update_found _ _ _ _ H).
Qed.

Lemma adminNote_create_ok incidentId userId text w i :
  Prisma.known_user userId w = true ->
  Prisma.lookup incidentId (incidents w) = Some i ->
  Prisma.adminNote_create incidentId userId text w =
    (Resolved (new_note incidentId userId text w),
     after_notes [new_note incidentId userId text w] w).
Proof.
  intros Hu Hi; unfold Prisma.adminNote_create. now rewrite Hu, Hi.
Qed.

(** What [updateIncidentStatus] does once the row is written. *)
Lemma status_update_tail incidentId st adminId note row old w :
  Prisma.lookup incidentId (incidents w) = Some old ->
  (Js.truthy_opt note = true -> Prisma.known_user adminId w = true) ->
  run (bind
         (match note with
          | Some text =>
              if Js.truthy text
              then bind (await (Prisma.adminNote_create incidentId adminId
                                  ("Status changed to " ++ status_name st
                                   ++ ": " ++ text)%string))
                     (fun _ => Pure tt)
              else Pure tt
          | None => Pure tt
          end)
         (fun _ =>
            bind getSocketService
              (fun socketService =>
                 bind (if socketService then emitIncidentUpdate row else Pure tt)
                   (fun _ => Pure row)))) w =
    (Resolved row,
     after_emissions (emitted_update row w)
       (after_notes (recorded_note incidentId st adminId note w) w)).
Proof.
  intros Hi Hadmin. rewrite run_bind. unfold recorded_note.
  destruct note as [text|]; [destruct (Js.truthy text) eqn:Ht|].
  - rewrite run_bind. unfold await at 1; cbn [run].
    fold (status_note st text).
    rewrite (adminNote_create_ok _ _ _ _ _ (Hadmin Ht) Hi). cbn [settle run].
    now rewrite notify_update_run.
  - cbn [run]. now rewrite notify_update_run.
  - cbn [run]. now rewrite notify_update_run.
Qed.

Lemma adminNotes_after_notes l w :
  adminNotes (after_notes l w) = adminNotes w ++ l.
Proof.
  revert w; induction l as [|n r IH]; intros w; simpl.
  - now rewrite app_nil_r.
  - rewrite IH; simpl. now rewrite <- app_assoc.
Qed.

Lemma incidents_after_notes l w : incidents (after_notes l w) = incidents w.
Proof. revert w; induction l as [|n r IH]; intros w; simpl; [|rewrite IH]; auto. Qed.

Lemma votes_after_notes l w : votes (after_notes l w) = votes w.
Proof. revert w; induction l as [|n r IH]; intros w; simpl; [|rewrite IH]; auto. Qed.

Lemma emissions_after_notes l w :
  emissions (trace (after_notes l w)) = emissions (trace w).
Proof.
  revert w; induction l as [|n r IH]; intros w; simpl; [reflexivity|].
  rewrite IH; simpl. rewrite emissions_app; simpl. now rewrite app_nil_r.
Qed.

(** X12. A status update of a stored incident, by an administrator who is
    a known user whenever a non-empty note is given: whatever the old and
    the new status are, the call resolves with the row as stored, which
    has the new status and the time of the call as updatedAt and is
    otherwise the old row; a non-empty note is recorded as
    "Status changed to <status>: <note>", an absent or empty note records
    nothing; the update is emitted when the socket service is there. *)
Theorem status_update_takes_any_transition incidentId st adminId note w i :
  Prisma.lookup incidentId (incidents w) = Some i ->
  (Js.truthy_opt note = true -> Prisma.known_user adminId w = true) ->
  exists row w',
    run (updateIncidentStatus incidentId st adminId note) w = (Resolved row, w') /\
    Prisma.lookup incidentId (incidents w') = Some row /\
    status row = st /\ updatedAt row = now w /\
    same_report row i /\ severity row = severity i /\
    upvoteCount row = upvoteCount i /\
    adminNotes w' =
      adminNotes w ++ recorded_note incidentId st adminId note w /\
    votes w' = votes w /\
    emissions (trace w') = emissions (trace w) ++ emitted_update row w.
Proof.
  intros Hi Hadmin.
  assert (Hrow : Prisma.lookup incidentId (incidents (after_status st i w))
                 = Some (with_status st (now w) i)).
  { simpl. apply lookup_replace with (old := i); auto.
    change (id i = incidentId). now apply lookup_id with (l := incidents w). }
  exists (with_status st (now w) i).
  unfold updateIncidentStatus. rewrite run_bind.
  unfold Date_now, call; cbn [run].
  rewrite run_bind, (await_incident_update_run _ _ _ _ Hi).
  fold (with_status st (now w) i). fold (after_status st i w).
  rewrite (status_update_tail incidentId st adminId note _ _ _ Hrow Hadmin).
  eexists; split; [reflexivity|].
  rewrite incidents_after_emissions, adminNotes_after_emissions,
    votes_after_emissions, emissions_after_emissions.
  rewrite incidents_after_notes, adminNotes_after_notes, votes_after_notes,
    emissions_after_notes.
  split; [exact Hrow|].
  unfold after_status at 4. rewrite emissions_log_update.
  unfold same_report; repeat split.
Qed.

Lemma updateIncidentStatus_missing incidentId st adminId note w :
  Prisma.lookup incidentId (incidents w) = None ->
  run (updateIncidentStatus incidentId st adminId note) w =
    (Rejected Prisma.P2025, w).
Proof.
  intros H; unfold updateIncidentStatus, Date_now, call.
  cbn [bind await run settle]. unfold Prisma.incident_update. now rewrite H.
Qed.

Section StatusController.

Variable env : Env.

(** X13. The guards of the status endpoint, in the order in which they
    apply: an empty id is answered 400; then a request without an
    authenticated user 401; then a body whose status is not one of the
    five names, or whose note has more than 1000 characters, 400
    "Validation failed"; then an id that is not stored 404
    "Record not found". In each of these cases the world is left as it
    was. *)
Theorem status_endpoint_guards incidentId user body w :
  (Js.truthy incidentId = false ->
   run (controller_updateStatus env incidentId user body) w =
     (Resolved (failure 400 "Incident ID is required"
                  (Some "Incident ID is required")), w)) /\
  (Js.truthy incidentId = true -> user = None ->
   run (controller_updateStatus env incidentId user body) w =
     (Resolved (failure 401 "Authentication required"
                  (Some "Authentication required")), w)) /\
  (Js.truthy incidentId = true -> user <> None ->
   (match usb_status body with
    | Some s => status_of_name s = None
    | None => True
    end \/
    exists n, usb_note body = Some n /\ (1000 < String.length n)%nat) ->
   run (controller_updateStatus env incidentId user body) w =
     (Resolved (failure 400 "Validation failed" (Some "Validation failed")), w)) /\
  (Js.truthy incidentId = true -> user <> None ->
   forall st, updateStatusSchema_parse body = Resolved (st, usb_note body) ->
   Prisma.lookup incidentId (incidents w) = None ->
   run (controller_updateStatus env incidentId user body) w =
     (Resolved (failure 404 "Record not found" None), w)).
Proof.
  unfold controller_updateStatus.
  split; [intros ->; reflexivity|].
  split; [intros -> ->; reflexivity|].
  split.
  - intros -> Hu Hbad. destruct user as [userId|]; [|congruence].
    simpl negb; cbv iota.
    assert (Hp : exists issues,
               updateStatusSchema_parse body = Rejected (ZodError issues)).
    { unfold updateStatusSchema_parse.
      destruct Hbad as [Hs|(n & Hn & Hlen)].
      - destruct (usb_status body) as [s|]; [rewrite Hs|]; eauto.
      - rewrite Hn. apply Nat.leb_gt in Hlen. unfold issue; rewrite Hlen.
        destruct (match usb_status body with
                  | Some s => status_of_name s | None => None end);
          simpl; eauto. }
    destruct Hp as (issues & Hp).
    rewrite run_try_catch, Hp. reflexivity.
  - intros -> Hu st Hp Hmiss. destruct user as [userId|]; [|congruence].
    simpl negb; cbv iota.
    rewrite run_try_catch, Hp. cbn [settle bind fst snd].
    rewrite run_bind, (updateIncidentStatus_missing _ _ _ _ _ Hmiss).
    reflexivity.
Qed.

Lemma updateSeverity_found incidentId level w i :
  Prisma.lookup incidentId (incidents w) = Some i ->
  run (updateSeverity incidentId level) w =
    (Resolved (with_severity level (now w) i),
     after_emissions
       (emitted_update (with_severity level (now w) i) w)
       (log (IncidentUpdated (with_severity level (now w) i))
          (set_incidents
             (Prisma.replace (with_severity level (now w) i) (incidents w)) w))).
Proof.
  intros Hi. unfold updateSeverity. rewrite run_bind.
  unfold Date_now, call; cbn [run].
  rewrite run_bind, (await_incident_update_run _ _ _ _ Hi).
  fold (with_severity level (now w) i).
  now rewrite notify_update_run.
Qed.

(** X14. The severity endpoint: a level that is not LOW, MEDIUM or HIGH is
    answered 400 "Invalid severity level" and nothing changes. A valid
    level for a stored incident is answered 200; the stored row then has
    that severity and the time of the call as updatedAt, and its status,
    its counter and the rest of the report are as before; the update is
    emitted when the socket service is there; votes and notes are
    untouched. *)
Theorem severity_endpoint incidentId name w :
  Js.truthy incidentId = true -> Js.truthy name = true ->
  (severity_of_name name = None ->
   run (controller_updateSeverity env incidentId (Some name)) w =
     (Resolved (failure 400 "Invalid severity level"
                  (Some "Invalid severity level")), w)) /\
  (forall level i,
     severity_of_name name = Some level ->
     Prisma.lookup incidentId (incidents w) = Some i ->
     exists row w',
       run (controller_updateSeverity env incidentId (Some name)) w =
         (Resolved (ok 200 (Some row) ("Severity updated to " ++ name)), w') /\
       Prisma.lookup incidentId (incidents w') = Some row /\
       severity row = level /\ updatedAt row = now w /\
       status row = status i /\ upvoteCount row = upvoteCount i /\
       same_report row i /\
       votes w' = votes w /\ adminNotes w' = adminNotes w /\
       emissions (trace w') = emissions (trace w) ++ emitted_update row w).
Proof.
  intros Hid Hname. unfold controller_updateSeverity.
  rewrite Hid; cbn [negb orb Js.truthy_opt]; rewrite Hname; cbn [negb].
  split.
  - intros ->. reflexivity.
  - intros level i Hl Hi. rewrite Hl.
    rewrite run_try_catch, run_bind, (updateSeverity_found _ _ _ _ Hi).
    cbn [run].
    assert (Hn : severity_name level = name).
    { unfold severity_of_name in Hl.
      destruct (String.eqb name "LOW") eqn:E1;
        [apply String.eqb_eq in E1; inversion Hl; now subst|].
      destruct (String.eqb name "MEDIUM") eqn:E2;
        [apply String.eqb_eq in E2; inversion Hl; now subst|].
      destruct (String.eqb name "HIGH") eqn:E3;
        [apply String.eqb_eq in E3; inversion Hl; now subst|discriminate]. }
    rewrite Hn.
    do 2 eexists; split; [reflexivity|].
    rewrite incidents_after_emissions, votes_after_emissions,
      adminNotes_after_emissions, emissions_after_emissions,
      emissions_log_update.
    split.
    { simpl. apply lookup_replace with (old := i); auto.
      change (id i = incidentId). now apply lookup_id with (l := incidents w). }
    unfold same_report; repeat split.
Qed.

End StatusController.

(* ------------------------------------------------------------------ *)
(** ** Notes *)

(** X15. Adding a note never touches incidents or votes and never emits.
    It resolves exactly when the author is a known user and the incident
    is stored; then it returns the stored incident and appends one note
    with the given text, author and incident, dated now. Otherwise it is
    rejected and the world is as before. *)
Theorem note_is_added_quietly incidentId adminId text w r w' :
  run (addAdminNote incidentId adminId text) w = (r, w') ->
  incidents w' = incidents w /\ votes w' = votes w /\
  emissions (trace w') = emissions (trace w) /\
  match r with
  | Resolved i =>
      Prisma.known_user adminId w = true /\
      Prisma.lookup incidentId (incidents w) = Some i /\
      adminNotes w' = adminNotes w ++ [new_note incidentId adminId text w]
  | Rejected _ =>
      w' = w /\
      (Prisma.known_user adminId w = false \/
       Prisma.lookup incidentId (incidents w) = None)
  end.
Proof.
  unfold addAdminNote. rewrite run_bind. unfold await at 1; cbn [run].
  destruct (Prisma.known_user adminId w) eqn:Hu;
    [destruct (Prisma.lookup incidentId (incidents w)) as [i|] eqn:Hi|].
  - rewrite (adminNote_create_ok _ _ text _ _ Hu Hi). cbn [settle run].
    unfold getIncidentById. rewrite run_bind. unfold await; cbn [run].
    unfold Prisma.incident_findUnique.
    rewrite incidents_after_notes, Hi. cbn [settle run].
    intros [= <- <-].
    split; [reflexivity|]. split; [reflexivity|]. split; [|auto].
    simpl. rewrite emissions_app; simpl. now rewrite app_nil_r.
  - unfold Prisma.adminNote_create; rewrite Hu, Hi. cbn [negb settle run].
    intros [= <- <-]. repeat (split; auto).
  - unfold Prisma.adminNote_create; rewrite Hu. cbn [negb settle run].
    intros [= <- <-]. repeat (split; auto).
Qed.

(* ------------------------------------------------------------------ *)
(** ** More on upvotes *)

Section MoreUpvotes.

Variable env : Env.

(** X16. An upvote is all or nothing: when the call is rejected, the world
    is exactly as before (in particular no vote row is left behind), and
    the error is Prisma's "record not found" or a foreign-key violation.
    Run alone, the call never fails with the uniqueness violation. *)
Theorem rejected_upvote_changes_nothing incidentId userId w e w' :
  run (upvoteIncident env incidentId userId) w = (Rejected e, w') ->
  w' = w /\
  (e = Prisma.P2025 \/ e = Prisma.P2003 "userId" \/
   e = Prisma.P2003 "incidentId").
Proof.
  destruct (String.eqb userId "anonymous") eqn:Ha.
  - apply String.eqb_eq in Ha; subst userId.
    destruct (Prisma.lookup incidentId (incidents w)) as [i|] eqn:Hi.
    + rewrite (anonymous_upvote_run env _ _ _ Hi). discriminate.
    + unfold upvoteIncident; cbn [String.eqb Ascii.eqb Bool.eqb bind await run].
      unfold Prisma.incident_update; rewrite Hi. cbn [settle run].
      intros [= <- <-]; auto.
  - destruct (find (Prisma.same_vote userId incidentId) (votes w)) as [v|] eqn:Hv.
    + rewrite (repeated_upvote_run env _ _ _ _ Ha Hv). discriminate.
    + destruct (Prisma.known_user userId w) eqn:Hu;
        [destruct (Prisma.lookup incidentId (incidents w)) as [i|] eqn:Hi|].
      * rewrite (authenticated_upvote_run env _ _ _ _ Ha Hv Hu Hi). cbv zeta.
        destruct (reaches_threshold env (upvoted i)); discriminate.
      * unfold upvoteIncident; rewrite Ha.
        cbn [bind await run Prisma.vote_findUnique settle]; rewrite Hv.
        cbn [bind await run settle].
        unfold Prisma.transaction2, Prisma.vote_create.
        rewrite find_existsb, Hv, Hu, Hi. cbn [negb settle run].
        intros [= <- <-]; auto.
      * unfold upvoteIncident; rewrite Ha.
        cbn [bind await run Prisma.vote_findUnique settle]; rewrite Hv.
        cbn [bind await run settle].
        unfold Prisma.transaction2, Prisma.vote_create.
        rewrite find_existsb, Hv, Hu. cbn [negb settle run].
        intros [= <- <-]; auto.
Qed.

Lemma upvoted_iter n i :
  status (Nat.iter n upvoted i) = status i /\
  upvoteCount (Nat.iter n upvoted i) = upvoteCount i + Z.of_nat n /\
  same_report (Nat.iter n upvoted i) i.
Proof.
  induction n as [|n (Hs & Hc & Hr)].
  - simpl. unfold same_report. split; [reflexivity|]. split; [lia|].
    repeat split.
  - rewrite Nat.iter_succ.
    split; [exact Hs|]. split.
    + unfold upvoted at 1.
      cbn [Prisma.apply_update upvoteCount increment_upvotes
           Prisma.upd_upvoteCount_increment]. lia.
    + exact Hr.
Qed.

(** X17. Anonymous upvotes never verify. After any number n of anonymous
    upvotes of a stored incident, whatever the threshold, the stored row
    has the old status and the old counter plus n, no vote has been
    recorded and nothing has been emitted. *)
Theorem anonymous_upvotes_never_verify n incidentId w i :
  Prisma.lookup incidentId (incidents w) = Some i ->
  let w' := run_times n (upvoteIncident env incidentId "anonymous") w in
  exists i',
    Prisma.lookup incidentId (incidents w') = Some i' /\
    status i' = status i /\
    upvoteCount i' = upvoteCount i + Z.of_nat n /\
    same_report i' i /\
    votes w' = votes w /\
    emissions (trace w') = emissions (trace w).
Proof.
  intros Hi; cbv zeta. exists (Nat.iter n upvoted i).
  assert (H : Prisma.lookup incidentId
                (incidents (run_times n (upvoteIncident env incidentId "anonymous") w))
              = Some (Nat.iter n upvoted i) /\
              votes (run_times n (upvoteIncident env incidentId "anonymous") w)
              = votes w /\
              emissions (trace (run_times n
                                  (upvoteIncident env incidentId "anonymous") w))
              = emissions (trace w)).
  { revert w i Hi; induction n as [|n IH]; intros w i Hi.
    - simpl; auto.
    - cbn [run_times]. rewrite (anonymous_upvote_run env _ _ _ Hi). cbn [snd].
      pose proof (after_increment_lookup _ _ _ Hi) as H1.
      destruct (IH _ _ H1) as (Hl & Hv & He).
      rewrite Hl, Hv, He. split; [|split].
      + now rewrite Nat.iter_succ_r.
      + reflexivity.
      + unfold after_increment. now rewrite emissions_log_update. }
  destruct H as (Hl & Hv & He).
  destruct (upvoted_iter n i) as (Hs & Hc & Hr). auto 10.
Qed.

(** X18. A first upvote by an authenticated, known user on a stored
    incident whose status is not REPORTED is recorded and counted, but
    whatever the counter reaches, the status stays as it is and nothing is
    emitted. *)
Theorem upvote_of_handled_incident_keeps_status incidentId userId w i :
  String.eqb userId "anonymous" = false ->
  find (Prisma.same_vote userId incidentId) (votes w) = None ->
  Prisma.known_user userId w = true ->
  Prisma.lookup incidentId (incidents w) = Some i ->
  status i <> REPORTED ->
  exists w',
    run (upvoteIncident env incidentId userId) w =
      (Resolved {| up_incident := Some (upvoted i); alreadyVoted := false |}, w') /\
    Prisma.lookup incidentId (incidents w') = Some (upvoted i) /\
    status (upvoted i) = status i /\
    upvoteCount (upvoted i) = upvoteCount i + 1 /\
    votes w' = votes w ++ [new_vote userId incidentId w] /\
    emissions (trace w') = emissions (trace w).
Proof.
  intros Ha Hv Hu Hi Hs.
  rewrite (authenticated_upvote_run env _ _ _ _ Ha Hv Hu Hi). cbv zeta.
  assert (Hr : reaches_threshold env (upvoted i) = false).
  { unfold reaches_threshold; simpl.
    destruct (status i); simpl; congruence. }
  rewrite Hr. eexists; split; [reflexivity|].
  split; [apply (after_increment_lookup incidentId
                   (after_vote userId incidentId w) i Hi)|].
  repeat split.
  simpl. rewrite !emissions_app; simpl. now rewrite !app_nil_r.
Qed.

End MoreUpvotes.

(* ------------------------------------------------------------------ *)
(** ** Creating, then reading *)

Section ReadBack.

Variable env : Env.

Lemma controller_getIncidentById_run incidentId w :
  Js.truthy incidentId = true ->
  run (controller_getIncidentById env incidentId) w =
    (Resolved
       match Prisma.lookup incidentId (incidents w) with
       | Some i => ok_data i
       | None => failure 404 "Incident not found" (Some "Incident not found")
       end, w).
Proof.
  intros Hid; unfold controller_getIncidentById; rewrite Hid.
  cbn [negb]. rewrite run_try_catch, run_bind.
  unfold getIncidentById, await; cbn [run Prisma.incident_findUnique settle].
  destruct (Prisma.lookup incidentId (incidents w)); reflexivity.
Qed.

(** X19. An incident can be read back once it is created. For a creation
    whose upload (if any) succeeds and whose identifier is new and not
    empty: before the creation the identifier is answered 404
    "Incident not found"; afterwards the service finds the created row
    under it and the endpoint answers 200 with that row. Reading changes
    nothing. *)
Theorem created_incident_can_be_read data media url w :
  upload_answer w media url ->
  Prisma.lookup (uuids w (uuidCount w)) (incidents w) = None ->
  Js.truthy (uuids w (uuidCount w)) = true ->
  exists i w',
    run (createIncident env data media) w = (Resolved i, w') /\
    id i = uuids w (uuidCount w) /\
    run (controller_getIncidentById env (id i)) w =
      (Resolved (failure 404 "Incident not found" (Some "Incident not found")),
       w) /\
    run (getIncidentById (id i)) w' = (Resolved (Some i), w') /\
    run (controller_getIncidentById env (id i)) w' = (Resolved (ok_data i), w').
Proof.
  intros Hup Hfresh Hid.
  destruct (createIncident_run env data media url w Hup Hfresh)
    as (w' & Hrun & Hinc & _).
  exists (created_row env data url w), w'.
  assert (Hl : Prisma.lookup (uuids w (uuidCount w)) (incidents w')
               = Some (created_row env data url w)).
  { rewrite Hinc. now apply lookup_app_new. }
  split; [exact Hrun|]. split; [reflexivity|].
  change (id (created_row env data url w)) with (uuids w (uuidCount w)).
  rewrite !(controller_getIncidentById_run _ _ Hid), Hfresh, Hl.
  repeat split.
  unfold getIncidentById, await; cbn [run Prisma.incident_findUnique settle].
  now rewrite Hl.
Qed.

End ReadBack.

(* ------------------------------------------------------------------ *)
(** ** The error handler *)

(** X20. The error handler always answers a failure without data. In
    production a plain error, and a Prisma error whose code is neither
    P2002 nor P2025, is answered 500 with the fixed text
    "An unexpected error occurred": the message of the error is not passed
    on. Outside production the same errors are answered 500 with their own
    message, or "Internal server error" when that is empty. *)
Theorem error_handler_hides_messages_in_production env err :
  res_success (errorHandler env err) = false /\
  res_data (errorHandler env err) = None /\
  ((exists m, err = PlainError m) \/
   (exists code target m,
      err = PrismaClientKnownRequestError code target m /\
      code <> "P2002" /\ code <> "P2025") ->
   errorHandler env err =
     match NODE_ENV env with
     | production =>
         failure 500 "An unexpected error occurred"
           (Some "An unexpected error occurred")
     | _ =>
         if Js.truthy (error_message err)
         then failure 500 (error_message err) (Some (error_message err))
         else failure 500 "Internal server error" (Some "Internal server error")
     end).
Proof.
  split; [|split].
  - destruct err; try reflexivity.
    + cbn [errorHandler].
      destruct (String.eqb code "P2002"); [reflexivity|].
      destruct (String.eqb code "P2025"); reflexivity.
  - destruct err; try reflexivity.
    + cbn [errorHandler].
      destruct (String.eqb code "P2002"); [reflexivity|].
      destruct (String.eqb code "P2025"); reflexivity.
  - intros [(m & ->)|(code & target & m & -> & H1 & H2)].
    + cbn [errorHandler]. unfold default_response.
      destruct (NODE_ENV env); try reflexivity;
        destruct (Js.truthy (error_message (PlainError m))); reflexivity.
    + cbn [errorHandler].
      apply String.eqb_neq in H1, H2. rewrite H1, H2.
      unfold default_response.
      destruct (NODE_ENV env); try reflexivity;
        destruct (Js.truthy _); reflexivity.
Qed.

(* ------------------------------------------------------------------ *)
(** ** Validation of a report *)

Lemma issue_nil field message b : issue field message b = [] -> b = true.
Proof. destruct b; [reflexivity|discriminate]. Qed.

(** What the schema lets through. *)
Lemma createIncidentSchema_parse_sound b d :
  createIncidentSchema_parse b = Resolved d ->
  (1 <= String.length (body_incidentType b) <= 50)%nat /\
  In (Js.toUpperCase (body_incidentType b)) incidentTypes /\
  (10 <= String.length (body_description b) <= 2000)%nat /\
  (-90 <= body_latitude b <= 90)%R /\
  (-180 <= body_longitude b <= 180)%R /\
  d = {| in_incidentType := body_incidentType b;
         in_description := body_description b;
         in_latitude := body_latitude b;
         in_longitude := body_longitude b;
         in_severity :=
           match body_severity b with Some s => s | None => MEDIUM end |}.
Proof.
  unfold createIncidentSchema_parse.
  destruct (_ ++ _)%list as [|x r] eqn:E; [|discriminate].
  intros [= <-].
  repeat match type of E with
         | (_ ++ _)%list = [] => apply app_eq_nil in E; destruct E as [?H E]
         end.
  repeat match goal with
         | H : issue _ _ _ = [] |- _ => apply issue_nil in H
         end.
  repeat match goal with
         | H : Nat.leb _ _ = true |- _ => apply Nat.leb_le in H
         | H : _ && _ = true |- _ => apply andb_true_iff in H; destruct H
         | H : Js.Rleb _ _ = true |- _ => apply Rleb_true in H
         end.
  repeat split; auto.
  match goal with
  | H : existsb _ incidentTypes = true |- _ =>
      apply existsb_exists in H; destruct H as (t & Ht & Heq);
      apply String.eqb_eq in Heq; now rewrite Heq
  end.
Qed.

Section ValidatedCreation.

Variable env : Env.

Lemma createIncident_resolved data media w i w' :
  run (createIncident env data media) w = (Resolved i, w') ->
  exists url, i = created_row env data url w /\ In i (incidents w').
Proof.
  intros Hrun.
  assert (Hup : exists url, upload_answer w media url).
  { destruct media as [buffer|]; [|exists None; reflexivity].
    destruct (cloudinary w buffer) as [m|u p|] eqn:Hc.
    - exfalso. revert Hrun.
      unfold createIncident, uuidv4, call, uploadToCloudinary.
      cbn [bind await run settle cloudinary set_uuidCount]. rewrite Hc.
      discriminate.
    - exists (Some u); simpl; eauto.
    - exfalso. revert Hrun.
      unfold createIncident, uuidv4, call, uploadToCloudinary.
      cbn [bind await run settle cloudinary set_uuidCount]. rewrite Hc.
      discriminate. }
  destruct Hup as (url & Hup).
  destruct (Prisma.lookup (uuids w (uuidCount w)) (incidents w)) as [old|] eqn:Hf.
  - exfalso. revert Hrun.
    unfold createIncident, uuidv4, call. cbn [bind run].
    destruct media as [buffer|]; simpl in Hup.
    + destruct Hup as (u & p & Hc & ->).
      unfold uploadToCloudinary.
      cbn [bind await run settle cloudinary set_uuidCount]. rewrite Hc.
      cbn [bind await run settle secure_url].
      rewrite run_bind, checkForDuplicate_run.
      cbn [bind await run settle]. unfold Prisma.incident_create.
      cbn [Prisma.new_id incidents log set_uuidCount]. rewrite Hf.
      discriminate.
    + cbn [bind await run settle].
      rewrite run_bind, checkForDuplicate_run.
      cbn [bind await run settle]. unfold Prisma.incident_create.
      cbn [Prisma.new_id incidents log set_uuidCount]. rewrite Hf.
      discriminate.
  - destruct (createIncident_run env data media url w Hup Hf)
      as (w1 & Hrun1 & Hinc & _).
    rewrite Hrun1 in Hrun. injection Hrun as <- <-.
    exists url; split; [reflexivity|].
    rewrite Hinc. apply in_or_app; right; now left.
Qed.

(** X21. What the creation endpoint stores. Whenever it answers 201, the
    response carries an incident that is now stored and has: a latitude in
    [-90, 90] and a longitude in [-180, 180]; a type that is one of the
    nine known types, in upper case; counter 0; status REPORTED or FLAGGED;
    the severity of the body, MEDIUM when the body has none; and as
    description the text of the body, of 10 to 2000 characters, behind the
    duplicate marker exactly when the status is FLAGGED. *)
Theorem created_incident_is_well_formed body file w resp w' :
  run (controller_createIncident env body file) w = (Resolved resp, w') ->
  res_status resp = 201 ->
  exists i,
    res_data resp = Some i /\ In i (incidents w') /\
    (-90 <= latitude i <= 90)%R /\ (-180 <= longitude i <= 180)%R /\
    In (incidentType i) incidentTypes /\
    upvoteCount i = 0 /\
    severity i = match body_severity body with Some s => s | None => MEDIUM end /\
    (10 <= String.length (body_description body) <= 2000)%nat /\
    ((status i = REPORTED /\ description i = body_description body) \/
     (status i = FLAGGED /\
      description i =
        ("[POTENTIAL DUPLICATE] " ++ body_description body)%string)).
Proof.
  unfold controller_createIncident. rewrite run_try_catch, run_bind.
  destruct (createIncidentSchema_parse body) as [d|e] eqn:Hp.
  - cbn [settle run]. rewrite run_bind.
    destruct (run (createIncident env d file) w) as [[i|e] w1] eqn:Hrun.
    + cbn [run]. intros [= <- <-] _.
      destruct (createIncident_resolved _ _ _ _ _ Hrun) as (url & -> & Hin).
      destruct (createIncidentSchema_parse_sound _ _ Hp)
        as (_ & Hty & Hd & Hla & Hlo & ->).
      eexists; split; [reflexivity|]. split; [exact Hin|].
      unfold created_row;
        cbn [latitude longitude incidentType upvoteCount severity status
             description in_latitude in_longitude in_incidentType
             in_severity in_description].
      repeat (split; [assumption || reflexivity|]).
      destruct (isDuplicate _); [right|left]; split; reflexivity.
    + cbn [run]. intros [= <- <-] Hst. exfalso.
      (* the service rejects only with an upload error or P2002 *)
      assert (He : (exists m, e = PlainError m) \/ e = Prisma.P2002 ["id"]).
      { revert Hrun. unfold createIncident, uuidv4, call. cbn [bind run].
        destruct file as [buffer|].
        - unfold uploadToCloudinary.
          cbn [bind await run settle cloudinary set_uuidCount].
          destruct (cloudinary w buffer) as [m|u p|];
            cbn [bind await run settle secure_url];
            try (intros [= <- _]; left; eauto).
          rewrite run_bind, checkForDuplicate_run.
          cbn [bind await run settle]. unfold Prisma.incident_create.
          destruct (Prisma.lookup _ _); cbn [bind await run settle].
          + intros [= <- _]; now right.
          + cbn [getSocketService call bind run].
            destruct (socketServiceInstance _); discriminate.
        - cbn [bind await run settle].
          rewrite run_bind, checkForDuplicate_run.
          cbn [bind await run settle]. unfold Prisma.incident_create.
          destruct (Prisma.lookup _ _); cbn [bind await run settle].
          + intros [= <- _]; now right.
          + cbn [getSocketService call bind run].
            destruct (socketServiceInstance _); discriminate. }
      destruct He as [(m & ->)| ->].
      * revert Hst. cbn [errorHandler]. unfold default_response.
        destruct (NODE_ENV env); try discriminate;
          destruct (Js.truthy _); discriminate.
      * revert Hst. discriminate.
  - cbn [settle run]. intros [= <- <-] Hst. exfalso. revert Hst.
    assert (He : exists issues, e = ZodError issues).
    { revert Hp. unfold createIncidentSchema_parse.
      destruct (_ ++ _)%list; [discriminate|]. intros [= <-]; eauto. }
    destruct He as (issues & ->). discriminate.
Qed.

End ValidatedCreation.

(* ------------------------------------------------------------------ *)
(** ** Invariants of the store *)

(** *** Requests as trees of steps *)

Lemma keeps_bind (P : World -> Prop) {A B : Type} (p : Async A)
    (f : A -> Async B) :
  keeps P p -> (forall a, keeps P (f a)) -> keeps P (bind p f).
Proof.
  intros Hp Hf; induction p as [a|e|X op k IH|X op k IH]; simpl in *; auto;
    destruct Hp as [Hop Hk]; split; auto.
Qed.

Lemma keeps_await (P : World -> Prop) {A : Type}
    (op : World -> Outcome A * World) :
  (forall w, P w -> P (snd (op w))) -> keeps P (await op).
Proof. intros H; split; [exact H|]. intros [a|e]; exact I. Qed.

Lemma keeps_call (P : World -> Prop) {A : Type} (op : World -> A * World) :
  (forall w, P w -> P (snd (op w))) -> keeps P (call op).
Proof. intros H; split; [exact H|]. intros a; exact I. Qed.

Lemma keeps_run_among (P : World -> Prop) {A : Type} (p : Async A) :
  keeps P p ->
  forall others w,
    Forall (fun f => forall w, P w -> P (f w)) others ->
    P w -> P (snd (run_among others p w)).
Proof.
  induction p as [a|e|X op k IH|X op k IH]; intros Hk others w Hothers Hw;
    simpl in *; auto.
  - destruct Hk as [Hop Hk]. specialize (Hop w Hw).
    destruct (op w) as [x w1]; simpl in *. now apply IH.
  - destruct Hk as [Hop Hk].
    destruct others as [|f rest].
    + specialize (Hop w Hw). destruct (op w) as [x w1]; simpl in *.
      now apply IH.
    + inversion Hothers as [|? ? Hf Hrest]; subst.
      specialize (Hop (f w) (Hf w Hw)).
      destruct (op (f w)) as [x w1]; simpl in *. now apply IH.
Qed.

Lemma run_among_nil {A : Type} (p : Async A) (w : World) :
  run_among [] p w = run p w.
Proof.
  revert w; induction p as [a|e|X op k IH|X op k IH]; intros w; simpl; auto;
    destruct (op w); apply IH.
Qed.

Lemma keeps_run (P : World -> Prop) {A : Type} (p : Async A) (w : World) :
  keeps P p -> P w -> P (snd (run p w)).
Proof.
  intros Hk Hw. rewrite <- run_among_nil. now apply keeps_run_among.
Qed.

(** *** Lookups in a changed table *)

Lemma lookup_None_iff j l :
  Prisma.lookup j l = None <-> ~ In j (map id l).
Proof.
  induction l as [|y r IH]; simpl; [tauto|].
  destruct (String.eqb (id y) j) eqn:E.
  - apply String.eqb_eq in E. split; [discriminate|]. intros H; exfalso; auto.
  - apply String.eqb_neq in E. rewrite IH. tauto.
Qed.

Lemma map_id_replace row l : map id (Prisma.replace row l) = map id l.
Proof.
  induction l as [|y r IH]; simpl; [reflexivity|].
  destruct (String.eqb (id y) (id row)) eqn:E; simpl.
  - apply String.eqb_eq in E. now rewrite E.
  - now rewrite IH.
Qed.

Lemma lookup_replace_some j row l :
  Prisma.lookup j l <> None -> Prisma.lookup j (Prisma.replace row l) <> None.
Proof. rewrite !lookup_None_iff, map_id_replace. auto. Qed.

Lemma lookup_replace_other j row l :
  j <> id row ->
  Prisma.lookup j (Prisma.replace row l) = Prisma.lookup j l.
Proof.
  intros Hj; induction l as [|y r IH]; simpl; [reflexivity|].
  destruct (String.eqb (id y) (id row)) eqn:E; simpl.
  - apply String.eqb_eq in E.
    assert (E1 : String.eqb (id row) j = false) by (apply String.eqb_neq; auto).
    assert (E2 : String.eqb (id y) j = false) by (apply String.eqb_neq; congruence).
    now rewrite E1, E2.
  - destruct (String.eqb (id y) j); [reflexivity|exact IH].
Qed.

Lemma lookup_app_old j l r i :
  Prisma.lookup j l = Some i -> Prisma.lookup j (l ++ r) = Some i.
Proof.
  induction l as [|y t IH]; simpl; [discriminate|].
  destruct (String.eqb (id y) j); auto.
Qed.

Lemma lookup_app_cases j l row i :
  Prisma.lookup j (l ++ [row]) = Some i ->
  Prisma.lookup j l = Some i \/
  (Prisma.lookup j l = None /\ i = row /\ id row = j).
Proof.
  induction l as [|y t IH]; simpl.
  - destruct (String.eqb (id row) j) eqn:E; [|discriminate].
    apply String.eqb_eq in E. intros [= <-]; auto.
  - destruct (String.eqb (id y) j); auto.
Qed.

Lemma NoDup_map_filter {K V : Type} (key : V -> K) (keep : V -> bool)
    (rows : list V) (Hrows : NoDup (map key rows)) :
  NoDup (map key (filter keep rows)).
Proof.
  induction rows as [|row rest IH]; cbn [filter map]; [constructor|].
  cbn [map] in Hrows. apply NoDup_cons_iff in Hrows as [Hfresh Hrest].
  destruct (keep row); cbn [map]; [|now apply IH].
  apply NoDup_cons; [|now apply IH].
  rewrite in_map_iff. intros (other & Hkey & Hin).
  apply filter_In in Hin as [Hin _].
  apply Hfresh. rewrite <- Hkey. now apply in_map.
Qed.

Lemma NoDup_snoc {A : Type} (l : list A) (a : A) :
  NoDup l -> ~ In a l -> NoDup (l ++ [a]).
Proof.
  intros Hl Ha. apply (Permutation_NoDup (l := a :: l)).
  - apply Permutation_cons_append.
  - now constructor.
Qed.

Lemma votes_for_app j l v :
  votes_for j (l ++ [v]) =
    votes_for j l + (if String.eqb (vote_incidentId v) j then 1 else 0).
Proof.
  unfold votes_for. rewrite filter_app, length_app; simpl.
  destruct (String.eqb (vote_incidentId v) j); simpl; lia.
Qed.

Lemma votes_for_none j l :
  (forall v, In v l -> vote_incidentId v <> j) -> votes_for j l = 0.
Proof.
  intros H; unfold votes_for.
  replace (filter _ l) with (@nil Vote); [reflexivity|].
  symmetry. induction l as [|v r IH]; simpl; [reflexivity|].
  destruct (String.eqb (vote_incidentId v) j) eqn:E.
  - apply String.eqb_eq in E. exfalso. apply (H v); [now left|exact E].
  - apply IH. intros x Hx; apply H; now right.
Qed.

Lemma votes_for_filter_le j p l :
  votes_for j (filter p l) <= votes_for j l.
Proof.
  unfold votes_for. induction l as [|v r IH]; simpl; [lia|].
  destruct (p v); simpl; destruct (String.eqb (vote_incidentId v) j); simpl in *; lia.
Qed.

Lemma same_report_refl i : same_report i i.
Proof. unfold same_report; repeat split. Qed.

Lemma same_report_trans a b c :
  same_report a b -> same_report b c -> same_report a c.
Proof. unfold same_report; intuition congruence. Qed.

(** *** The atomic operations keep the store in order *)

Lemma consistent_tables w w' :
  incidents w' = incidents w -> votes w' = votes w ->
  adminNotes w' = adminNotes w -> consistent w -> consistent w'.
Proof. unfold consistent; intros -> -> ->; auto. Qed.

Lemma consistent_incident_create d w :
  consistent w -> consistent (snd (Prisma.incident_create d w)).
Proof.
  intros Hc; unfold Prisma.incident_create.
  destruct (Prisma.lookup (Prisma.new_id d) (incidents w)) eqn:Hf; [exact Hc|].
  destruct Hc as (H1 & H2 & H3 & H4 & H5).
  unfold consistent; cbn [snd incidents votes adminNotes log set_incidents].
  split; [|split; [exact H2|split; [|split]]].
  - rewrite map_app; simpl. apply NoDup_snoc; [exact H1|].
    now apply lookup_None_iff.
  - intros v Hv. specialize (H3 v Hv).
    destruct (Prisma.lookup (vote_incidentId v) (incidents w)) eqn:E; [|congruence].
    now rewrite (lookup_app_old _ _ _ _ E).
  - intros n Hn. specialize (H4 n Hn).
    destruct (Prisma.lookup (note_incidentId n) (incidents w)) eqn:E; [|congruence].
    now rewrite (lookup_app_old _ _ _ _ E).
  - intros j i Hl. apply lookup_app_cases in Hl.
    destruct Hl as [Hl|(Hn & -> & Hid)]; [now apply H5|].
    rewrite votes_for_none; [simpl; lia|].
    intros v Hv E. apply (H3 v Hv). now rewrite E.
Qed.

Lemma consistent_incident_update incidentId d w :
  0 <= match Prisma.upd_upvoteCount_increment d with Some n => n | None => 0 end ->
  consistent w -> consistent (snd (Prisma.incident_update incidentId d w)).
Proof.
  intros Hd Hc; unfold Prisma.incident_update.
  destruct (Prisma.lookup incidentId (incidents w)) as [old|] eqn:Hf; [|exact Hc].
  destruct Hc as (H1 & H2 & H3 & H4 & H5).
  unfold consistent; cbn [snd incidents votes adminNotes log set_incidents].
  split; [|split; [exact H2|split; [|split]]].
  - now rewrite map_id_replace.
  - intros v Hv. now apply lookup_replace_some, H3.
  - intros n Hn. now apply lookup_replace_some, H4.
  - intros j i Hl.
    pose proof (lookup_id _ _ _ Hf) as Hid.
    destruct (String.eqb j incidentId) eqn:E.
    + apply String.eqb_eq in E; subst j.
      rewrite (lookup_replace incidentId (incidents w) old
                 (Prisma.apply_update d old) Hf Hid) in Hl.
      injection Hl as <-. specialize (H5 _ _ Hf).
      cbn [Prisma.apply_update upvoteCount].
      destruct (Prisma.upd_upvoteCount_increment d); lia.
    + apply String.eqb_neq in E.
      rewrite lookup_replace_other in Hl; [now apply H5|].
      cbn [Prisma.apply_update id]. congruence.
Qed.

Lemma consistent_incident_delete incidentId w :
  consistent w -> consistent (snd (Prisma.incident_delete incidentId w)).
Proof.
  intros Hc; unfold Prisma.incident_delete.
  destruct (Prisma.lookup incidentId (incidents w)) as [old|] eqn:Hf; [|exact Hc].
  destruct Hc as (H1 & H2 & H3 & H4 & H5).
  unfold consistent;
    cbn [snd incidents votes adminNotes log set_incidents set_votes
         set_adminNotes].
  split; [|split; [|split; [|split]]].
  - now apply NoDup_map_filter.
  - now apply NoDup_map_filter.
  - intros v Hv. apply filter_In in Hv. destruct Hv as [Hv Hk].
    apply negb_true_iff, String.eqb_neq in Hk.
    rewrite lookup_filter_other by exact Hk. now apply H3.
  - intros n Hn. apply filter_In in Hn. destruct Hn as [Hn Hk].
    apply negb_true_iff, String.eqb_neq in Hk.
    rewrite lookup_filter_other by exact Hk. now apply H4.
  - intros j i Hl.
    destruct (String.eqb j incidentId) eqn:E.
    + apply String.eqb_eq in E; subst j.
      rewrite lookup_filter_self in Hl. discriminate.
    + apply String.eqb_neq in E. rewrite lookup_filter_other in Hl by exact E.
      eapply Z.le_trans; [apply votes_for_filter_le|now apply H5].
Qed.

Lemma consistent_adminNote_create incidentId userId text w :
  consistent w ->
  consistent (snd (Prisma.adminNote_create incidentId userId text w)).
Proof.
  intros Hc; unfold Prisma.adminNote_create.
  destruct (negb (Prisma.known_user userId w)); [exact Hc|].
  destruct (Prisma.lookup incidentId (incidents w)) as [i|] eqn:Hf; [|exact Hc].
  destruct Hc as (H1 & H2 & H3 & H4 & H5).
  unfold consistent; cbn [snd incidents votes adminNotes log set_adminNotes].
  repeat (split; [assumption|]). split; [|exact H5].
  intros n Hn. apply in_app_or in Hn. destruct Hn as [Hn|[<-|[]]]; [auto|].
  simpl. congruence.
Qed.

Lemma consistent_vote_transaction userId incidentId w :
  consistent w ->
  consistent
    (snd (Prisma.transaction2 (Prisma.vote_create userId incidentId)
            (Prisma.incident_update incidentId increment_upvotes) w)).
Proof.
  intros Hc.
  destruct (find (Prisma.same_vote userId incidentId) (votes w)) as [v|] eqn:Hv.
  { unfold Prisma.transaction2, Prisma.vote_create.
    now rewrite find_existsb, Hv. }
  destruct (Prisma.known_user userId w) eqn:Hu.
  2:{ unfold Prisma.transaction2, Prisma.vote_create.
      now rewrite find_existsb, Hv, Hu. }
  destruct (Prisma.lookup incidentId (incidents w)) as [i|] eqn:Hi.
  2:{ unfold Prisma.transaction2, Prisma.vote_create.
      now rewrite find_existsb, Hv, Hu, Hi. }
  rewrite (transaction_ok _ _ _ _ Hv Hu Hi).
  destruct Hc as (H1 & H2 & H3 & H4 & H5).
  pose proof (lookup_id _ _ _ Hi) as Hid.
  unfold consistent;
    cbn [snd after_increment after_vote incidents votes adminNotes log
         set_incidents set_votes].
  split; [|split; [|split; [|split]]].
  - now rewrite map_id_replace.
  - rewrite map_app; simpl. apply NoDup_snoc; [exact H2|].
    intros Hin. apply in_map_iff in Hin. destruct Hin as (x & Hk & Hx).
    assert (Hs : Prisma.same_vote userId incidentId x = true).
    { unfold vote_key, new_vote in Hk; simpl in Hk. injection Hk as Ha Hb.
      unfold Prisma.same_vote. now rewrite Ha, Hb, !String.eqb_refl. }
    pose proof (find_none _ _ Hv x Hx). congruence.
  - intros x Hx. apply lookup_replace_some.
    apply in_app_or in Hx. destruct Hx as [Hx|[<-|[]]]; [auto|].
    simpl. congruence.
  - intros n Hn. now apply lookup_replace_some, H4.
  - intros j r Hl. rewrite votes_for_app. cbn [new_vote vote_incidentId].
    destruct (String.eqb incidentId j) eqn:E.
    + apply String.eqb_eq in E; subst j.
      rewrite (lookup_replace incidentId (incidents w) i (upvoted i) Hi Hid) in Hl.
      injection Hl as <-. specialize (H5 _ _ Hi). simpl. lia.
    + apply String.eqb_neq in E.
      rewrite lookup_replace_other in Hl;
        [specialize (H5 _ _ Hl); lia|].
      unfold upvoted; cbn [Prisma.apply_update id]. congruence.
Qed.

(** *** The atomic operations lose and lower nothing *)

Lemma grows_refl w : grows w w.
Proof.
  intros j i H; exists i; split; [exact H|].
  split; [apply same_report_refl|lia].
Qed.

Lemma grows_trans a b c : grows a b -> grows b c -> grows a c.
Proof.
  intros H1 H2 j i H. destruct (H1 j i H) as (i1 & Hl1 & Hr1 & Hc1).
  destruct (H2 j i1 Hl1) as (i2 & Hl2 & Hr2 & Hc2).
  exists i2; split; [exact Hl2|].
  split; [now apply same_report_trans with i1|lia].
Qed.

Lemma grows_tables w w' : incidents w' = incidents w -> grows w w'.
Proof. intros E j i H; rewrite E. apply (grows_refl w j i H). Qed.

Lemma grows_incident_create d w : grows w (snd (Prisma.incident_create d w)).
Proof.
  unfold Prisma.incident_create.
  destruct (Prisma.lookup (Prisma.new_id d) (incidents w)); [apply grows_refl|].
  intros j i H; exists i. cbn [snd incidents log set_incidents].
  split; [now apply lookup_app_old|].
  split; [apply same_report_refl|lia].
Qed.

Lemma grows_incident_update incidentId d w :
  0 <= match Prisma.upd_upvoteCount_increment d with Some n => n | None => 0 end ->
  grows w (snd (Prisma.incident_update incidentId d w)).
Proof.
  intros Hd; unfold Prisma.incident_update.
  destruct (Prisma.lookup incidentId (incidents w)) as [old|] eqn:Hf;
    [|apply grows_refl].
  pose proof (lookup_id _ _ _ Hf) as Hid.
  intros j i H. cbn [snd incidents log set_incidents].
  destruct (String.eqb j incidentId) eqn:E.
  - apply String.eqb_eq in E; subst j.
    rewrite Hf in H; injection H as <-.
    exists (Prisma.apply_update d old).
    split; [now apply lookup_replace with (old := old)|].
    split; [unfold same_report; repeat split|].
    cbn [Prisma.apply_update upvoteCount].
    destruct (Prisma.upd_upvoteCount_increment d); lia.
  - apply String.eqb_neq in E. exists i.
    split; [|split; [apply same_report_refl|lia]].
    rewrite lookup_replace_other; [exact H|].
    cbn [Prisma.apply_update id]. congruence.
Qed.

Lemma grows_adminNote_create incidentId userId text w :
  grows w (snd (Prisma.adminNote_create incidentId userId text w)).
Proof.
  unfold Prisma.adminNote_create.
  destruct (negb (Prisma.known_user userId w)); [apply grows_refl|].
  destruct (Prisma.lookup incidentId (incidents w)); [|apply grows_refl].
  now apply grows_tables.
Qed.

Lemma grows_vote_transaction userId incidentId w :
  grows w
    (snd (Prisma.transaction2 (Prisma.vote_create userId incidentId)
            (Prisma.incident_update incidentId increment_upvotes) w)).
Proof.
  unfold Prisma.transaction2.
  destruct (Prisma.vote_create userId incidentId w) as [[v|e] w1] eqn:Hv;
    [|apply grows_refl].
  assert (Hw1 : incidents w1 = incidents w).
  { revert Hv. unfold Prisma.vote_create.
    destruct (existsb _ _); [discriminate|].
    destruct (negb _); [discriminate|].
    destruct (Prisma.lookup _ _); [|discriminate].
    now intros [= _ <-]. }
  pose proof (grows_incident_update incidentId increment_upvotes w1
                ltac:(simpl; lia)) as Hg.
  destruct (Prisma.incident_update incidentId increment_upvotes w1)
    as [[y|e] w2]; [|apply grows_refl].
  cbn [snd] in *. apply grows_trans with w1; [now apply grows_tables|exact Hg].
Qed.

(** *** Every operation of the service, step by step *)

Section ServiceSteps.

Variable env : Env.
Variable P : World -> Prop.

Hypothesis P_tables : forall w w',
  incidents w' = incidents w -> votes w' = votes w ->
  adminNotes w' = adminNotes w -> P w -> P w'.
Hypothesis P_create : forall d w, P w -> P (snd (Prisma.incident_create d w)).
Hypothesis P_update : forall incidentId d w,
  0 <= match Prisma.upd_upvoteCount_increment d with Some n => n | None => 0 end ->
  P w -> P (snd (Prisma.incident_update incidentId d w)).
Hypothesis P_note : forall incidentId userId text w,
  P w -> P (snd (Prisma.adminNote_create incidentId userId text w)).
Hypothesis P_vote : forall userId incidentId w,
  P w ->
  P (snd (Prisma.transaction2 (Prisma.vote_create userId incidentId)
            (Prisma.incident_update incidentId increment_upvotes) w)).

Lemma keeps_emit room event i : keeps P (call (emit room event i)).
Proof. apply keeps_call. intros w Hw. now apply (P_tables w). Qed.

Lemma keeps_notification (emitter : Incident -> Async unit) (i : Incident) :
  keeps P (emitter i) ->
  keeps P
    (bind getSocketService
       (fun socketService =>
          bind (if socketService then emitter i else Pure tt)
            (fun _ => Pure i))).
Proof.
  intros He. apply keeps_bind.
  - apply keeps_call. intros w Hw. exact Hw.
  - intros [|]; apply keeps_bind; simpl; auto.
Qed.

Lemma keeps_emitNewIncident i : keeps P (emitNewIncident i).
Proof. apply keeps_emit. Qed.

Lemma keeps_emitIncidentUpdate i : keeps P (emitIncidentUpdate i).
Proof.
  unfold emitIncidentUpdate. apply keeps_bind; [apply keeps_emit|].
  intros _; apply keeps_emit.
Qed.

Lemma keeps_uploadToCloudinary buffer folder :
  keeps P (uploadToCloudinary buffer folder).
Proof.
  apply keeps_await. intros w Hw.
  destruct (cloudinary w buffer); simpl; auto. now apply (P_tables w).
Qed.

Lemma keeps_checkForDuplicate ty lat lon :
  keeps P (checkForDuplicate env ty lat lon).
Proof.
  unfold checkForDuplicate. apply keeps_bind.
  - apply keeps_call; auto.
  - intros t. apply keeps_bind; [apply keeps_await; auto|].
    intros l; exact I.
Qed.

Lemma keeps_createIncident data media : keeps P (createIncident env data media).
Proof.
  unfold createIncident. apply keeps_bind.
  { apply keeps_call. intros w Hw. now apply (P_tables w). }
  intros newId. apply keeps_bind.
  { destruct media as [buffer|]; [|exact I].
    apply keeps_bind; [apply keeps_uploadToCloudinary|intros r; exact I]. }
  intros url. apply keeps_bind; [apply keeps_checkForDuplicate|].
  intros dup. apply keeps_bind; [apply keeps_await; intros; now apply P_create|].
  intros incident. apply keeps_notification, keeps_emitNewIncident.
Qed.

Lemma keeps_getIncidents query : keeps P (getIncidents query).
Proof.
  unfold getIncidents. apply keeps_bind; [apply keeps_await; auto|].
  intros l. apply keeps_bind; [apply keeps_await; auto|]. intros t; exact I.
Qed.

Lemma keeps_getIncidentById incidentId : keeps P (getIncidentById incidentId).
Proof. apply keeps_await; auto. Qed.

Lemma keeps_getStats : keeps P getStats.
Proof.
  unfold getStats.
  repeat (apply keeps_bind; [apply keeps_await; auto|intros ?]). exact I.
Qed.

Lemma keeps_updateIncidentStatus incidentId st adminId note :
  keeps P (updateIncidentStatus incidentId st adminId note).
Proof.
  unfold updateIncidentStatus. apply keeps_bind; [apply keeps_call; auto|].
  intros t. apply keeps_bind.
  { apply keeps_await; intros; apply P_update; simpl; auto; lia. }
  intros incident. apply keeps_bind.
  { destruct note as [text|]; [|exact I].
    destruct (Js.truthy text); [|exact I].
    apply keeps_bind; [apply keeps_await; intros; now apply P_note|].
    intros n; exact I. }
  intros _. apply keeps_notification, keeps_emitIncidentUpdate.
Qed.

Lemma keeps_addAdminNote incidentId adminId note :
  keeps P (addAdminNote incidentId adminId note).
Proof.
  unfold addAdminNote.
  apply keeps_bind; [apply keeps_await; intros; now apply P_note|].
  intros n. apply keeps_bind; [apply keeps_getIncidentById|].
  intros [i|]; exact I.
Qed.

Lemma keeps_updateSeverity incidentId level :
  keeps P (updateSeverity incidentId level).
Proof.
  unfold updateSeverity. apply keeps_bind; [apply keeps_call; auto|].
  intros t. apply keeps_bind.
  { apply keeps_await; intros; apply P_update; simpl; auto; lia. }
  intros incident. apply keeps_notification, keeps_emitIncidentUpdate.
Qed.

Lemma keeps_upvoteIncident incidentId userId :
  keeps P (upvoteIncident env incidentId userId).
Proof.
  unfold upvoteIncident. destruct (String.eqb userId "anonymous").
  - apply keeps_bind; [|intros i; exact I].
    apply keeps_await; intros; apply P_update; simpl; auto; lia.
  - apply keeps_bind; [apply keeps_await; auto|].
    intros [v|].
    + apply keeps_bind; [apply keeps_await; auto|]. intros i; exact I.
    + apply keeps_bind; [apply keeps_await; intros; now apply P_vote|].
      intros r. destruct (_ && _); [|exact I].
      apply keeps_bind.
      { apply keeps_await; intros; apply P_update; simpl; auto; lia. }
      intros verifiedIncident.
      pose proof (keeps_notification emitIncidentUpdate verifiedIncident
                    (keeps_emitIncidentUpdate verifiedIncident)) as H.
      apply keeps_bind.
      * apply keeps_call; auto.
      * intros [|]; apply keeps_bind; try exact I;
          [apply keeps_emitIncidentUpdate|intros ?; exact I|intros ?; exact I].
Qed.

Lemma keeps_deleteIncident incidentId :
  (forall w, P w -> P (snd (Prisma.incident_delete incidentId w))) ->
  keeps P (deleteIncident incidentId).
Proof.
  intros Hd. unfold deleteIncident.
  apply keeps_bind; [apply keeps_await; auto|].
  intros [i|]; [|exact I].
  apply keeps_bind; [apply keeps_await; exact Hd|]. intros x; exact I.
Qed.

(** Every request other than a deletion keeps [P]; a deletion does when
    the cascading delete does. *)
Lemma keeps_perform c :
  (is_delete c = true ->
   forall incidentId w, P w -> P (snd (Prisma.incident_delete incidentId w))) ->
  keeps P (perform env c).
Proof.
  intros Hd; destruct c; cbn [perform];
    try (apply keeps_bind; [|intros ?; exact I]).
  - apply keeps_createIncident.
  - apply keeps_getIncidents.
  - apply keeps_getIncidentById.
  - apply keeps_updateIncidentStatus.
  - apply keeps_addAdminNote.
  - apply keeps_updateSeverity.
  - apply keeps_deleteIncident. apply Hd. reflexivity.
  - apply keeps_upvoteIncident.
  - apply keeps_getStats.
Qed.

End ServiceSteps.

(** *** The invariants *)

Lemma keeps_consistent env c : keeps consistent (perform env c).
Proof.
  apply keeps_perform.
  - exact consistent_tables.
  - exact consistent_incident_create.
  - exact consistent_incident_update.
  - exact consistent_adminNote_create.
  - exact consistent_vote_transaction.
  - intros _; exact consistent_incident_delete.
Qed.

(** X22. Every request to the service keeps the store in order, also when
    other requests act between its steps: if the store is in order
    (unique incident ids, at most one vote per user and incident, votes and
    notes referring to stored incidents, every counter at least the number
    of votes of its incident) and whatever the others do keeps it so, then
    it is in order when the request has finished. *)
Theorem store_stays_consistent env c others w :
  Forall (fun f => forall w, consistent w -> consistent (f w)) others ->
  consistent w ->
  consistent (snd (run_among others (perform env c) w)).
Proof.
  intros Hothers Hw. apply keeps_run_among; auto. apply keeps_consistent.
Qed.

Lemma after_history_consistent env calls w :
  consistent w -> consistent (after_history env calls w).
Proof.
  revert w; induction calls as [|c r IH]; intros w Hw; simpl; [exact Hw|].
  apply IH. apply keeps_run; [apply keeps_consistent|exact Hw].
Qed.

Lemma lookup_of_stored i l :
  NoDup (map id l) -> In i l -> Prisma.lookup (id i) l = Some i.
Proof.
  induction l as [|y r IH]; simpl; [contradiction|].
  intros Hn [->|Hin].
  - now rewrite String.eqb_refl.
  - inversion Hn as [|? ? Hy Hr]; subst.
    destruct (String.eqb (id y) (id i)) eqn:E; [|now apply IH].
    apply String.eqb_eq in E. exfalso; apply Hy. rewrite E.
    now apply in_map.
Qed.

(** X23. After any history of requests to the service, each run to its
    end, on a store that started without incidents, votes and notes: no two
    stored votes have the same user and incident; every stored vote is for
    a stored incident; and every stored incident has a counter that is at
    least the number of votes stored for it, so never negative. *)
Theorem history_keeps_votes_counted env calls w :
  incidents w = [] -> votes w = [] -> adminNotes w = [] ->
  let w' := after_history env calls w in
  NoDup (map vote_key (votes w')) /\
  (forall v, In v (votes w') ->
     exists i, In i (incidents w') /\ id i = vote_incidentId v) /\
  (forall i, In i (incidents w') ->
     votes_for (id i) (votes w') <= upvoteCount i /\ 0 <= upvoteCount i).
Proof.
  intros Hi Hv Hn; cbv zeta.
  assert (H0 : consistent w).
  { unfold consistent; rewrite Hi, Hv, Hn; simpl.
    repeat split; try constructor; try contradiction; discriminate. }
  destruct (after_history_consistent env calls w H0) as (H1 & H2 & H3 & _ & H5).
  split; [exact H2|]. split.
  - intros v Hin. specialize (H3 v Hin).
    destruct (Prisma.lookup (vote_incidentId v) _) as [i|] eqn:E; [|congruence].
    exists i; split; [now apply lookup_In in E|now apply lookup_id in E].
  - intros i Hin.
    pose proof (H5 _ _ (lookup_of_stored _ _ H1 Hin)) as Hle.
    split; [exact Hle|]. unfold votes_for in Hle. lia.
Qed.

(** X24. No request other than a deletion loses or rewrites a report, or
    lowers a counter, also when other such requests act between its steps:
    every incident stored before is stored afterwards under the same id,
    with the same type, description, coordinates, media URL and time of
    creation, and with a counter that is not lower. *)
Theorem reports_are_kept_and_counters_never_drop env c others w :
  is_delete c = false ->
  Forall (fun f => forall w, grows w (f w)) others ->
  grows w (snd (run_among others (perform env c) w)).
Proof.
  intros Hc Hothers.
  apply (keeps_run_among (fun w1 => grows w w1)).
  - apply keeps_perform.
    + intros w1 w2 E _ _ H. apply grows_trans with w1; [exact H|].
      now apply grows_tables.
    + intros d w1 H. eapply grows_trans; [exact H|apply grows_incident_create].
    + intros j d w1 Hd H.
      eapply grows_trans; [exact H|now apply grows_incident_update].
    + intros j u t w1 H.
      eapply grows_trans; [exact H|apply grows_adminNote_create].
    + intros u j w1 H.
      eapply grows_trans; [exact H|apply grows_vote_transaction].
    + congruence.
  - eapply Forall_impl; [|exact Hothers].
    intros f Hf w1 H. eapply grows_trans; [exact H|apply Hf].
  - apply grows_refl.
Qed.

(* ------------------------------------------------------------------ *)
(** ** Requests that overlap *)

Section Overlap.

Variable env : Env.

(** X25. A verification overwrites what happened in between. Take a first
    upvote by an authenticated, known user that finds the incident REPORTED
    with the threshold reached by its own increment. Whatever another
    request [f] does to the world after the vote is counted and before the
    verification is written, as long as the incident is still stored, the
    request writes status VERIFIED over the row it finds, keeping the rest
    of that row, and returns it: a status that an administrator set in
    between is lost. *)
Theorem verification_overwrites_a_status_set_meanwhile
    incidentId userId w i f x :
  String.eqb userId "anonymous" = false ->
  find (Prisma.same_vote userId incidentId) (votes w) = None ->
  Prisma.known_user userId w = true ->
  Prisma.lookup incidentId (incidents w) = Some i ->
  status i = REPORTED ->
  VERIFICATION_THRESHOLD env <= upvoteCount i + 1 ->
  Prisma.lookup incidentId
    (incidents (f (after_increment i (after_vote userId incidentId w)))) = Some x ->
  exists w',
    run_among [fun w => w; fun w => w; f]
      (upvoteIncident env incidentId userId) w =
      (Resolved {| up_incident := Some (verified x); alreadyVoted := false |}, w') /\
    Prisma.lookup incidentId (incidents w') = Some (verified x) /\
    status (verified x) = VERIFIED /\
    severity (verified x) = severity x /\
    upvoteCount (verified x) = upvoteCount x /\
    updatedAt (verified x) = updatedAt x /\
    same_report (verified x) x.
Proof.
  intros Ha Hv Hu Hi Hs Hth Hx.
  unfold upvoteIncident; rewrite Ha.
  cbn [bind await run_among Prisma.vote_findUnique settle]; rewrite Hv.
  cbn [bind await run_among settle].
  rewrite (transaction_ok _ _ _ _ Hv Hu Hi).
  cbn [settle bind snd run_among].
  assert (Hr : IncidentStatus_eqb (status (upvoted i)) REPORTED
               && (VERIFICATION_THRESHOLD env <=? upvoteCount (upvoted i)) = true).
  { simpl. rewrite Hs. simpl. apply Z.leb_le. lia. }
  rewrite Hr. cbn [bind await run_among settle].
  rewrite (incident_update_found _ _ _ _ Hx).
  fold (verified x).
  cbn [settle bind run_among getSocketService call].
  match goal with
  | |- context [socketServiceInstance ?X] =>
      destruct (socketServiceInstance X)
  end; cbn [bind run_among emitIncidentUpdate call emit];
    (eexists; split; [reflexivity|]);
    (split; [cbn [incidents log set_incidents];
             apply lookup_replace with (old := x); auto;
             change (id x = incidentId);
             now apply lookup_id in Hx|]);
    unfold same_report; repeat split.
Qed.

(** X26. The duplicate check and the insert are two steps. A creation
    without media gets its status from what the candidate query saw, at
    the time the request read the clock: rows that other requests insert
    after the query and before the insert ([f2]) have no influence. In
    particular, when the query saw an empty table the report is stored as
    REPORTED with its description unmarked, whatever was inserted in
    between. *)
Theorem duplicate_check_misses_concurrent_inserts data w f1 f2 :
  Prisma.lookup (uuids w (uuidCount w))
    (incidents (f2 (f1 (after_uuid w)))) = None ->
  exists row w',
    run_among [f1; f2] (createIncident env data None) w = (Resolved row, w') /\
    incidents w' = incidents (f2 (f1 (after_uuid w))) ++ [row] /\
    id row = uuids w (uuidCount w) /\
    status row =
      (if isDuplicate
            (verdict_on env (now w) (incidents (f1 (after_uuid w)))
               (in_incidentType data) (in_latitude data) (in_longitude data))
       then FLAGGED else REPORTED) /\
    (incidents (f1 (after_uuid w)) = [] ->
     status row = REPORTED /\ description row = in_description data).
Proof.
  intros Hfresh.
  unfold createIncident, uuidv4, call, checkForDuplicate, Date_now, call.
  cbn [bind await run_among settle Prisma.incident_findMany].
  fold (after_uuid w).
  change (now (after_uuid w)) with (now w).
  fold (verdict_on env (now w) (incidents (f1 (after_uuid w)))
          (in_incidentType data) (in_latitude data) (in_longitude data)).
  unfold Prisma.incident_create. cbn [Prisma.new_id]. rewrite Hfresh.
  cbn [bind await run_among settle getSocketService call].
  match goal with
  | |- context [socketServiceInstance ?X] =>
      destruct (socketServiceInstance X)
  end; cbn [bind run_among emitNewIncident call emit];
    (do 2 eexists; split; [reflexivity|]);
    cbn [incidents log set_incidents id status description Prisma.new_row
         Prisma.new_id Prisma.new_status Prisma.new_description];
    (split; [reflexivity|]); (split; [reflexivity|]);
    (split; [reflexivity|]);
    intros E; unfold verdict_on; rewrite E; split; reflexivity.
Qed.

End Overlap.

(* ------------------------------------------------------------------ *)
(** ** The router and the paging fields *)

Lemma match_literal_segment s path params :
  match_path [Lit s] path = Some params ->
  exists seg, path = [seg] /\ Js.toUpperCase s = Js.toUpperCase seg.
Proof.
  destruct path as [|seg [|seg' path]]; cbn [match_path]; try discriminate.
  - destruct (String.eqb (Js.toUpperCase s) (Js.toUpperCase seg)) eqn:E;
      [|discriminate].
    intros _. exists seg. split; [reflexivity|].
    now apply String.eqb_eq.
  - destruct (String.eqb (Js.toUpperCase s) (Js.toUpperCase seg));
      discriminate.
Qed.

Lemma dispatch_single_segment seg :
  Js.truthy seg = true ->
  dispatch GET [seg] = Some (Endpoint_getIncidentById, [("id", seg)]).
Proof.
  intros T. unfold dispatch, router.
  cbn [dispatch_in route_method route_path route_endpoint Method_eqb match_path].
  now rewrite T.
Qed.

Section Routing.

Variable env : Env.

(** X27. The statistics route is never reached: the router hands no
    request to [getStats], because the route [/:id], added before
    [/stats], takes every GET request that [/stats] would match and
    reads the segment as an incident id; the request is answered 404
    unless an incident has that id. *)
Theorem stats_route_is_shadowed :
  (forall m path params,
     dispatch m path <> Some (Endpoint_getStats, params)) /\
  (forall path params,
     match_path [Lit "stats"] path = Some params ->
     exists seg,
       path = [seg] /\
       dispatch GET path = Some (Endpoint_getIncidentById, [("id", seg)]) /\
       forall w,
         Prisma.lookup seg (incidents w) = None ->
         run (controller_getIncidentById env seg) w =
           (Resolved
              (failure 404 "Incident not found" (Some "Incident not found")),
            w)).
Proof.
  assert (Hseg : forall path params,
             match_path [Lit "stats"] path = Some params ->
             exists seg, path = [seg] /\ Js.truthy seg = true).
  { intros path params H.
    destruct (match_literal_segment _ _ _ H) as (seg & -> & E).
    exists seg. split; [reflexivity|].
    destruct seg; [discriminate E|reflexivity]. }
  split.
  - intros m path params. unfold dispatch, router.
    destruct m;
      cbn [dispatch_in route_method route_path route_endpoint Method_eqb].
    + destruct (match_path [] path) eqn:E0; [discriminate|].
      destruct (match_path [Param "id"] path) eqn:E1; [discriminate|].
      destruct (match_path [Lit "stats"] path) eqn:E2; [|discriminate].
      destruct (Hseg _ _ E2) as (seg & -> & T).
      cbn [match_path] in E1. rewrite T in E1. discriminate.
    + destruct (match_path [] path); [discriminate|].
      destruct (match_path [Param "id"; Lit "upvote"] path); [discriminate|].
      destruct (match_path [Lit "broadcast"] path); discriminate.
    + destruct (match_path [Param "id"; Lit "status"] path); discriminate.
    + discriminate.
  - intros path params H.
    destruct (Hseg _ _ H) as (seg & -> & T).
    exists seg. split; [reflexivity|].
    split; [now apply dispatch_single_segment|].
    intros w L.
    rewrite (controller_getIncidentById_run env seg w T), L. reflexivity.
Qed.

End Routing.

Lemma page_field_parse_sound parseInt val n :
  page_field_parse parseInt val = Resolved n ->
  parsed_or parseInt 1 val = Some n /\ 1 <= n.
Proof.
  unfold page_field_parse.
  destruct (parsed_or parseInt 1 val) as [k|]; [|discriminate].
  destruct (issue _ _ (1 <=? k)) eqn:E; [|discriminate].
  intros [= <-]. apply issue_nil in E. split; [reflexivity|lia].
Qed.

Lemma limit_field_parse_sound parseInt val n :
  limit_field_parse parseInt val = Resolved n ->
  parsed_or parseInt 20 val = Some n /\ 1 <= n <= 100.
Proof.
  unfold limit_field_parse.
  destruct (parsed_or parseInt 20 val) as [k|]; [|discriminate].
  destruct (_ ++ _)%list eqn:E; [|discriminate].
  intros [= <-]. apply app_eq_nil in E. destruct E as [E1 E2].
  apply issue_nil in E1, E2. split; [reflexivity|lia].
Qed.

Lemma parsed_or_default parseInt d val :
  Js.truthy_opt val = false -> parsed_or parseInt d val = Some d.
Proof.
  destruct val as [s|]; [|reflexivity].
  cbn [Js.truthy_opt parsed_or]. now intros ->.
Qed.

(** X28. The paging fields of a listing: a query that passes validation
    has page >= 1 and 1 <= limit <= 100, a missing or empty field stands
    for page 1 and limit 20, a field that does not parse as a number is
    rejected, and the listing returns at most [limit], hence at most 100,
    rows. *)
Theorem validated_paging_bounds_the_page parseInt rawPage rawLimit q w :
  page_field_parse parseInt rawPage = Resolved (page q) ->
  limit_field_parse parseInt rawLimit = Resolved (limit q) ->
  1 <= page q /\ 1 <= limit q <= 100 /\
  (Js.truthy_opt rawPage = false -> page q = 1) /\
  (Js.truthy_opt rawLimit = false -> limit q = 20) /\
  (forall s, Js.truthy s = true -> parseInt s = None ->
     rawPage <> Some s /\ rawLimit <> Some s) /\
  (List.length (page_rows q w) <= Z.to_nat (limit q) <= 100)%nat.
Proof.
  intros Hp Hl.
  destruct (page_field_parse_sound _ _ _ Hp) as [Pp Bp].
  destruct (limit_field_parse_sound _ _ _ Hl) as [Pl Bl].
  split; [exact Bp|]. split; [exact Bl|].
  split; [|split; [|split]].
  - intros F. rewrite (parsed_or_default _ _ _ F) in Pp. congruence.
  - intros F. rewrite (parsed_or_default _ _ _ F) in Pl. congruence.
  - intros s T N. split; intros ->; cbn [parsed_or] in *; rewrite T, N in *;
      discriminate.
  - split; [|lia]. rewrite page_rows_eq. apply firstn_le_length.
Qed.

(* ------------------------------------------------------------------ *)
(** ** Concrete runs *)

Example toUpperCase_fire : Js.toUpperCase "fire" = "FIRE".
Proof. reflexivity. Qed.

Example ceil_div_25_10 : ceil_div 25 10 = 3.
Proof. reflexivity. Qed.

Example errorHandler_unique_violation :
  errorHandler default_env (Prisma.P2002 ["userId"; "incidentId"]) =
    failure 409 "A record with this userId, incidentId already exists" None.
Proof. reflexivity. Qed.

Example errorHandler_not_found :
  errorHandler default_env Prisma.P2025 = failure 404 "Record not found" None.
Proof. reflexivity. Qed.

Example upvote_of_missing_incident :
  fst (run (controller_upvoteIncident default_env "nowhere" None) sample_world) =
    Resolved (failure 404 "Record not found" None).
Proof. reflexivity. Qed.

Example fifth_upvote_emits_twice :
  List.length
    (emissions (trace (snd (run (upvoteIncident default_env "i1" "u1")
                              sample_world)))) = 2%nat.
Proof. reflexivity. Qed.

Example delete_cascades :
  let w1 := snd (run (upvoteIncident default_env "i1" "u1") sample_world) in
  let w2 := snd (run (deleteIncident "i1") w1) in
  votes w1 <> [] /\ votes w2 = [] /\ incidents w2 = [].
Proof. split; [discriminate|split; reflexivity]. Qed.

(* ------------------------------------------------------------------ *)
(** ** The properties at concrete inputs *)


Lemma upvote_verifies_at_threshold_witness :
  String.eqb "u1" "anonymous" = false /\
  find (Prisma.same_vote "u1" "i1") (votes sample_world) = None /\
  Prisma.known_user "u1" sample_world = true /\
  Prisma.lookup "i1" (incidents sample_world) = Some sample_incident /\
  status sample_incident = REPORTED /\
  socketServiceInstance sample_world = true /\
  exists r w',
    run (upvoteIncident default_env "i1" "u1") sample_world = (Resolved r, w') /\
    alreadyVoted r = false /\
    exists v, Prisma.lookup "i1" (incidents w') = Some v /\ status v = VERIFIED.
Proof.
  repeat (split; [reflexivity|]).
  destruct (upvote_verifies_at_threshold default_env "i1" "u1" sample_world
              sample_incident eq_refl eq_refl eq_refl eq_refl eq_refl eq_refl)
    as (r & w' & Hrun & Hav & _ & _ & H4 & _).
  exists r, w'. split; [exact Hrun|]. split; [exact Hav|].
  apply H4; reflexivity.
Defined.

Lemma upvote_twice_counts_once_witness :
  String.eqb "u1" "anonymous" = false /\
  exists r1 w1,
    run (upvoteIncident default_env "i1" "u1") sample_world = (Resolved r1, w1) /\
    run (upvoteIncident default_env "i1" "u1") w1 =
      (Resolved {| up_incident := Prisma.lookup "i1" (incidents w1);
                   alreadyVoted := true |}, w1).
Proof.
  split; [reflexivity|].
  eexists; eexists; split; [reflexivity|].
  exact (proj1 (upvote_twice_counts_once default_env "i1" "u1" sample_world
                  _ _ eq_refl eq_refl)).
Defined.

Lemma duplicates_are_flagged_not_blocked_witness :
  upload_answer sample_world None None /\
  Prisma.lookup (uuids sample_world (uuidCount sample_world))
    (incidents sample_world) = None /\
  exists i w',
    run (createIncident default_env sample_input None) sample_world =
      (Resolved i, w') /\
    incidents w' = incidents sample_world ++ [i].
Proof.
  repeat (split; [reflexivity|]).
  destruct (duplicates_are_flagged_not_blocked default_env sample_input None
              None sample_world eq_refl eq_refl)
    as (i & w' & Hrun & Hinc & _).
  exists i, w'; split; assumption.
Defined.

Lemma sample_incident_is_candidate :
  is_candidate default_env sample_world "fire" 40 (-75) sample_incident.
Proof.
  unfold is_candidate.
  cbn [incidents sample_world sample_incident incidentType createdAt latitude
       longitude status now DUPLICATE_TIME_MINUTES DUPLICATE_DISTANCE_METERS
       default_env].
  split; [now left|]. split; [reflexivity|]. split; [lia|].
  split; [lra|].
  split;
    [apply in_longitude_box_near; unfold latDelta;
     cbn [DUPLICATE_DISTANCE_METERS default_env]; lra|].
  split; discriminate.
Qed.

Lemma sample_incident_is_close :
  (distance_to 40 (-75) sample_incident
   <= DUPLICATE_DISTANCE_METERS default_env)%R.
Proof.
  unfold distance_to; cbn [latitude longitude sample_incident].
  rewrite calculateDistance_same. simpl; lra.
Qed.

Lemma detector_returns_first_close_candidate_witness :
  (-90 <= 40 <= 90)%R /\
  (0 < DUPLICATE_DISTANCE_METERS default_env)%R /\
  run (checkForDuplicate default_env "fire" 40%R (-75)%R) sample_world =
    (Resolved {| isDuplicate := true; duplicateOf := Some "i1";
                 reason := Some (SimilarWithin 200 10) |}, sample_world).
Proof.
  assert (Hlat : (-90 <= 40 <= 90)%R) by lra.
  assert (HD : (0 < DUPLICATE_DISTANCE_METERS default_env)%R) by (simpl; lra).
  split; [exact Hlat|]. split; [exact HD|].
  destruct (detector_returns_first_close_candidate default_env sample_world
              "fire" 40%R (-75)%R Hlat HD)
    as (cands & verdict & Hrun & _ & Hcand & _ & Hcompl & Hhit & _).
  rewrite Hrun. f_equal. f_equal.
  assert (Hmem : forall i, In i cands -> i = sample_incident).
  { intros i Hi. destruct (Hcand i Hi) as [[E|[]] _]. now symmetry. }
  destruct cands as [|x post].
  - destruct (Hcompl sample_incident sample_incident_is_candidate
                (fun H => H)) as [Hlen _].
    discriminate Hlen.
  - rewrite (Hmem x (or_introl eq_refl)) in Hhit.
    apply (Hhit [] sample_incident post eq_refl).
    + intros p [].
    + exact sample_incident_is_close.
Defined.

Lemma scenario_second_report_is_flagged_witness :
  incidents empty_world = [] /\
  String.length "Fire at dock" = 12%nat /\
  (10 <= String.length "Fire at the dock" <= 2000)%nat /\
  0 <= 30000 <= 60000 /\
  uuids empty_world (S (uuidCount empty_world))
    <> uuids empty_world (uuidCount empty_world) /\
  exists a b w1 w2,
    run (controller_createIncident default_env
           (scenario_A "Fire at dock") None) empty_world
      = (Resolved (ok 201 (Some a) "Incident reported successfully"), w1) /\
    status a = REPORTED /\ severity a = MEDIUM /\
    run (checkForDuplicate default_env "FIRE" 40.0005 (-75.0005))
      (later 30000 w1)
      = (Resolved {| isDuplicate := true; duplicateOf := Some (id a);
                     reason := Some (SimilarWithin 200 10) |},
         later 30000 w1) /\
    run (controller_createIncident default_env
           (scenario_B "Fire at the dock") None) (later 30000 w1)
      = (Resolved (ok 201 (Some b)
                     "Incident reported and flagged as potential duplicate"), w2) /\
    status b = FLAGGED /\ incidents w2 = [a; b].
Proof.
  assert (H1 : incidents empty_world = []) by reflexivity.
  assert (H2 : String.length "Fire at dock" = 12%nat) by reflexivity.
  assert (H3 : (10 <= String.length "Fire at the dock" <= 2000)%nat)
    by (simpl; lia).
  assert (H4 : 0 <= 30000 <= 60000) by lia.
  assert (H5 : uuids empty_world (S (uuidCount empty_world))
               <> uuids empty_world (uuidCount empty_world))
    by (vm_compute; discriminate).
  repeat (split; [assumption|]).
  destruct (scenario_second_report_is_flagged empty_world "Fire at dock"
              "Fire at the dock" 30000 H1 H2 H3 H4 H5)
    as (a & b & w1 & w2 & HA & Hsa & Hva & Hd & HB & Hsb & _ & Hinc).
  exists a, b, w1, w2. repeat split; assumption.
Defined.

Lemma bounding_box_needs_both_sides_witness :
  minLat sample_query = Some 50%R /\ maxLat sample_query = None /\
  run (getIncidents sample_query) sample_world =
    run (getIncidents (without_lat sample_query)) sample_world.
Proof.
  repeat (split; [reflexivity|]).
  destruct (bounding_box_needs_both_sides sample_query sample_world)
    as (r & _ & _ & H & _).
  apply H; right; reflexivity.
Defined.

Lemma anonymous_upvotes_always_count_witness :
  Js.truthy "i1" = true /\
  Prisma.lookup "i1" (incidents sample_world) = Some sample_incident /\
  exists r1 w1 r2 w2,
    run (controller_upvoteIncident default_env "i1" None) sample_world =
      (Resolved r1, w1) /\
    run (controller_upvoteIncident default_env "i1" None) w1 =
      (Resolved r2, w2) /\
    votes w2 = votes sample_world /\
    exists i2, Prisma.lookup "i1" (incidents w2) = Some i2 /\
               upvoteCount i2 = 6.
Proof.
  repeat (split; [reflexivity|]).
  destruct (anonymous_upvotes_always_count default_env "i1" sample_world
              sample_incident eq_refl eq_refl)
    as (r1 & w1 & r2 & w2 & H1 & H2 & _ & _ & _ & _ & _ & _ & _ & _ & _ & _
        & Hv & _ & Hl & Hc).
  exists r1, w1, r2, w2. repeat (split; [assumption|]).
  eexists; split; [exact Hl|exact Hc].
Defined.

Lemma media_is_stored_before_the_incident_witness :
  fst (run (uploadToCloudinary [] "incidents") media_down_world) =
    Rejected (PlainError "Cloudinary upload failed: timeout") /\
  exists w',
    run (createIncident default_env sample_input (Some [])) media_down_world =
      (Rejected (PlainError "Cloudinary upload failed: timeout"), w') /\
    incidents w' = incidents media_down_world /\
    trace w' = trace media_down_world.
Proof.
  split; [reflexivity|].
  destruct (proj1 (media_is_stored_before_the_incident default_env sample_input
                     [] media_down_world) _ eq_refl)
    as (w' & Hrun & Hinc & _ & _ & Htr).
  exists w'; repeat split; assumption.
Defined.

Lemma status_update_survives_note_failure_witness :
  Prisma.lookup "i1" (incidents sample_world) = Some sample_incident /\
  Js.truthy "handled" = true /\
  fst (Prisma.adminNote_create "i1" "ghost" (status_note RESOLVED "handled")
         (after_status RESOLVED sample_incident sample_world))
    = Rejected (Prisma.P2003 "userId") /\
  exists w',
    run (updateIncidentStatus "i1" RESOLVED "ghost" (Some "handled")) sample_world
      = (Rejected (Prisma.P2003 "userId"), w') /\
    (exists i, Prisma.lookup "i1" (incidents w') = Some i /\ status i = RESOLVED) /\
    adminNotes w' = [] /\ emissions (trace w') = [].
Proof.
  repeat (split; [reflexivity|]).
  destruct (status_update_survives_note_failure "i1" RESOLVED "ghost" "handled"
              sample_world sample_incident (Prisma.P2003 "userId")
              eq_refl eq_refl eq_refl)
    as (w' & Hrun & Hl & Hs & _ & Hn & He & _).
  exists w'. split; [exact Hrun|]. split; [eexists; split; eassumption|].
  split; assumption.
Defined.

(* ------------------------------------------------------------------ *)
(** ** Further concrete runs *)

Lemma distance_to_itself_is_zero_witness :
  (0 <= 200)%R /\ isWithinDistance 40 (-75) 40 (-75) 200 = true.
Proof.
  assert (H : (0 <= 200)%R) by lra.
  split; [exact H|].
  exact (proj2 (distance_to_itself_is_zero 40 (-75) 200) H).
Defined.

Lemma polar_incident_is_candidate :
  is_candidate default_env polar_world "fire" 90 10 polar_incident.
Proof.
  unfold is_candidate.
  cbn [incidents polar_world set_incidents polar_incident incidentType
       createdAt latitude longitude status now sample_world
       DUPLICATE_TIME_MINUTES DUPLICATE_DISTANCE_METERS default_env].
  split; [now left|]. split; [reflexivity|]. split; [lia|].
  split; [lra|].
  split; [|split; discriminate].
  right. cbn [DUPLICATE_DISTANCE_METERS default_env].
  split; [|lra].
  replace (90 * PI / 180)%R with (PI / 2)%R by field. apply cos_PI2.
Qed.

Lemma verdict_is_sound_witness :
  (-90 <= 90 <= 90)%R /\
  (0 < DUPLICATE_DISTANCE_METERS default_env)%R /\
  exists v,
    run (checkForDuplicate default_env "fire" 90 10) polar_world =
      (Resolved v, polar_world) /\
    isDuplicate v = true /\ duplicateOf v = Some "p1".
Proof.
  assert (Hlat : (-90 <= 90 <= 90)%R) by lra.
  assert (HD : (0 < DUPLICATE_DISTANCE_METERS default_env)%R) by (simpl; lra).
  split; [exact Hlat|]. split; [exact HD|].
  destruct (verdict_is_sound default_env polar_world "fire" 90 10 Hlat HD)
    as (v & Hrun & Hyes & Hno).
  exists v. split; [exact Hrun|].
  assert (Hdup : isDuplicate v = true).
  { destruct (isDuplicate v) eqn:E; [reflexivity|]. exfalso.
    destruct (Hno eq_refl) as (_ & _ & Hfar).
    assert (Hin : In polar_incident (candidates default_env polar_world
                                       "fire" 90 10)).
    { apply candidates_complete; [|exact polar_incident_is_candidate].
      etransitivity; [apply filter_length_le|]. simpl; lia. }
    specialize (Hfar _ Hin). unfold distance_to in Hfar.
    cbn [latitude longitude polar_incident] in Hfar.
    rewrite calculateDistance_at_pole in Hfar. simpl in Hfar. lra. }
  split; [exact Hdup|].
  destruct (Hyes Hdup) as (i & Hi & Hof & _).
  destruct Hi as [[<-|[]] _]. exact Hof.
Defined.

Lemma verdict_is_complete_up_to_20_witness :
  is_candidate default_env sample_world "fire" 40 (-75) sample_incident /\
  (distance_to 40 (-75) sample_incident
   <= DUPLICATE_DISTANCE_METERS default_env)%R /\
  exists v,
    run (checkForDuplicate default_env "fire" 40 (-75)) sample_world =
      (Resolved v, sample_world) /\
    isDuplicate v = true.
Proof.
  assert (Hlen : (List.length
                    (filter (Prisma.matches
                               (candidates_where default_env "fire" 40 (-75)
                                  (now sample_world)))
                       (incidents sample_world)) <= 20)%nat).
  { etransitivity; [apply filter_length_le|]. simpl; lia. }
  assert (Hd : (distance_to 40 (-75) sample_incident
                <= DUPLICATE_DISTANCE_METERS default_env)%R).
  { unfold distance_to; cbn [latitude longitude sample_incident].
    rewrite calculateDistance_same. simpl; lra. }
  split; [exact sample_incident_is_candidate|]. split; [exact Hd|].
  exact (verdict_is_complete_up_to_20 default_env sample_world "fire" 40 (-75)
           sample_incident Hlen sample_incident_is_candidate Hd).
Defined.

Lemma numbered_world_selected p l :
  List.length (selected (plain_query p l) (numbered_world 25)) = 25%nat.
Proof. reflexivity. Qed.

Lemma page_arithmetic_witness :
  1 <= page (plain_query 2 10) /\ 1 <= limit (plain_query 2 10) /\
  exists r,
    run (getIncidents (plain_query 2 10)) (numbered_world 25) =
      (Resolved r, numbered_world 25) /\
    pg_total r = 25 /\ List.length (pg_incidents r) = 10%nat /\
    pg_totalPages r = 3.
Proof.
  assert (H1 : 1 <= page (plain_query 2 10)) by (simpl; lia).
  assert (H2 : 1 <= limit (plain_query 2 10)) by (simpl; lia).
  split; [exact H1|]. split; [exact H2|].
  destruct (page_arithmetic (plain_query 2 10) (numbered_world 25) H1 H2)
    as (r & Hrun & Ht & Hl & Hp & _).
  rewrite numbered_world_selected in Ht.
  exists r. split; [exact Hrun|].
  cbn [page limit plain_query] in Hl, Hp.
  split; [rewrite Ht; reflexivity|]. split; lia.
Defined.

Lemma NoDup_of_nat l : NoDup l -> NoDup (map Z.of_nat l).
Proof.
  induction 1 as [|k rest Hk Hrest IH]; cbn [map]; constructor; [|exact IH].
  rewrite in_map_iff. intros (j & E & Hj).
  apply Nat2Z.inj in E. now subst j.
Qed.

Lemma numbered_world_keys p l :
  NoDup (map (Prisma.sort_key Prisma.createdAt_)
           (selected (plain_query p l) (numbered_world 25))).
Proof.
  change (NoDup (map Z.of_nat (seq 0 25))).
  apply NoDup_of_nat, seq_NoDup.
Qed.

Lemma pages_cover_the_listing_witness :
  1 <= limit (plain_query 1 10) /\
  NoDup (map (Prisma.sort_key (sortBy (plain_query 1 10)))
           (selected (plain_query 1 10) (numbered_world 25))) /\
  exists r,
    fst (run (getIncidents (plain_query 1 10)) (numbered_world 25)) =
      Resolved r /\
    pg_totalPages r = 3 /\
    Permutation
      (List.concat
         (map (fun k => page_rows (with_page (Z.of_nat k) (plain_query 1 10))
                          (numbered_world 25))
            (seq 1 (Z.to_nat (pg_totalPages r)))))
      (selected (plain_query 1 10) (numbered_world 25)).
Proof.
  assert (H1 : 1 <= limit (plain_query 1 10)) by (simpl; lia).
  split; [exact H1|]. split; [exact (numbered_world_keys 1 10)|].
  eexists. split; [rewrite getIncidents_run; reflexivity|].
  split;
    [cbn [pg_totalPages]; rewrite numbered_world_selected; reflexivity|].
  refine (proj1 (pages_cover_the_listing (plain_query 1 10) (numbered_world 25)
                   _ H1 (numbered_world_keys 1 10) _)).
  rewrite getIncidents_run; reflexivity.
Defined.

Lemma delete_cascades_to_votes_and_notes_witness :
  Prisma.lookup "i1" (incidents sample_world) = Some sample_incident /\
  exists w',
    run (deleteIncident "i1") sample_world = (Resolved tt, w') /\
    run (getIncidentById "i1") w' = (Resolved None, w').
Proof.
  split; [reflexivity|].
  destruct (delete_cascades_to_votes_and_notes "i1" sample_world
              sample_incident eq_refl) as (w' & Hrun & Hget & _).
  exists w'. split; assumption.
Defined.

Lemma delete_of_missing_incident_is_500_witness :
  Js.truthy "nowhere" = true /\
  Prisma.lookup "nowhere" (incidents sample_world) = None /\
  run (controller_deleteIncident default_env "nowhere" (Some "admin1"))
    sample_world =
    (Resolved (failure 500 "Incident not found" (Some "Incident not found")),
     sample_world).
Proof.
  split; [reflexivity|]. split; [reflexivity|].
  exact (proj2 (proj1 (delete_of_missing_incident_is_500 default_env "nowhere"
                         "admin1" sample_world eq_refl) eq_refl)).
Defined.

Lemma status_update_takes_any_transition_witness :
  Prisma.lookup "i1" (incidents sample_world) = Some sample_incident /\
  Prisma.known_user "admin1" sample_world = true /\
  exists row w',
    run (updateIncidentStatus "i1" RESOLVED "admin1" (Some "Crew left"))
      sample_world = (Resolved row, w') /\
    status row = RESOLVED /\
    adminNotes w' =
      [new_note "i1" "admin1" (status_note RESOLVED "Crew left") sample_world].
Proof.
  split; [reflexivity|]. split; [reflexivity|].
  destruct (status_update_takes_any_transition "i1" RESOLVED "admin1"
              (Some "Crew left") sample_world sample_incident eq_refl
              (fun _ => eq_refl))
    as (row & w' & Hrun & _ & Hst & _ & _ & _ & _ & Hn & _).
  exists row, w'. split; [exact Hrun|]. split; [exact Hst|exact Hn].
Defined.

Lemma status_endpoint_guards_witness :
  Js.truthy "i1" = true /\
  run (controller_updateStatus default_env "i1" None
         {| usb_status := Some "RESOLVED"; usb_note := None |}) sample_world =
    (Resolved (failure 401 "Authentication required"
                 (Some "Authentication required")), sample_world).
Proof.
  split; [reflexivity|].
  exact (proj1 (proj2 (status_endpoint_guards default_env "i1" None
                         {| usb_status := Some "RESOLVED"; usb_note := None |}
                         sample_world)) eq_refl eq_refl).
Defined.

Lemma severity_endpoint_witness :
  Js.truthy "i1" = true /\ Js.truthy "HIGH" = true /\
  severity_of_name "HIGH" = Some HIGH /\
  exists row w',
    run (controller_updateSeverity default_env "i1" (Some "HIGH")) sample_world =
      (Resolved (ok 200 (Some row) "Severity updated to HIGH"), w') /\
    severity row = HIGH /\ status row = REPORTED.
Proof.
  split; [reflexivity|]. split; [reflexivity|]. split; [reflexivity|].
  destruct (proj2 (severity_endpoint default_env "i1" "HIGH" sample_world
                     eq_refl eq_refl) HIGH sample_incident eq_refl eq_refl)
    as (row & w' & Hrun & _ & Hsev & _ & Hst & _).
  exists row, w'. split; [exact Hrun|]. split; [exact Hsev|exact Hst].
Defined.

Lemma note_is_added_quietly_witness :
  exists i w',
    run (addAdminNote "i1" "admin1" "Crew sent") sample_world =
      (Resolved i, w') /\
    incidents w' = incidents sample_world /\
    adminNotes w' = [new_note "i1" "admin1" "Crew sent" sample_world].
Proof.
  assert (E : run (addAdminNote "i1" "admin1" "Crew sent") sample_world =
              (Resolved sample_incident,
               snd (run (addAdminNote "i1" "admin1" "Crew sent") sample_world)))
    by reflexivity.
  destruct (note_is_added_quietly "i1" "admin1" "Crew sent" sample_world
              _ _ E) as (Hi & _ & _ & _ & _ & Hn).
  eexists _, _. split; [exact E|]. split; [exact Hi|exact Hn].
Defined.

Lemma rejected_upvote_changes_nothing_witness :
  run (upvoteIncident default_env "nowhere" "u1") sample_world =
    (Rejected (Prisma.P2003 "incidentId"), sample_world) /\
  (Prisma.P2003 "incidentId" = Prisma.P2025 \/
   Prisma.P2003 "incidentId" = Prisma.P2003 "userId" \/
   Prisma.P2003 "incidentId" = Prisma.P2003 "incidentId").
Proof.
  assert (E : run (upvoteIncident default_env "nowhere" "u1") sample_world =
              (Rejected (Prisma.P2003 "incidentId"), sample_world))
    by reflexivity.
  split; [exact E|].
  exact (proj2 (rejected_upvote_changes_nothing default_env "nowhere" "u1"
                  sample_world _ _ E)).
Defined.

Lemma anonymous_upvotes_never_verify_witness :
  Prisma.lookup "i1" (incidents sample_world) = Some sample_incident /\
  exists i',
    Prisma.lookup "i1"
      (incidents (run_times 3 (upvoteIncident default_env "i1" "anonymous")
                    sample_world)) = Some i' /\
    status i' = REPORTED /\ upvoteCount i' = 7 /\
    VERIFICATION_THRESHOLD default_env <= upvoteCount i'.
Proof.
  split; [reflexivity|].
  destruct (anonymous_upvotes_never_verify default_env 3 "i1" sample_world
              sample_incident eq_refl) as (i' & Hl & Hst & Hc & _).
  exists i'. split; [exact Hl|]. split; [exact Hst|].
  split; [exact Hc|]. rewrite Hc. simpl; lia.
Defined.

Lemma upvote_of_handled_incident_keeps_status_witness :
  String.eqb "u1" "anonymous" = false /\
  find (Prisma.same_vote "u1" "i1") (votes handled_world) = None /\
  Prisma.known_user "u1" handled_world = true /\
  Prisma.lookup "i1" (incidents handled_world) = Some handled_incident /\
  status handled_incident <> REPORTED /\
  VERIFICATION_THRESHOLD default_env <= upvoteCount (upvoted handled_incident) /\
  exists w',
    run (upvoteIncident default_env "i1" "u1") handled_world =
      (Resolved {| up_incident := Some (upvoted handled_incident);
                   alreadyVoted := false |}, w') /\
    status (upvoted handled_incident) = IN_PROGRESS.
Proof.
  assert (Hs : status handled_incident <> REPORTED) by discriminate.
  repeat (split; [reflexivity|]).
  split; [exact Hs|]. split; [simpl; lia|].
  destruct (upvote_of_handled_incident_keeps_status default_env "i1" "u1"
              handled_world handled_incident eq_refl eq_refl eq_refl eq_refl Hs)
    as (w' & Hrun & _ & Hst & _).
  exists w'. split; [exact Hrun|]. rewrite Hst. reflexivity.
Defined.

Lemma created_incident_can_be_read_witness :
  upload_answer sample_world None None /\
  Prisma.lookup (uuids sample_world (uuidCount sample_world))
    (incidents sample_world) = None /\
  Js.truthy (uuids sample_world (uuidCount sample_world)) = true /\
  exists i w',
    run (createIncident default_env sample_input None) sample_world =
      (Resolved i, w') /\
    run (controller_getIncidentById default_env (id i)) w' =
      (Resolved (ok_data i), w').
Proof.
  assert (H1 : upload_answer sample_world None None) by reflexivity.
  split; [exact H1|]. split; [reflexivity|]. split; [reflexivity|].
  destruct (created_incident_can_be_read default_env sample_input None None
              sample_world H1 eq_refl eq_refl)
    as (i & w' & Hrun & _ & _ & _ & Hget).
  exists i, w'. split; [exact Hrun|exact Hget].
Defined.

Lemma error_handler_hides_messages_in_production_witness :
  errorHandler
    {| NODE_ENV := production; VERIFICATION_THRESHOLD := 5;
       DUPLICATE_DISTANCE_METERS := 200; DUPLICATE_TIME_MINUTES := 10 |}
    (PlainError "connect ECONNREFUSED 10.0.0.5:5432") =
    failure 500 "An unexpected error occurred"
      (Some "An unexpected error occurred").
Proof.
  exact (proj2 (proj2 (error_handler_hides_messages_in_production
                         {| NODE_ENV := production; VERIFICATION_THRESHOLD := 5;
                            DUPLICATE_DISTANCE_METERS := 200;
                            DUPLICATE_TIME_MINUTES := 10 |}
                         (PlainError "connect ECONNREFUSED 10.0.0.5:5432")))
           (or_introl (ex_intro _ _ eq_refl))).
Defined.

Lemma sample_report_created :
  exists i w',
    run (controller_createIncident default_env (scenario_A "Fire at dock") None)
      empty_world =
      (Resolved (ok 201 (Some i) (creation_message i)), w').
Proof.
  destruct (createIncident_run default_env
              {| in_incidentType := "FIRE"; in_description := "Fire at dock";
                 in_latitude := 40; in_longitude := -75;
                 in_severity := MEDIUM |} None None empty_world
              eq_refl eq_refl) as (w' & Hrun & _).
  eexists _, w'.
  apply controller_createIncident_run with (2 := Hrun).
  apply (createIncidentSchema_parse_valid (scenario_A "Fire at dock"));
    cbn [scenario_A body_incidentType body_description body_latitude
         body_longitude]; try (simpl; lia); try lra.
Qed.

Lemma created_incident_is_well_formed_witness :
  exists resp w',
    run (controller_createIncident default_env (scenario_A "Fire at dock") None)
      empty_world = (Resolved resp, w') /\
    res_status resp = 201 /\
    exists i,
      res_data resp = Some i /\ In i (incidents w') /\
      In (incidentType i) incidentTypes /\ upvoteCount i = 0 /\
      severity i = MEDIUM.
Proof.
  destruct sample_report_created as (i0 & w' & Hrun).
  exists (ok 201 (Some i0) (creation_message i0)), w'.
  split; [exact Hrun|]. split; [reflexivity|].
  destruct (created_incident_is_well_formed default_env
              (scenario_A "Fire at dock") None empty_world _ _ Hrun eq_refl)
    as (i & Hd & Hin & _ & _ & Hty & Hc & Hsev & _).
  exists i. repeat (split; [assumption|]). exact Hsev.
Defined.

Lemma sample_world_consistent : consistent sample_world.
Proof.
  unfold consistent; cbn [incidents votes adminNotes sample_world map].
  split; [constructor; [intros []|constructor]|].
  split; [constructor|].
  split; [intros v []|]. split; [intros n []|].
  intros j i H. unfold votes_for; cbn [filter List.length Z.of_nat].
  unfold Prisma.lookup in H; cbn [find] in H.
  destruct (String.eqb (id sample_incident) j); [|discriminate].
  injection H as <-. simpl; lia.
Qed.

Lemma store_stays_consistent_witness :
  consistent sample_world /\
  consistent
    (snd (run_among [after_history default_env [CallUpvote "i1" "admin1"]]
            (perform default_env (CallUpvote "i1" "u1")) sample_world)).
Proof.
  split; [exact sample_world_consistent|].
  apply (store_stays_consistent default_env (CallUpvote "i1" "u1")
           [after_history default_env [CallUpvote "i1" "admin1"]] sample_world).
  - constructor; [|constructor].
    intros w. apply after_history_consistent.
  - exact sample_world_consistent.
Defined.

Lemma history_keeps_votes_counted_witness :
  incidents empty_world = [] /\ votes empty_world = [] /\
  adminNotes empty_world = [] /\
  NoDup
    (map vote_key
       (votes
          (after_history default_env
             [CallCreate sample_input None; CallUpvote "uuid-0" "u1";
              CallUpvote "uuid-0" "u1"; CallUpvote "uuid-0" "anonymous";
              CallDelete "uuid-0"]
             empty_world))).
Proof.
  repeat (split; [reflexivity|]).
  exact (proj1 (history_keeps_votes_counted default_env
                  [CallCreate sample_input None; CallUpvote "uuid-0" "u1";
                   CallUpvote "uuid-0" "u1"; CallUpvote "uuid-0" "anonymous";
                   CallDelete "uuid-0"]
                  empty_world eq_refl eq_refl eq_refl)).
Defined.

Lemma reports_are_kept_and_counters_never_drop_witness :
  is_delete (CallUpvote "i1" "u1") = false /\
  grows sample_world
    (snd (run_among [later 1000] (perform default_env (CallUpvote "i1" "u1"))
            sample_world)).
Proof.
  split; [reflexivity|].
  apply (reports_are_kept_and_counters_never_drop default_env
           (CallUpvote "i1" "u1") [later 1000] sample_world eq_refl).
  constructor; [|constructor].
  intros w. now apply grows_tables.
Defined.

Lemma verification_overwrites_a_status_set_meanwhile_witness :
  String.eqb "u1" "anonymous" = false /\
  find (Prisma.same_vote "u1" "i1") (votes sample_world) = None /\
  Prisma.known_user "u1" sample_world = true /\
  Prisma.lookup "i1" (incidents sample_world) = Some sample_incident /\
  status sample_incident = REPORTED /\
  VERIFICATION_THRESHOLD default_env <= upvoteCount sample_incident + 1 /\
  Prisma.lookup "i1"
    (incidents
       (rival_status "i1" RESOLVED "admin1"
          (after_increment sample_incident
             (after_vote "u1" "i1" sample_world)))) =
    Some (with_status RESOLVED 2000 (upvoted sample_incident)) /\
  exists w',
    run_among [fun w => w; fun w => w; rival_status "i1" RESOLVED "admin1"]
      (upvoteIncident default_env "i1" "u1") sample_world =
      (Resolved
         {| up_incident :=
              Some (verified (with_status RESOLVED 2000
                                (upvoted sample_incident)));
            alreadyVoted := false |}, w') /\
    status (verified (with_status RESOLVED 2000 (upvoted sample_incident))) =
      VERIFIED.
Proof.
  assert (H6 : VERIFICATION_THRESHOLD default_env
               <= upvoteCount sample_incident + 1) by (simpl; lia).
  do 5 (split; [reflexivity|]).
  split; [exact H6|]. split; [reflexivity|].
  destruct (verification_overwrites_a_status_set_meanwhile default_env
              "i1" "u1" sample_world sample_incident
              (rival_status "i1" RESOLVED "admin1")
              (with_status RESOLVED 2000 (upvoted sample_incident))
              eq_refl eq_refl eq_refl eq_refl eq_refl H6 eq_refl)
    as (w' & Hrun & _ & Hst & _).
  exists w'. split; [exact Hrun|exact Hst].
Defined.

Lemma duplicate_check_misses_concurrent_inserts_witness :
  Prisma.lookup (uuids empty_world (uuidCount empty_world))
    (incidents
       (rival_creation default_env sample_input (after_uuid empty_world))) =
    None /\
  exists row w',
    run_among [fun w => w; rival_creation default_env sample_input]
      (createIncident default_env sample_input None) empty_world =
      (Resolved row, w') /\
    status row = REPORTED /\
    incidents w' =
      (incidents
         (rival_creation default_env sample_input (after_uuid empty_world))
       ++ [row])%list.
Proof.
  assert (H : Prisma.lookup (uuids empty_world (uuidCount empty_world))
                (incidents
                   (rival_creation default_env sample_input
                      (after_uuid empty_world))) = None) by reflexivity.
  split; [exact H|].
  destruct (duplicate_check_misses_concurrent_inserts default_env sample_input
              empty_world (fun w => w)
              (rival_creation default_env sample_input) H)
    as (row & w' & Hrun & Hinc & _ & _ & Hst).
  exists row, w'. split; [exact Hrun|].
  split; [exact (proj1 (Hst eq_refl))|exact Hinc].
Defined.

Lemma stats_route_is_shadowed_witness :
  match_path [Lit "stats"] ["stats"] = Some [] /\
  dispatch GET ["stats"] = Some (Endpoint_getIncidentById, [("id", "stats")]) /\
  run (controller_getIncidentById default_env "stats") sample_world =
    (Resolved (failure 404 "Incident not found" (Some "Incident not found")),
     sample_world).
Proof.
  assert (H : match_path [Lit "stats"] ["stats"] = Some []) by reflexivity.
  split; [exact H|].
  destruct (proj2 (stats_route_is_shadowed default_env) ["stats"] [] H)
    as (seg & E & Hd & Hrun).
  injection E as <-.
  split; [exact Hd|]. exact (Hrun sample_world eq_refl).
Defined.

Lemma validated_paging_bounds_the_page_witness :
  page_field_parse sample_parseInt (Some "2") =
    Resolved (page (plain_query 2 50)) /\
  limit_field_parse sample_parseInt (Some "50") =
    Resolved (limit (plain_query 2 50)) /\
  (List.length (page_rows (plain_query 2 50) (numbered_world 25)) <= 100)%nat.
Proof.
  split; [reflexivity|]. split; [reflexivity|].
  destruct (validated_paging_bounds_the_page sample_parseInt (Some "2")
              (Some "50") (plain_query 2 50) (numbered_world 25)
              eq_refl eq_refl) as (_ & _ & _ & _ & _ & H).
  lia.
Defined.

Lemma listing_is_ordered_and_filtered_witness :
  exists r,
    run (getIncidents (plain_query 1 10)) (numbered_world 25) =
      (Resolved r, numbered_world 25) /\
    forall i, In i (pg_incidents r) -> In i (incidents (numbered_world 25)).
Proof.
  destruct (listing_is_ordered_and_filtered (plain_query 1 10)
              (numbered_world 25)) as (r & Hrun & _ & Hin).
  exists r. split; [exact Hrun|].
  intros i Hi. exact (proj1 (Hin i Hi)).
Defined.
